(** * Guess The Emoji: puzzle, session and attempt actions

    A shallow embedding of the Astro actions of the repository
    ([createPuzzle], [updatePuzzle], [archivePuzzle], [listMyPuzzles],
    [startPuzzleSession], [endPuzzleSession], [submitPuzzleAttempt]) and of
    the three tables of [db/tables.ts], followed by the properties of the
    specification that concern them.

    Conventions of the embedding:
    - a JavaScript string is the list of its UTF-16 code units;
    - [undefined] (an absent optional input) and SQL [NULL] are [None];
    - a [Date] is its number of milliseconds, an integer;
    - a handler is a function from the database to an outcome and a
      database: a thrown [ActionError] leaves the database as the handler
      had it when it threw;
    - [new Date()] and [crypto.randomUUID()] are read from an explicit
      environment. *)

From Stdlib Require Import List Bool NArith ZArith Lia String Ascii Sorted Permutation.
Import ListNotations.

Set Implicit Arguments.

(* ================================================================== *)
(** ** JavaScript strings *)
(* ================================================================== *)

Abbreviation code_unit := N (only parsing).
Abbreviation code_point := N (only parsing).
Abbreviation jsstring := (list N) (only parsing).

Local Open Scope N_scope.

(** A string literal of the source (Basic Latin only). *)
Fixpoint js (s : string) : jsstring :=
  match s with
  | EmptyString => []
  | String c s' => N_of_ascii c :: js s'
  end.

(** [===] on strings, and SQL equality of two non-null texts. *)
Fixpoint text_eqb (a b : jsstring) : bool :=
  match a, b with
  | [], [] => true
  | x :: a', y :: b' => (x =? y) && text_eqb a' b'
  | _, _ => false
  end.

(** A string is truthy when it is not empty. *)
Definition truthy (s : jsstring) : bool :=
  match s with [] => false | _ :: _ => true end.

Definition is_leading_surrogate (u : N) : bool := (0xD800 <=? u) && (u <=? 0xDBFF).
Definition is_trailing_surrogate (u : N) : bool := (0xDC00 <=? u) && (u <=? 0xDFFF).
Definition is_surrogate (u : N) : bool := (0xD800 <=? u) && (u <=? 0xDFFF).

(** ECMA-262 StringToCodePoints: a leading surrogate followed by a trailing
    one is one code point, any other code unit is the code point of the
    same value (an unpaired surrogate included). *)
Fixpoint StringToCodePoints (s : jsstring) : list code_point :=
  match s with
  | [] => []
  | h :: t =>
      match t with
      | l :: t' =>
          if is_leading_surrogate h && is_trailing_surrogate l
          then (0x10000 + (h - 0xD800) * 0x400 + (l - 0xDC00)) :: StringToCodePoints t'
          else h :: StringToCodePoints t
      | [] => [h]
      end
  end.

(** ECMA-262 UTF16EncodeCodePoint and CodePointsToString. *)
Definition UTF16EncodeCodePoint (cp : code_point) : jsstring :=
  if cp <=? 0xFFFF then [cp]
  else [ (cp - 0x10000) / 0x400 + 0xD800 ; (cp - 0x10000) mod 0x400 + 0xDC00 ].

Definition CodePointsToString (cps : list code_point) : jsstring :=
  flat_map UTF16EncodeCodePoint cps.

(** ECMA-262 WhiteSpace and LineTerminator: what [trim] removes and what
    [\s] matches. All of them are in the Basic Multilingual Plane. *)
Definition is_white_space (u : N) : bool :=
  (u =? 0x9) || (u =? 0xA) || (u =? 0xB) || (u =? 0xC) || (u =? 0xD)
  || (u =? 0x20) || (u =? 0xA0) || (u =? 0x1680)
  || ((0x2000 <=? u) && (u <=? 0x200A))
  || (u =? 0x2028) || (u =? 0x2029) || (u =? 0x202F) || (u =? 0x205F)
  || (u =? 0x3000) || (u =? 0xFEFF).

Fixpoint trimStart (s : jsstring) : jsstring :=
  match s with
  | [] => []
  | u :: t => if is_white_space u then trimStart t else s
  end.

Definition trimEnd (s : jsstring) : jsstring := rev (trimStart (rev s)).

Definition trim (s : jsstring) : jsstring := trimEnd (trimStart s).

(** A scalar value: a code point that is not a surrogate. *)
Definition is_scalar (c : code_point) : bool :=
  (c <=? 0x10FFFF) && negb (is_surrogate c).

(** A well-formed string has 16-bit code units and no unpaired surrogate. *)
Definition well_formed (s : jsstring) : bool :=
  forallb (fun u => u <=? 0xFFFF) s && forallb is_scalar (StringToCodePoints s).

(** The part of the engine's Unicode support that [normalizeAnswer] uses:
    the general categories Letter and Number, and the lower-case conversion
    of a sequence of code points (Unicode toLowercase, which the host
    locale may tailor). *)
Class UnicodeData : Type := {
  is_Letter : code_point -> bool;
  is_Number : code_point -> bool;
  toLowercase : list code_point -> list code_point
}.

(** What the proofs below need of the lower-case conversion: it yields
    scalar values from scalar values; a code point that it produces is
    itself left alone by it, and a sequence of code points each of which is
    left alone is left alone as a whole (context rules only fire on code
    points that have a lower-case mapping of their own). *)
Record UnicodeFacts (U : UnicodeData) : Prop := {
  toLowercase_scalar :
    forall u, Forall (fun c => is_scalar c = true) u ->
              Forall (fun c => is_scalar c = true) (toLowercase u);
  toLowercase_output_fixed :
    forall u c, In c (toLowercase u) -> toLowercase [c] = [c];
  toLowercase_fixed :
    forall u, (forall c, In c u -> toLowercase [c] = [c]) -> toLowercase u = u
}.

Section Normalizer.
Context {U : UnicodeData}.

(** [String.prototype.toLocaleLowerCase]. *)
Definition toLocaleLowerCase (s : jsstring) : jsstring :=
  CodePointsToString (toLowercase (StringToCodePoints s)).

(** [.replace(/\s+/g, "")]: the pattern has no [u] flag and works on code
    units; every maximal run of white space is deleted. *)
Definition replace_white_space (s : jsstring) : jsstring :=
  filter (fun u => negb (is_white_space u)) s.

(** [.replace(/[^\p{L}\p{N}]/gu, "")]: with the [u] flag the pattern works
    on code points; every code point that is neither a letter nor a number
    is deleted. *)
Definition replace_non_alnum (s : jsstring) : jsstring :=
  CodePointsToString
    (filter (fun c => is_Letter c || is_Number c) (StringToCodePoints s)).

Definition normalizeAnswer (value : jsstring) : jsstring :=
  replace_non_alnum (replace_white_space (toLocaleLowerCase (trim value))).

(** The same four steps on a sequence of code points. *)
Definition normal_code_points (w : list code_point) : list code_point :=
  filter (fun c => is_Letter c || is_Number c)
    (filter (fun u => negb (is_white_space u)) (toLowercase (trim w))).
End Normalizer.

(** The Unicode data restricted to Basic Latin and to the Deseret block
    (U+10400..U+1044F, whose capitals U+10400..U+10427 map to the small
    letters 40 places above); every other code point is taken as neither
    letter nor number and without case mapping. *)
Definition latin_deseret_lower (c : code_point) : code_point :=
  if (0x41 <=? c) && (c <=? 0x5A) then c + 0x20
  else if (0x10400 <=? c) && (c <=? 0x10427) then c + 0x28
  else c.

Definition LatinDeseret : UnicodeData := {|
  is_Letter c :=
    ((0x41 <=? c) && (c <=? 0x5A)) || ((0x61 <=? c) && (c <=? 0x7A))
    || ((0x10400 <=? c) && (c <=? 0x1044F));
  is_Number c := (0x30 <=? c) && (c <=? 0x39);
  toLowercase u := map latin_deseret_lower u
|}.


Local Close Scope N_scope.
Local Open Scope Z_scope.

(* ================================================================== *)
(** ** Tables ([db/tables.ts]) *)
(* ================================================================== *)

(** [z.enum(["easy", "medium", "hard"])] and [z.enum(["practice", "timed"])];
    the columns that store them are plain text. *)
Inductive Difficulty := easy | medium | hard.
Inductive Mode := practice | timed.

Definition Difficulty_text (d : Difficulty) : jsstring :=
  match d with
  | easy => js "easy"
  | medium => js "medium"
  | hard => js "hard"
  end.

Definition Mode_text (m : Mode) : jsstring :=
  match m with
  | practice => js "practice"
  | timed => js "timed"
  end.

Module EmojiPuzzles.
Record row := {
  id : jsstring;
  userId : option jsstring;          (* null for system puzzles *)
  emojiSequence : jsstring;
  answer : jsstring;
  hint : option jsstring;
  category : option jsstring;
  difficulty : option jsstring;
  language : option jsstring;
  isSystem : bool;
  isActive : bool;
  createdAt : Z;
  updatedAt : Z
}.

(** [Partial<typeof EmojiPuzzles.$inferInsert>]: every column optional. *)
Record partial := {
  p_id : option jsstring;
  p_userId : option (option jsstring);
  p_emojiSequence : option jsstring;
  p_answer : option jsstring;
  p_hint : option (option jsstring);
  p_category : option (option jsstring);
  p_difficulty : option (option jsstring);
  p_language : option (option jsstring);
  p_isSystem : option bool;
  p_isActive : option bool;
  p_createdAt : option Z;
  p_updatedAt : option Z
}.
End EmojiPuzzles.

Module EmojiPuzzleSessions.
Record row := {
  id : jsstring;
  userId : jsstring;
  mode : option jsstring;
  createdAt : Z;
  endedAt : option Z;
  totalQuestions : option Z;
  correctAnswers : option Z
}.
End EmojiPuzzleSessions.

Module EmojiPuzzleAttempts.
Record row := {
  id : jsstring;
  sessionId : option jsstring;
  puzzleId : jsstring;
  userId : option jsstring;
  guessText : option jsstring;
  isCorrect : bool;
  createdAt : Z
}.
End EmojiPuzzleAttempts.

Record Db := {
  puzzles : list EmojiPuzzles.row;
  sessions : list EmojiPuzzleSessions.row;
  attempts : list EmojiPuzzleAttempts.row
}.

(** The primary keys of the three tables: no two rows of a table share an
    [id]. *)
Record primary_keys (db : Db) : Prop := {
  pk_puzzles : NoDup (map EmojiPuzzles.id (puzzles db));
  pk_sessions : NoDup (map EmojiPuzzleSessions.id (sessions db));
  pk_attempts : NoDup (map EmojiPuzzleAttempts.id (attempts db))
}.

(* ================================================================== *)
(** ** Handlers: state and thrown errors *)
(* ================================================================== *)

Inductive ActionErrorCode :=
| UNAUTHORIZED
| NOT_FOUND
| BAD_REQUEST
| FORBIDDEN
| INTERNAL_SERVER_ERROR.

Inductive outcome (A : Type) : Type :=
| Returned (a : A)
| Thrown (code : ActionErrorCode).
Arguments Thrown {A} code.

Definition Handler (A : Type) : Type := Db -> outcome A * Db.

Definition ret {A} (a : A) : Handler A := fun db => (Returned a, db).

Definition throw {A} (code : ActionErrorCode) : Handler A :=
  fun db => (Thrown code, db).

Definition bind {A B} (m : Handler A) (k : A -> Handler B) : Handler B :=
  fun db =>
    match m db with
    | (Returned a, db') => k a db'
    | (Thrown code, db') => (Thrown code, db')
    end.

Notation "x <- m ;; k" := (bind m (fun x => k))
  (at level 61, m at next level, right associativity).
Notation "m ;;; k" := (bind m (fun _ => k))
  (at level 61, right associativity).

(** SQL [column = value] where the column may be NULL: NULL equals nothing. *)
Definition eq_nullable (column : option jsstring) (value : jsstring) : bool :=
  match column with
  | Some c => text_eqb c value
  | None => false
  end.

(** [db.select().from(T).where(w)]. The tables of the model hold exact
    values and a select returns them as they are. The client of the real
    tables does so for texts that are well-formed and hold no U+0000 and for
    numbers that are safe integers ([storable_text] and [safe_integer]
    below); a property that depends on other values being read back states
    this as a hypothesis. *)
Definition select_puzzles (w : EmojiPuzzles.row -> bool)
  : Handler (list EmojiPuzzles.row) :=
  fun db => (Returned (filter w (puzzles db)), db).

Definition select_sessions (w : EmojiPuzzleSessions.row -> bool)
  : Handler (list EmojiPuzzleSessions.row) :=
  fun db => (Returned (filter w (sessions db)), db).

(** [db.insert(T).values(r)]: the primary key rejects a row whose [id] is
    already in the table, and the action then fails with an error that is
    not an [ActionError] of the handler. *)
Definition insert_puzzle (r : EmojiPuzzles.row) : Handler unit :=
  fun db =>
    if existsb (fun x => text_eqb (EmojiPuzzles.id x) (EmojiPuzzles.id r)) (puzzles db)
    then (Thrown INTERNAL_SERVER_ERROR, db)
    else (Returned tt,
          {| puzzles := puzzles db ++ [r];
             sessions := sessions db;
             attempts := attempts db |}).

Definition insert_session (r : EmojiPuzzleSessions.row) : Handler unit :=
  fun db =>
    if existsb (fun x => text_eqb (EmojiPuzzleSessions.id x) (EmojiPuzzleSessions.id r))
               (sessions db)
    then (Thrown INTERNAL_SERVER_ERROR, db)
    else (Returned tt,
          {| puzzles := puzzles db;
             sessions := sessions db ++ [r];
             attempts := attempts db |}).

Definition insert_attempt (r : EmojiPuzzleAttempts.row) : Handler unit :=
  fun db =>
    if existsb (fun x => text_eqb (EmojiPuzzleAttempts.id x) (EmojiPuzzleAttempts.id r))
               (attempts db)
    then (Thrown INTERNAL_SERVER_ERROR, db)
    else (Returned tt,
          {| puzzles := puzzles db;
             sessions := sessions db;
             attempts := attempts db ++ [r] |}).

(** [db.update(T).set(f).where(w)]: every row that satisfies [w] is
    replaced by [f] of it, in place. *)
Definition update_puzzles (f : EmojiPuzzles.row -> EmojiPuzzles.row)
    (w : EmojiPuzzles.row -> bool) : Handler unit :=
  fun db =>
    (Returned tt,
     {| puzzles := map (fun r => if w r then f r else r) (puzzles db);
        sessions := sessions db;
        attempts := attempts db |}).

Definition update_sessions (f : EmojiPuzzleSessions.row -> EmojiPuzzleSessions.row)
    (w : EmojiPuzzleSessions.row -> bool) : Handler unit :=
  fun db =>
    (Returned tt,
     {| puzzles := puzzles db;
        sessions := map (fun r => if w r then f r else r) (sessions db);
        attempts := attempts db |}).

(** A present field of the partial row replaces the column, an absent one
    leaves it: both [.set(updates)] and the spread [{...puzzle, ...updates}]. *)
Definition assign {A} (new : option A) (old : A) : A :=
  match new with
  | Some v => v
  | None => old
  end.

Definition spread (r : EmojiPuzzles.row) (u : EmojiPuzzles.partial) : EmojiPuzzles.row :=
  {| EmojiPuzzles.id := assign (EmojiPuzzles.p_id u) (EmojiPuzzles.id r);
     EmojiPuzzles.userId := assign (EmojiPuzzles.p_userId u) (EmojiPuzzles.userId r);
     EmojiPuzzles.emojiSequence :=
       assign (EmojiPuzzles.p_emojiSequence u) (EmojiPuzzles.emojiSequence r);
     EmojiPuzzles.answer := assign (EmojiPuzzles.p_answer u) (EmojiPuzzles.answer r);
     EmojiPuzzles.hint := assign (EmojiPuzzles.p_hint u) (EmojiPuzzles.hint r);
     EmojiPuzzles.category := assign (EmojiPuzzles.p_category u) (EmojiPuzzles.category r);
     EmojiPuzzles.difficulty :=
       assign (EmojiPuzzles.p_difficulty u) (EmojiPuzzles.difficulty r);
     EmojiPuzzles.language := assign (EmojiPuzzles.p_language u) (EmojiPuzzles.language r);
     EmojiPuzzles.isSystem := assign (EmojiPuzzles.p_isSystem u) (EmojiPuzzles.isSystem r);
     EmojiPuzzles.isActive := assign (EmojiPuzzles.p_isActive u) (EmojiPuzzles.isActive r);
     EmojiPuzzles.createdAt := assign (EmojiPuzzles.p_createdAt u) (EmojiPuzzles.createdAt r);
     EmojiPuzzles.updatedAt := assign (EmojiPuzzles.p_updatedAt u) (EmojiPuzzles.updatedAt r)
  |}.

Definition key {A} (field : option A) : nat :=
  match field with
  | Some _ => 1
  | None => 0
  end.

(** [Object.keys(updates).length]. *)
Definition keys_length (u : EmojiPuzzles.partial) : nat :=
  (key (EmojiPuzzles.p_id u) + key (EmojiPuzzles.p_userId u)
   + key (EmojiPuzzles.p_emojiSequence u) + key (EmojiPuzzles.p_answer u)
   + key (EmojiPuzzles.p_hint u) + key (EmojiPuzzles.p_category u)
   + key (EmojiPuzzles.p_difficulty u) + key (EmojiPuzzles.p_language u)
   + key (EmojiPuzzles.p_isSystem u) + key (EmojiPuzzles.p_isActive u)
   + key (EmojiPuzzles.p_createdAt u) + key (EmojiPuzzles.p_updatedAt u))%nat.

(** [updates.updatedAt = ...]. *)
Definition with_updatedAt (u : EmojiPuzzles.partial) (t : Z) : EmojiPuzzles.partial :=
  {| EmojiPuzzles.p_id := EmojiPuzzles.p_id u;
     EmojiPuzzles.p_userId := EmojiPuzzles.p_userId u;
     EmojiPuzzles.p_emojiSequence := EmojiPuzzles.p_emojiSequence u;
     EmojiPuzzles.p_answer := EmojiPuzzles.p_answer u;
     EmojiPuzzles.p_hint := EmojiPuzzles.p_hint u;
     EmojiPuzzles.p_category := EmojiPuzzles.p_category u;
     EmojiPuzzles.p_difficulty := EmojiPuzzles.p_difficulty u;
     EmojiPuzzles.p_language := EmojiPuzzles.p_language u;
     EmojiPuzzles.p_isSystem := EmojiPuzzles.p_isSystem u;
     EmojiPuzzles.p_isActive := EmojiPuzzles.p_isActive u;
     EmojiPuzzles.p_createdAt := EmojiPuzzles.p_createdAt u;
     EmojiPuzzles.p_updatedAt := Some t |}.

(** [ORDER BY createdAt]: ascending, rows of equal time in table order. *)
Fixpoint insert_by_createdAt (r : EmojiPuzzles.row) (l : list EmojiPuzzles.row)
  : list EmojiPuzzles.row :=
  match l with
  | [] => [r]
  | x :: l' =>
      if EmojiPuzzles.createdAt r <? EmojiPuzzles.createdAt x
      then r :: l
      else x :: insert_by_createdAt r l'
  end.

Definition orderBy_createdAt (l : list EmojiPuzzles.row) : list EmojiPuzzles.row :=
  fold_right insert_by_createdAt [] l.

(* ================================================================== *)
(** ** The actions *)
(* ================================================================== *)

Record User := { user_id : jsstring }.
Record Locals := { user : option User }.
Record ActionAPIContext := { locals : option Locals }.

(** What a handler reads from its surroundings: the clock and the
    generator of identifiers. *)
Record Env := { now : Z; randomUUID : jsstring }.

Definition requireUser (context : ActionAPIContext) : Handler User :=
  match locals context with
  | Some l =>
      match user l with
      | Some u => ret u
      | None => throw UNAUTHORIZED
      end
  | None => throw UNAUTHORIZED
  end.

(** [!x] of an optional boolean. *)
Definition falsy_flag (b : option bool) : bool :=
  match b with
  | Some true => false
  | _ => true
  end.

(** [input ?? stored]. *)
Definition nullish {A} (input stored : option A) : option A :=
  match input with
  | Some v => Some v
  | None => stored
  end.

Module CreatePuzzle.
Record input := {
  emojiSequence : jsstring;
  answer : jsstring;
  hint : option jsstring;
  category : option jsstring;
  difficulty : option Difficulty;
  language : option jsstring
}.
Definition schema (i : input) : bool :=
  truthy (emojiSequence i) && truthy (answer i).
End CreatePuzzle.

Module UpdatePuzzle.
Record input := {
  id : jsstring;
  emojiSequence : option jsstring;
  answer : option jsstring;
  hint : option jsstring;
  category : option jsstring;
  difficulty : option Difficulty;
  language : option jsstring;
  isActive : option bool
}.
Definition min1 (s : option jsstring) : bool :=
  match s with
  | Some t => truthy t
  | None => true
  end.
Definition schema (i : input) : bool :=
  min1 (emojiSequence i) && min1 (answer i).
End UpdatePuzzle.

Module ArchivePuzzle.
Record input := { id : jsstring }.
Definition schema (i : input) : bool := true.
End ArchivePuzzle.

Module ListMyPuzzles.
(** The input after the defaults of the schema ([page] 1, [pageSize] 20)
    have been filled in. *)
Record input := {
  includeInactive : option bool;
  category : option jsstring;
  difficulty : option Difficulty;
  page : Z;
  pageSize : Z
}.
Definition schema (i : input) : bool :=
  (0 <? page i) && (0 <? pageSize i) && (pageSize i <=? 100).
Record data := {
  items : list EmojiPuzzles.row;
  total : nat;
  data_page : Z
}.
End ListMyPuzzles.

Module StartPuzzleSession.
Record input := {
  mode : option Mode;
  totalQuestions : option Z
}.
Definition schema (i : input) : bool :=
  match totalQuestions i with
  | Some n => 0 <? n
  | None => true
  end.
End StartPuzzleSession.

Module EndPuzzleSession.
Record input := {
  sessionId : jsstring;
  totalQuestions : option Z;
  correctAnswers : option Z
}.
Definition min0 (n : option Z) : bool :=
  match n with
  | Some v => 0 <=? v
  | None => true
  end.
Definition schema (i : input) : bool :=
  min0 (totalQuestions i) && min0 (correctAnswers i).
End EndPuzzleSession.

Module SubmitPuzzleAttempt.
Record input := {
  puzzleId : jsstring;
  sessionId : option jsstring;
  guessText : jsstring
}.
Definition schema (i : input) : bool := truthy (guessText i).
End SubmitPuzzleAttempt.

Definition createPuzzle (env : Env) (context : ActionAPIContext)
    (input : CreatePuzzle.input) : Handler EmojiPuzzles.row :=
  user <- requireUser context ;;
  let puzzle :=
    {| EmojiPuzzles.id := randomUUID env;
       EmojiPuzzles.userId := Some (user_id user);
       EmojiPuzzles.emojiSequence := CreatePuzzle.emojiSequence input;
       EmojiPuzzles.answer := CreatePuzzle.answer input;
       EmojiPuzzles.hint := CreatePuzzle.hint input;
       EmojiPuzzles.category := CreatePuzzle.category input;
       EmojiPuzzles.difficulty := option_map Difficulty_text (CreatePuzzle.difficulty input);
       EmojiPuzzles.language := CreatePuzzle.language input;
       EmojiPuzzles.isSystem := false;
       EmojiPuzzles.isActive := true;
       EmojiPuzzles.createdAt := now env;
       EmojiPuzzles.updatedAt := now env |} in
  insert_puzzle puzzle ;;;
  ret puzzle.

(** The object [updates] of [updatePuzzle] after its seven conditional
    assignments: a field of the input that is not [undefined] is copied. *)
Definition updates_of (input : UpdatePuzzle.input) : EmojiPuzzles.partial :=
  {| EmojiPuzzles.p_id := None;
     EmojiPuzzles.p_userId := None;
     EmojiPuzzles.p_emojiSequence := UpdatePuzzle.emojiSequence input;
     EmojiPuzzles.p_answer := UpdatePuzzle.answer input;
     EmojiPuzzles.p_hint := option_map Some (UpdatePuzzle.hint input);
     EmojiPuzzles.p_category := option_map Some (UpdatePuzzle.category input);
     EmojiPuzzles.p_difficulty :=
       option_map (fun d => Some (Difficulty_text d)) (UpdatePuzzle.difficulty input);
     EmojiPuzzles.p_language := option_map Some (UpdatePuzzle.language input);
     EmojiPuzzles.p_isSystem := None;
     EmojiPuzzles.p_isActive := UpdatePuzzle.isActive input;
     EmojiPuzzles.p_createdAt := None;
     EmojiPuzzles.p_updatedAt := None |}.

Definition updatePuzzle (env : Env) (context : ActionAPIContext)
    (input : UpdatePuzzle.input) : Handler EmojiPuzzles.row :=
  user <- requireUser context ;;
  rows <- select_puzzles (fun r =>
            text_eqb (EmojiPuzzles.id r) (UpdatePuzzle.id input)
            && eq_nullable (EmojiPuzzles.userId r) (user_id user)) ;;
  match rows with
  | [] => throw NOT_FOUND
  | puzzle :: _ =>
      let updates := updates_of input in
      if Nat.eqb (keys_length updates) 0 then throw BAD_REQUEST
      else
        let updates := with_updatedAt updates (now env) in
        update_puzzles (fun r => spread r updates)
          (fun r => text_eqb (EmojiPuzzles.id r) (EmojiPuzzles.id puzzle)) ;;;
        ret (spread puzzle updates)
  end.

(** [.set({ isActive: false, updatedAt: new Date() })]. *)
Definition archived (t : Z) : EmojiPuzzles.partial :=
  {| EmojiPuzzles.p_id := None;
     EmojiPuzzles.p_userId := None;
     EmojiPuzzles.p_emojiSequence := None;
     EmojiPuzzles.p_answer := None;
     EmojiPuzzles.p_hint := None;
     EmojiPuzzles.p_category := None;
     EmojiPuzzles.p_difficulty := None;
     EmojiPuzzles.p_language := None;
     EmojiPuzzles.p_isSystem := None;
     EmojiPuzzles.p_isActive := Some false;
     EmojiPuzzles.p_createdAt := None;
     EmojiPuzzles.p_updatedAt := Some t |}.

Definition archivePuzzle (env : Env) (context : ActionAPIContext)
    (input : ArchivePuzzle.input) : Handler jsstring :=
  user <- requireUser context ;;
  rows <- select_puzzles (fun r =>
            text_eqb (EmojiPuzzles.id r) (ArchivePuzzle.id input)
            && eq_nullable (EmojiPuzzles.userId r) (user_id user)) ;;
  match rows with
  | [] => throw NOT_FOUND
  | puzzle :: _ =>
      if negb (EmojiPuzzles.isActive puzzle) then throw NOT_FOUND
      else
        update_puzzles (fun r => spread r (archived (now env)))
          (fun r => text_eqb (EmojiPuzzles.id r) (EmojiPuzzles.id puzzle)) ;;;
        ret (EmojiPuzzles.id puzzle)
  end.

(** The [where] clause that [listMyPuzzles] builds up. *)
Definition listMyPuzzles_where (user : User) (input : ListMyPuzzles.input)
  : EmojiPuzzles.row -> bool :=
  let where_ := fun r => eq_nullable (EmojiPuzzles.userId r) (user_id user) in
  let where_ :=
    if falsy_flag (ListMyPuzzles.includeInactive input)
    then fun r => where_ r && Bool.eqb (EmojiPuzzles.isActive r) true
    else where_ in
  let where_ :=
    match ListMyPuzzles.category input with
    | Some c =>
        if truthy c
        then fun r => where_ r && eq_nullable (EmojiPuzzles.category r) c
        else where_
    | None => where_
    end in
  let where_ :=
    match ListMyPuzzles.difficulty input with
    | Some d =>
        if truthy (Difficulty_text d)
        then fun r => where_ r && eq_nullable (EmojiPuzzles.difficulty r) (Difficulty_text d)
        else where_
    | None => where_
    end in
  where_.

Definition listMyPuzzles (env : Env) (context : ActionAPIContext)
    (input : ListMyPuzzles.input) : Handler ListMyPuzzles.data :=
  user <- requireUser context ;;
  let where_ := listMyPuzzles_where user input in
  let offset := (ListMyPuzzles.page input - 1) * ListMyPuzzles.pageSize input in
  rows <- select_puzzles where_ ;;
  let puzzles :=
    firstn (Z.to_nat (ListMyPuzzles.pageSize input))
      (skipn (Z.to_nat offset) (orderBy_createdAt rows)) in
  ret {| ListMyPuzzles.items := puzzles;
         ListMyPuzzles.total := List.length puzzles;
         ListMyPuzzles.data_page := ListMyPuzzles.page input |}.

Definition startPuzzleSession (env : Env) (context : ActionAPIContext)
    (input : StartPuzzleSession.input) : Handler EmojiPuzzleSessions.row :=
  user <- requireUser context ;;
  let session :=
    {| EmojiPuzzleSessions.id := randomUUID env;
       EmojiPuzzleSessions.userId := user_id user;
       EmojiPuzzleSessions.mode := option_map Mode_text (StartPuzzleSession.mode input);
       EmojiPuzzleSessions.createdAt := now env;
       EmojiPuzzleSessions.endedAt := None;
       EmojiPuzzleSessions.totalQuestions := StartPuzzleSession.totalQuestions input;
       EmojiPuzzleSessions.correctAnswers := None |} in
  insert_session session ;;;
  ret session.

(** The guard of [endPuzzleSession]: both counts are given and the correct
    answers exceed the total. *)
Definition exceeds (totalQuestions correctAnswers : option Z) : bool :=
  match totalQuestions, correctAnswers with
  | Some t, Some c => t <? c
  | _, _ => false
  end.

(** [.set({ endedAt, totalQuestions, correctAnswers })] on a session row. *)
Definition ended (t : Z) (total correct : option Z) (r : EmojiPuzzleSessions.row)
  : EmojiPuzzleSessions.row :=
  {| EmojiPuzzleSessions.id := EmojiPuzzleSessions.id r;
     EmojiPuzzleSessions.userId := EmojiPuzzleSessions.userId r;
     EmojiPuzzleSessions.mode := EmojiPuzzleSessions.mode r;
     EmojiPuzzleSessions.createdAt := EmojiPuzzleSessions.createdAt r;
     EmojiPuzzleSessions.endedAt := Some t;
     EmojiPuzzleSessions.totalQuestions := total;
     EmojiPuzzleSessions.correctAnswers := correct |}.

Definition endPuzzleSession (env : Env) (context : ActionAPIContext)
    (input : EndPuzzleSession.input) : Handler jsstring :=
  user <- requireUser context ;;
  rows <- select_sessions (fun r =>
            text_eqb (EmojiPuzzleSessions.id r) (EndPuzzleSession.sessionId input)
            && text_eqb (EmojiPuzzleSessions.userId r) (user_id user)) ;;
  match rows with
  | [] => throw NOT_FOUND
  | session :: _ =>
      if exceeds (EndPuzzleSession.totalQuestions input)
                 (EndPuzzleSession.correctAnswers input)
      then throw BAD_REQUEST
      else
        update_sessions
          (ended (now env)
             (nullish (EndPuzzleSession.totalQuestions input)
                      (EmojiPuzzleSessions.totalQuestions session))
             (nullish (EndPuzzleSession.correctAnswers input)
                      (EmojiPuzzleSessions.correctAnswers session)))
          (fun r => text_eqb (EmojiPuzzleSessions.id r) (EmojiPuzzleSessions.id session)) ;;;
        ret (EmojiPuzzleSessions.id session)
  end.

Section Submit.
Context {U : UnicodeData}.

(** [puzzle.userId && puzzle.userId !== user.id]: the owner is a
    non-empty string and is not the user. *)
Definition owned_by_other (puzzle : EmojiPuzzles.row) (user : User) : bool :=
  match EmojiPuzzles.userId puzzle with
  | Some owner => truthy owner && negb (text_eqb owner (user_id user))
  | None => false
  end.

(** The optional lookup of the session of [submitPuzzleAttempt]. *)
Definition resolve_session (user : User) (sessionId : option jsstring)
  : Handler (option jsstring) :=
  match sessionId with
  | Some sid =>
      if truthy sid then
        rows <- select_sessions (fun r =>
                  text_eqb (EmojiPuzzleSessions.id r) sid
                  && text_eqb (EmojiPuzzleSessions.userId r) (user_id user)) ;;
        match rows with
        | [] => throw NOT_FOUND
        | session :: _ => ret (Some (EmojiPuzzleSessions.id session))
        end
      else ret None
  | None => ret None
  end.

Definition submitPuzzleAttempt (env : Env) (context : ActionAPIContext)
    (input : SubmitPuzzleAttempt.input) : Handler EmojiPuzzleAttempts.row :=
  user <- requireUser context ;;
  rows <- select_puzzles (fun r =>
            text_eqb (EmojiPuzzles.id r) (SubmitPuzzleAttempt.puzzleId input)) ;;
  match rows with
  | [] => throw NOT_FOUND
  | puzzle :: _ =>
      if negb (EmojiPuzzles.isActive puzzle) then throw NOT_FOUND
      else if owned_by_other puzzle user then throw FORBIDDEN
      else
        sessionId <- resolve_session user (SubmitPuzzleAttempt.sessionId input) ;;
        let isCorrect :=
          text_eqb (normalizeAnswer (SubmitPuzzleAttempt.guessText input))
                   (normalizeAnswer (EmojiPuzzles.answer puzzle)) in
        let attempt :=
          {| EmojiPuzzleAttempts.id := randomUUID env;
             EmojiPuzzleAttempts.sessionId := sessionId;
             EmojiPuzzleAttempts.puzzleId := EmojiPuzzles.id puzzle;
             EmojiPuzzleAttempts.userId := Some (user_id user);
             EmojiPuzzleAttempts.guessText := Some (SubmitPuzzleAttempt.guessText input);
             EmojiPuzzleAttempts.isCorrect := isCorrect;
             EmojiPuzzleAttempts.createdAt := now env |} in
        insert_attempt attempt ;;;
        ret attempt
  end.

End Submit.

(** [defineAction]: the input is checked against the schema before the
    handler runs; an input that fails it is answered with [BAD_REQUEST]. *)
Definition defineAction {I A} (schema : I -> bool) (handler : I -> Handler A)
  : I -> Handler A :=
  fun input => if schema input then handler input else throw BAD_REQUEST.

(** A request to the server and what it answers. *)
Inductive Request :=
| CreatePuzzleReq (i : CreatePuzzle.input)
| UpdatePuzzleReq (i : UpdatePuzzle.input)
| ArchivePuzzleReq (i : ArchivePuzzle.input)
| ListMyPuzzlesReq (i : ListMyPuzzles.input)
| StartPuzzleSessionReq (i : StartPuzzleSession.input)
| EndPuzzleSessionReq (i : EndPuzzleSession.input)
| SubmitPuzzleAttemptReq (i : SubmitPuzzleAttempt.input).

Inductive Response :=
| PuzzleData (p : EmojiPuzzles.row)
| IdData (i : jsstring)
| ListData (d : ListMyPuzzles.data)
| SessionData (s : EmojiPuzzleSessions.row)
| AttemptData (a : EmojiPuzzleAttempts.row).

Section Server.
Context {U : UnicodeData}.

(** The object [server]: one action per kind of request. *)
Definition server (env : Env) (context : ActionAPIContext) (r : Request)
  : Handler Response :=
  match r with
  | CreatePuzzleReq i =>
      p <- defineAction CreatePuzzle.schema (createPuzzle env context) i ;;
      ret (PuzzleData p)
  | UpdatePuzzleReq i =>
      p <- defineAction UpdatePuzzle.schema (updatePuzzle env context) i ;;
      ret (PuzzleData p)
  | ArchivePuzzleReq i =>
      x <- defineAction ArchivePuzzle.schema (archivePuzzle env context) i ;;
      ret (IdData x)
  | ListMyPuzzlesReq i =>
      d <- defineAction ListMyPuzzles.schema (listMyPuzzles env context) i ;;
      ret (ListData d)
  | StartPuzzleSessionReq i =>
      s <- defineAction StartPuzzleSession.schema (startPuzzleSession env context) i ;;
      ret (SessionData s)
  | EndPuzzleSessionReq i =>
      x <- defineAction EndPuzzleSession.schema (endPuzzleSession env context) i ;;
      ret (IdData x)
  | SubmitPuzzleAttemptReq i =>
      a <- defineAction SubmitPuzzleAttempt.schema (submitPuzzleAttempt env context) i ;;
      ret (AttemptData a)
  end.
End Server.

(* ================================================================== *)
(** ** Sample data *)
(* ================================================================== *)

Definition signed_in (u : User) : ActionAPIContext :=
  {| locals := Some {| user := Some u |} |}.

Definition alice : User := {| user_id := js "alice" |}.
Definition bob : User := {| user_id := js "bob" |}.

Definition env_at (t : Z) (uuid : string) : Env :=
  {| now := t; randomUUID := js uuid |}.

Definition empty_db : Db := {| puzzles := []; sessions := []; attempts := [] |}.

Definition sample_puzzle (pid : string) (owner : option jsstring) (active : bool)
  : EmojiPuzzles.row :=
  {| EmojiPuzzles.id := js pid;
     EmojiPuzzles.userId := owner;
     EmojiPuzzles.emojiSequence := [0xD83D; 0xDE97; 0xD83D; 0xDCA8; 0xD83C; 0xDFC1]%N;
     EmojiPuzzles.answer := js "Fast and Furious";
     EmojiPuzzles.hint := None;
     EmojiPuzzles.category := Some (js "movie");
     EmojiPuzzles.difficulty := None;
     EmojiPuzzles.language := None;
     EmojiPuzzles.isSystem := false;
     EmojiPuzzles.isActive := active;
     EmojiPuzzles.createdAt := 100;
     EmojiPuzzles.updatedAt := 100 |}.

(** Alice owns an active and an archived puzzle, a system puzzle has no
    owner, and one puzzle has the empty string as its owner. *)
Definition sample_db : Db :=
  {| puzzles := [ sample_puzzle "p1" (Some (js "alice")) true;
                  sample_puzzle "p2" (Some (js "alice")) false;
                  sample_puzzle "p3" None true;
                  sample_puzzle "p4" (Some (js "")) true ];
     sessions := [ {| EmojiPuzzleSessions.id := js "s1";
                      EmojiPuzzleSessions.userId := js "alice";
                      EmojiPuzzleSessions.mode := Some (js "practice");
                      EmojiPuzzleSessions.createdAt := 200;
                      EmojiPuzzleSessions.endedAt := Some 300;
                      EmojiPuzzleSessions.totalQuestions := Some 5;
                      EmojiPuzzleSessions.correctAnswers := None |} ];
     attempts := [] |}.

(** The invariant of a session row: when both counts are known, the
    correct answers do not exceed the total. *)
Definition counts_consistent (s : EmojiPuzzleSessions.row) : bool :=
  match EmojiPuzzleSessions.totalQuestions s, EmojiPuzzleSessions.correctAnswers s with
  | Some t, Some c => c <=? t
  | _, _ => true
  end.

(** A session started with five questions, then ended with the correct
    answers alone. *)
Definition started_db : Db :=
  snd (startPuzzleSession (env_at 1000 "s1") (signed_in alice)
         {| StartPuzzleSession.mode := None;
            StartPuzzleSession.totalQuestions := Some 5 |} empty_db).

Definition end_with_correct_only : EndPuzzleSession.input :=
  {| EndPuzzleSession.sessionId := js "s1";
     EndPuzzleSession.totalQuestions := None;
     EndPuzzleSession.correctAnswers := Some 6 |}.

Definition end_plain : EndPuzzleSession.input :=
  {| EndPuzzleSession.sessionId := js "s1";
     EndPuzzleSession.totalQuestions := None;
     EndPuzzleSession.correctAnswers := None |}.

(** The input of [updatePuzzle] with no field to update, and what the
    claims call an empty update set. *)
Definition no_updates (input : UpdatePuzzle.input) : Prop :=
  UpdatePuzzle.emojiSequence input = None
  /\ UpdatePuzzle.answer input = None
  /\ UpdatePuzzle.hint input = None
  /\ UpdatePuzzle.category input = None
  /\ UpdatePuzzle.difficulty input = None
  /\ UpdatePuzzle.language input = None
  /\ UpdatePuzzle.isActive input = None.

Definition update_input (pid : string) (active : option bool) (hint : option jsstring)
  : UpdatePuzzle.input :=
  {| UpdatePuzzle.id := js pid;
     UpdatePuzzle.emojiSequence := None;
     UpdatePuzzle.answer := None;
     UpdatePuzzle.hint := hint;
     UpdatePuzzle.category := None;
     UpdatePuzzle.difficulty := None;
     UpdatePuzzle.language := None;
     UpdatePuzzle.isActive := active |}.

Definition submit_input (pid : string) (guess : string) : SubmitPuzzleAttempt.input :=
  {| SubmitPuzzleAttempt.puzzleId := js pid;
     SubmitPuzzleAttempt.sessionId := None;
     SubmitPuzzleAttempt.guessText := js guess |}.


(* ================================================================== *)
(** ** Notions used by the further properties *)
(* ================================================================== *)

(** The user that [requireUser] finds in a context, if there is one. *)
Definition caller (context : ActionAPIContext) : option User :=
  match locals context with
  | Some l => user l
  | None => None
  end.

(** The row that [createPuzzle] builds. *)
Definition new_puzzle (env : Env) (u : User) (input : CreatePuzzle.input)
  : EmojiPuzzles.row :=
  {| EmojiPuzzles.id := randomUUID env;
     EmojiPuzzles.userId := Some (user_id u);
     EmojiPuzzles.emojiSequence := CreatePuzzle.emojiSequence input;
     EmojiPuzzles.answer := CreatePuzzle.answer input;
     EmojiPuzzles.hint := CreatePuzzle.hint input;
     EmojiPuzzles.category := CreatePuzzle.category input;
     EmojiPuzzles.difficulty := option_map Difficulty_text (CreatePuzzle.difficulty input);
     EmojiPuzzles.language := CreatePuzzle.language input;
     EmojiPuzzles.isSystem := false;
     EmojiPuzzles.isActive := true;
     EmojiPuzzles.createdAt := now env;
     EmojiPuzzles.updatedAt := now env |}.

(** The row that [startPuzzleSession] builds. *)
Definition new_session (env : Env) (u : User) (input : StartPuzzleSession.input)
  : EmojiPuzzleSessions.row :=
  {| EmojiPuzzleSessions.id := randomUUID env;
     EmojiPuzzleSessions.userId := user_id u;
     EmojiPuzzleSessions.mode := option_map Mode_text (StartPuzzleSession.mode input);
     EmojiPuzzleSessions.createdAt := now env;
     EmojiPuzzleSessions.endedAt := None;
     EmojiPuzzleSessions.totalQuestions := StartPuzzleSession.totalQuestions input;
     EmojiPuzzleSessions.correctAnswers := None |}.

(** Every attempt points to a puzzle of the table, and an attempt made in
    a session points to a session of the user who made the attempt. *)
Definition attempts_linked (db : Db) : Prop :=
  forall a, In a (attempts db) ->
    (exists p, In p (puzzles db)
               /\ EmojiPuzzles.id p = EmojiPuzzleAttempts.puzzleId a)
    /\ (forall sid, EmojiPuzzleAttempts.sessionId a = Some sid ->
          exists s, In s (sessions db)
                    /\ EmojiPuzzleSessions.id s = sid
                    /\ EmojiPuzzleAttempts.userId a = Some (EmojiPuzzleSessions.userId s)).

(** The counts of a session row are not negative. *)
Definition counts_nonnegative (s : EmojiPuzzleSessions.row) : bool :=
  match EmojiPuzzleSessions.totalQuestions s with
  | Some t => 0 <=? t
  | None => true
  end
  && match EmojiPuzzleSessions.correctAnswers s with
     | Some c => 0 <=? c
     | None => true
     end.

(** Ascending order of creation. *)
Definition created_before (a b : EmojiPuzzles.row) : Prop :=
  EmojiPuzzles.createdAt a <= EmojiPuzzles.createdAt b.

Definition list_input (inactive : option bool) (cat : option jsstring)
    (diff : option Difficulty) (page pageSize : Z) : ListMyPuzzles.input :=
  {| ListMyPuzzles.includeInactive := inactive;
     ListMyPuzzles.category := cat;
     ListMyPuzzles.difficulty := diff;
     ListMyPuzzles.page := page;
     ListMyPuzzles.pageSize := pageSize |}.

Definition create_input (emoji answer : string) : CreatePuzzle.input :=
  {| CreatePuzzle.emojiSequence := js emoji;
     CreatePuzzle.answer := js answer;
     CreatePuzzle.hint := None;
     CreatePuzzle.category := None;
     CreatePuzzle.difficulty := None;
     CreatePuzzle.language := None |}.

(** Bob has a session of his own beside the one of Alice. *)
Definition two_sessions_db : Db :=
  {| puzzles := puzzles sample_db;
     sessions := sessions sample_db
                 ++ [ {| EmojiPuzzleSessions.id := js "s2";
                         EmojiPuzzleSessions.userId := js "bob";
                         EmojiPuzzleSessions.mode := None;
                         EmojiPuzzleSessions.createdAt := 250;
                         EmojiPuzzleSessions.endedAt := None;
                         EmojiPuzzleSessions.totalQuestions := None;
                         EmojiPuzzleSessions.correctAnswers := None |} ];
     attempts := [] |}.

(** Three puzzles of Alice, stored in another order than they were
    created in. *)
Definition timed_puzzle (pid : string) (t : Z) (cat : string) : EmojiPuzzles.row :=
  {| EmojiPuzzles.id := js pid;
     EmojiPuzzles.userId := Some (js "alice");
     EmojiPuzzles.emojiSequence := [0xD83D; 0xDE97]%N;
     EmojiPuzzles.answer := js "car";
     EmojiPuzzles.hint := None;
     EmojiPuzzles.category := Some (js cat);
     EmojiPuzzles.difficulty := Some (js "easy");
     EmojiPuzzles.language := None;
     EmojiPuzzles.isSystem := false;
     EmojiPuzzles.isActive := true;
     EmojiPuzzles.createdAt := t;
     EmojiPuzzles.updatedAt := t |}.

Definition timeline_db : Db :=
  {| puzzles := [ timed_puzzle "t3" 30 "movie";
                  timed_puzzle "t1" 10 "song";
                  timed_puzzle "t2" 20 "movie" ];
     sessions := [];
     attempts := [] |}.

(** What one request of a caller can do to the database: nothing, add a
    puzzle, a session or an attempt of the caller at the end of its table,
    rewrite the columns of the puzzle rows that have the id of a puzzle of
    the caller (all but the id, the owner, the system flag and the time of
    creation), or stamp the session rows that have the id of a session of
    the caller. *)
Inductive step_effect (env : Env) (who : option User) (db db' : Db) : Prop :=
| effect_none : db' = db -> step_effect env who db db'
| effect_puzzle_added : forall u p,
    who = Some u ->
    EmojiPuzzles.userId p = Some (user_id u) ->
    db' = {| puzzles := puzzles db ++ [p];
             sessions := sessions db;
             attempts := attempts db |} ->
    step_effect env who db db'
| effect_session_added : forall u s,
    who = Some u ->
    EmojiPuzzleSessions.userId s = user_id u ->
    db' = {| puzzles := puzzles db;
             sessions := sessions db ++ [s];
             attempts := attempts db |} ->
    step_effect env who db db'
| effect_attempt_added : forall u a p,
    who = Some u ->
    EmojiPuzzleAttempts.userId a = Some (user_id u) ->
    In p (puzzles db) ->
    EmojiPuzzles.id p = EmojiPuzzleAttempts.puzzleId a ->
    (forall sid, EmojiPuzzleAttempts.sessionId a = Some sid ->
       exists s, In s (sessions db)
                 /\ EmojiPuzzleSessions.id s = sid
                 /\ EmojiPuzzleSessions.userId s = user_id u) ->
    db' = {| puzzles := puzzles db;
             sessions := sessions db;
             attempts := attempts db ++ [a] |} ->
    step_effect env who db db'
| effect_puzzles_updated : forall u y upd,
    who = Some u ->
    In y (puzzles db) ->
    EmojiPuzzles.userId y = Some (user_id u) ->
    EmojiPuzzles.p_id upd = None ->
    EmojiPuzzles.p_userId upd = None ->
    EmojiPuzzles.p_isSystem upd = None ->
    EmojiPuzzles.p_createdAt upd = None ->
    db' = {| puzzles :=
               map (fun r => if text_eqb (EmojiPuzzles.id r) (EmojiPuzzles.id y)
                             then spread r upd else r) (puzzles db);
             sessions := sessions db;
             attempts := attempts db |} ->
    step_effect env who db db'
| effect_sessions_ended : forall u y total correct,
    who = Some u ->
    In y (sessions db) ->
    EmojiPuzzleSessions.userId y = user_id u ->
    db' = {| puzzles := puzzles db;
             sessions :=
               map (fun r =>
                      if text_eqb (EmojiPuzzleSessions.id r) (EmojiPuzzleSessions.id y)
                      then ended (now env) total correct r else r) (sessions db);
             attempts := attempts db |} ->
    step_effect env who db db'.

(** A request together with the context and the environment it runs in,
    and the database after a sequence of them. *)
Record Call {U : UnicodeData} := {
  call_env : Env;
  call_context : ActionAPIContext;
  call_request : Request
}.

Definition run_calls {U : UnicodeData} (calls : list Call) (db : Db) : Db :=
  fold_left (fun d c => snd (server (call_env c) (call_context c) (call_request c) d))
            calls db.

(** The values that the client of the database carries unchanged. A
    number is read back only when it is a safe integer (below 2^53 in
    absolute value): the select of a row that holds a larger one throws. A
    text is written and read back as it is only when it is well-formed and
    holds no U+0000: an unpaired surrogate is written as U+FFFD, and a text
    is read back up to its first U+0000. *)
Definition safe_integer (n : Z) : bool := (- 2 ^ 53 <? n) && (n <? 2 ^ 53).

Definition safe_counts (s : EmojiPuzzleSessions.row) : bool :=
  match EmojiPuzzleSessions.totalQuestions s with
  | Some t => safe_integer t
  | None => true
  end
  && match EmojiPuzzleSessions.correctAnswers s with
     | Some c => safe_integer c
     | None => true
     end.

Definition storable_text (s : jsstring) : bool :=
  well_formed s && forallb (fun u => negb (u =? 0)%N) s.

Definition storable_option (s : option jsstring) : bool :=
  match s with
  | Some t => storable_text t
  | None => true
  end.

(** The texts of a [createPuzzle] request are all storable. *)
Definition storable_puzzle (i : CreatePuzzle.input) : bool :=
  storable_text (CreatePuzzle.emojiSequence i)
  && storable_text (CreatePuzzle.answer i)
  && storable_option (CreatePuzzle.hint i)
  && storable_option (CreatePuzzle.category i)
  && storable_option (CreatePuzzle.language i).

Ltac run_handler :=
  unfold requireUser, select_puzzles, select_sessions,
    insert_puzzle, insert_session, insert_attempt, update_puzzles, update_sessions,
    bind, ret, throw;
  repeat (cbv beta iota zeta;
          match goal with
          | |- context [match locals ?c with _ => _ end] => destruct (locals c)
          | |- context [match user ?l with _ => _ end] => destruct (user l)
          | |- context [match filter ?f ?l with _ => _ end] => destruct (filter f l)
          | |- context [match ?o with Some _ => _ | None => _ end] => destruct o
          | |- context [if ?b then _ else _] => destruct b eqn:?
          end);
  cbn [fst snd sessions puzzles attempts].

Ltac bool_prop :=
  repeat (rewrite ?andb_true_iff, ?orb_true_iff, ?negb_true_iff,
            ?andb_false_iff, ?orb_false_iff, ?negb_false_iff,
            ?N.eqb_eq, ?N.eqb_neq, ?N.leb_le, ?N.leb_gt in * ).

(* ================================================================== *)
(** ** Properties of JavaScript strings *)
(* ================================================================== *)

Local Open Scope N_scope.

Lemma text_eqb_eq (a b : jsstring) : text_eqb a b = true <-> a = b.
Proof.
  revert b; induction a as [|x a IH]; intros [|y b]; simpl;
    try (split; congruence).
  rewrite andb_true_iff, N.eqb_eq, IH. split.
  - intros [-> ->]; reflexivity.
  - intros E; inversion E; auto.
Qed.

Lemma text_eqb_refl (a : jsstring) : text_eqb a a = true.
Proof. apply text_eqb_eq; reflexivity. Qed.

Lemma text_eqb_neq (a b : jsstring) : text_eqb a b = false <-> a <> b.
Proof.
  rewrite <- text_eqb_eq. destruct (text_eqb a b); split; congruence.
Qed.

Lemma white_space_unit (u : N) :
  is_white_space u = true -> u <= 0xFFFF /\ is_surrogate u = false.
Proof.
  unfold is_white_space, is_surrogate. intros H. bool_prop. lia.
Qed.

Lemma surrogate_not_white_space (u : N) :
  is_surrogate u = true -> is_white_space u = false.
Proof.
  intros H. destruct (is_white_space u) eqn:E; [|reflexivity].
  apply white_space_unit in E. destruct E as [_ E]. congruence.
Qed.

Lemma supplementary_not_white_space (c : N) :
  0xFFFF < c -> is_white_space c = false.
Proof.
  intros H. destruct (is_white_space c) eqn:E; [|reflexivity].
  apply white_space_unit in E. lia.
Qed.

(** The two shapes of the encoding of a scalar value. *)
Lemma encode_scalar (c : code_point) :
  is_scalar c = true ->
  (c <= 0xFFFF /\ is_surrogate c = false /\ UTF16EncodeCodePoint c = [c])
  \/ (0xFFFF < c /\ exists h l,
        UTF16EncodeCodePoint c = [h; l]
        /\ is_leading_surrogate h = true /\ is_trailing_surrogate l = true
        /\ 0x10000 + (h - 0xD800) * 0x400 + (l - 0xDC00) = c).
Proof.
  unfold is_scalar, UTF16EncodeCodePoint. intros H.
  apply andb_true_iff in H. destruct H as [Hmax Hs].
  apply negb_true_iff in Hs. apply N.leb_le in Hmax.
  destruct (c <=? 0xFFFF) eqn:E.
  - left. apply N.leb_le in E. auto.
  - right. apply N.leb_gt in E. split; [exact E|].
    eexists _, _. split; [reflexivity|].
    pose proof (N.div_mod (c - 0x10000) 0x400 ltac:(lia)) as Hdm.
    pose proof (N.mod_lt (c - 0x10000) 0x400 ltac:(lia)) as Hlt.
    assert (Hq : (c - 0x10000) / 0x400 < 0x400)
      by (apply N.Div0.div_lt_upper_bound; lia).
    unfold is_leading_surrogate, is_trailing_surrogate. bool_prop.
    generalize dependent ((c - 0x10000) / 0x400).
    generalize dependent ((c - 0x10000) mod 0x400).
    intros r Hr q Hdm Hq. lia.
Qed.

Lemma decode_cons_not_leading (h : N) (t : jsstring) :
  is_leading_surrogate h = false ->
  StringToCodePoints (h :: t) = h :: StringToCodePoints t.
Proof.
  intros H. destruct t as [|l t']; simpl; [reflexivity|].
  rewrite H. reflexivity.
Qed.

Lemma leading_is_surrogate (h : N) :
  is_leading_surrogate h = true -> is_surrogate h = true.
Proof. unfold is_leading_surrogate, is_surrogate. bool_prop. lia. Qed.

Lemma trailing_is_surrogate (l : N) :
  is_trailing_surrogate l = true -> is_surrogate l = true.
Proof. unfold is_trailing_surrogate, is_surrogate. bool_prop. lia. Qed.

Lemma not_surrogate_not_leading (h : N) :
  is_surrogate h = false -> is_leading_surrogate h = false.
Proof.
  intros H. destruct (is_leading_surrogate h) eqn:E; [|reflexivity].
  apply leading_is_surrogate in E. congruence.
Qed.

(** Decoding undoes the encoding of scalar values. *)
Lemma decode_encode (w : list code_point) :
  Forall (fun c => is_scalar c = true) w ->
  StringToCodePoints (CodePointsToString w) = w.
Proof.
  induction 1 as [|c w Hc Hw IH]; [reflexivity|].
  unfold CodePointsToString in *. cbn [flat_map].
  destruct (encode_scalar c Hc) as [(_ & Hs & ->) | (_ & h & l & -> & Hh & Hl & E)].
  - cbn [app]. rewrite decode_cons_not_leading by (apply not_surrogate_not_leading; exact Hs).
    rewrite IH. reflexivity.
  - cbn [app StringToCodePoints]. rewrite Hh, Hl. cbn [andb].
    fold StringToCodePoints. rewrite IH, E. reflexivity.
Qed.

Lemma encode_pair (h l : N) :
  is_leading_surrogate h = true -> is_trailing_surrogate l = true ->
  UTF16EncodeCodePoint (0x10000 + (h - 0xD800) * 0x400 + (l - 0xDC00)) = [h; l].
Proof.
  unfold is_leading_surrogate, is_trailing_surrogate, UTF16EncodeCodePoint.
  intros Hh Hl. bool_prop.
  destruct (_ <=? 0xFFFF) eqn:E; [apply N.leb_le in E; lia|].
  replace (0x10000 + (h - 0xD800) * 0x400 + (l - 0xDC00) - 0x10000)
    with (0x400 * (h - 0xD800) + (l - 0xDC00)) by lia.
  rewrite <- (N.div_unique (0x400 * (h - 0xD800) + (l - 0xDC00)) 0x400
                (h - 0xD800) (l - 0xDC00)) by lia.
  rewrite <- (N.mod_unique (0x400 * (h - 0xD800) + (l - 0xDC00)) 0x400
                (h - 0xD800) (l - 0xDC00)) by lia.
  f_equal; [lia | f_equal; lia].
Qed.

Lemma encode_cons (c : code_point) (w : list code_point) :
  CodePointsToString (c :: w) = UTF16EncodeCodePoint c ++ CodePointsToString w.
Proof. reflexivity. Qed.

Lemma encode_bmp (c : code_point) : c <= 0xFFFF -> UTF16EncodeCodePoint c = [c].
Proof.
  intros H. unfold UTF16EncodeCodePoint. apply N.leb_le in H. rewrite H. reflexivity.
Qed.

Lemma decode_cons_cons (h l : N) (t : jsstring) :
  StringToCodePoints (h :: l :: t) =
  if is_leading_surrogate h && is_trailing_surrogate l
  then (0x10000 + (h - 0xD800) * 0x400 + (l - 0xDC00)) :: StringToCodePoints t
  else h :: StringToCodePoints (l :: t).
Proof. reflexivity. Qed.

(** Encoding undoes the decoding of any string of 16-bit code units. *)
Lemma encode_decode_cons (s : jsstring) :
  forallb (fun u => u <=? 0xFFFF) s = true ->
  CodePointsToString (StringToCodePoints s) = s
  /\ forall h, h <= 0xFFFF ->
       CodePointsToString (StringToCodePoints (h :: s)) = h :: s.
Proof.
  induction s as [|l t IH]; intros Hs.
  - split; [reflexivity|]. intros h Hh. cbn [StringToCodePoints].
    rewrite encode_cons, (encode_bmp Hh). reflexivity.
  - cbn [forallb] in Hs. apply andb_true_iff in Hs. destruct Hs as [Hl Ht].
    apply N.leb_le in Hl. destruct (IH Ht) as [IHt IHc].
    assert (Hlt : CodePointsToString (StringToCodePoints (l :: t)) = l :: t)
      by (apply IHc; exact Hl).
    split; [exact Hlt|]. intros h Hh.
    rewrite decode_cons_cons.
    destruct (is_leading_surrogate h && is_trailing_surrogate l) eqn:E.
    + apply andb_true_iff in E. destruct E as [Eh El].
      rewrite encode_cons, (encode_pair h l Eh El), IHt. reflexivity.
    + rewrite encode_cons, Hlt, (encode_bmp Hh). reflexivity.
Qed.

Lemma well_formed_encoding (s : jsstring) :
  well_formed s = true ->
  Forall (fun c => is_scalar c = true) (StringToCodePoints s)
  /\ CodePointsToString (StringToCodePoints s) = s.
Proof.
  unfold well_formed. intros H. apply andb_true_iff in H. destruct H as [Hu Hc].
  split.
  - apply Forall_forall. apply forallb_forall. exact Hc.
  - apply encode_decode_cons. exact Hu.
Qed.

(** *** Trimming *)

Lemma trimStart_incl (s : jsstring) (x : N) : In x (trimStart s) -> In x s.
Proof.
  induction s as [|u t IH]; simpl; [tauto|].
  destruct (is_white_space u); simpl; tauto.
Qed.

Lemma trimEnd_incl (s : jsstring) (x : N) : In x (trimEnd s) -> In x s.
Proof.
  unfold trimEnd. intros H. apply in_rev in H. apply trimStart_incl in H.
  apply in_rev. exact H.
Qed.

Lemma trim_incl (s : jsstring) (x : N) : In x (trim s) -> In x s.
Proof.
  unfold trim. intros H. apply trimStart_incl, trimEnd_incl, H.
Qed.

Lemma trimEnd_snoc (s : jsstring) (u : N) :
  trimEnd (s ++ [u]) = if is_white_space u then trimEnd s else s ++ [u].
Proof.
  unfold trimEnd. rewrite rev_app_distr. simpl.
  destruct (is_white_space u); [reflexivity|].
  simpl. rewrite rev_involutive. reflexivity.
Qed.

Lemma trimStart_no_white_space (s : jsstring) :
  (forall x, In x s -> is_white_space x = false) -> trimStart s = s.
Proof.
  destruct s as [|u t]; [reflexivity|]. intros H. simpl.
  rewrite (H u) by (left; reflexivity). reflexivity.
Qed.

Lemma trim_no_white_space (s : jsstring) :
  (forall x, In x s -> is_white_space x = false) -> trim s = s.
Proof.
  intros H. unfold trim, trimEnd. rewrite (trimStart_no_white_space s H).
  rewrite trimStart_no_white_space.
  - apply rev_involutive.
  - intros x Hx. apply H. apply in_rev. exact Hx.
Qed.

Lemma encode_app (a b : list code_point) :
  CodePointsToString (a ++ b) = CodePointsToString a ++ CodePointsToString b.
Proof. unfold CodePointsToString. apply flat_map_app. Qed.

(** Trimming the encoding of scalar values is trimming the scalar values:
    white space is one code unit and no half of a surrogate pair is white
    space. *)
Lemma trimStart_encode (w : list code_point) :
  Forall (fun c => is_scalar c = true) w ->
  trimStart (CodePointsToString w) = CodePointsToString (trimStart w).
Proof.
  induction 1 as [|c w Hc Hw IH]; [reflexivity|].
  rewrite encode_cons. cbn [trimStart].
  destruct (encode_scalar c Hc) as [(Hle & _ & Henc) | (Hbig & h & l & Henc & Hh & _ & _)].
  - rewrite Henc. cbn [app trimStart]. destruct (is_white_space c).
    + exact IH.
    + rewrite encode_cons, Henc. reflexivity.
  - rewrite Henc. cbn [app trimStart].
    rewrite (surrogate_not_white_space h (leading_is_surrogate h Hh)).
    rewrite (supplementary_not_white_space Hbig).
    rewrite encode_cons, Henc. reflexivity.
Qed.

Lemma trimEnd_encode (w : list code_point) :
  Forall (fun c => is_scalar c = true) w ->
  trimEnd (CodePointsToString w) = CodePointsToString (trimEnd w).
Proof.
  induction w as [|c w IH] using rev_ind; [reflexivity|].
  intros H. apply Forall_app in H. destruct H as [Hw Hc].
  inversion Hc as [|? ? Hc' _]; subst.
  rewrite encode_app, encode_cons, app_nil_r, trimEnd_snoc.
  destruct (encode_scalar c Hc') as [(Hle & _ & Henc) | (Hbig & h & l & Henc & _ & Hl & _)].
  - rewrite Henc, trimEnd_snoc. destruct (is_white_space c).
    + apply IH, Hw.
    + rewrite encode_app, encode_cons, Henc. reflexivity.
  - rewrite Henc, (supplementary_not_white_space Hbig).
    change [h; l] with ([h] ++ [l]). rewrite app_assoc, trimEnd_snoc.
    rewrite (surrogate_not_white_space l (trailing_is_surrogate l Hl)).
    rewrite encode_app, encode_cons, Henc, app_nil_r, <- app_assoc. reflexivity.
Qed.

Lemma trim_scalar (w : list code_point) :
  Forall (fun c => is_scalar c = true) w ->
  Forall (fun c => is_scalar c = true) (trim w).
Proof.
  rewrite !Forall_forall. intros H x Hx. apply H, trim_incl, Hx.
Qed.

Lemma trimStart_scalar (w : list code_point) :
  Forall (fun c => is_scalar c = true) w ->
  Forall (fun c => is_scalar c = true) (trimStart w).
Proof.
  rewrite !Forall_forall. intros H x Hx. apply H, trimStart_incl, Hx.
Qed.

Lemma trim_encode (w : list code_point) :
  Forall (fun c => is_scalar c = true) w ->
  trim (CodePointsToString w) = CodePointsToString (trim w).
Proof.
  intros H. unfold trim. rewrite (trimStart_encode H).
  apply trimEnd_encode, trimStart_scalar, H.
Qed.

(** Deleting white space from the encoding of scalar values is deleting it
    from the scalar values. *)
Lemma white_space_filter_encode (w : list code_point) :
  Forall (fun c => is_scalar c = true) w ->
  filter (fun u => negb (is_white_space u)) (CodePointsToString w)
  = CodePointsToString (filter (fun u => negb (is_white_space u)) w).
Proof.
  induction 1 as [|c w Hc Hw IH]; [reflexivity|].
  rewrite encode_cons, filter_app, IH. cbn [filter].
  destruct (encode_scalar c Hc) as [(Hle & _ & Henc) | (Hbig & h & l & Henc & Hh & Hl & _)].
  - rewrite Henc. cbn [filter]. destruct (is_white_space c); cbn [negb].
    + reflexivity.
    + rewrite encode_cons, Henc. reflexivity.
  - rewrite Henc. cbn [filter].
    rewrite (surrogate_not_white_space h (leading_is_surrogate h Hh)).
    rewrite (surrogate_not_white_space l (trailing_is_surrogate l Hl)).
    rewrite (supplementary_not_white_space Hbig). cbn [negb].
    rewrite encode_cons, Henc. reflexivity.
Qed.

Lemma filter_scalar (f : N -> bool) (w : list code_point) :
  Forall (fun c => is_scalar c = true) w ->
  Forall (fun c => is_scalar c = true) (filter f w).
Proof.
  rewrite !Forall_forall. intros H x Hx. apply filter_In in Hx. apply H, Hx.
Qed.

Lemma filter_all (A : Type) (f : A -> bool) (l : list A) :
  (forall x, In x l -> f x = true) -> filter f l = l.
Proof.
  induction l as [|a l IH]; intros H; [reflexivity|].
  simpl. rewrite (H a) by (left; reflexivity).
  f_equal. apply IH. intros x Hx. apply H. right. exact Hx.
Qed.

Section NormalizerFacts.
Context {U : UnicodeData} (facts : UnicodeFacts U).

Lemma normal_code_points_scalar (w : list code_point) :
  Forall (fun c => is_scalar c = true) w ->
  Forall (fun c => is_scalar c = true) (normal_code_points w).
Proof.
  intros H. unfold normal_code_points.
  apply filter_scalar, filter_scalar, (toLowercase_scalar facts), trim_scalar, H.
Qed.

(** On the encoding of scalar values [normalizeAnswer] works code point
    by code point. *)
Lemma normalizeAnswer_encode (w : list code_point) :
  Forall (fun c => is_scalar c = true) w ->
  normalizeAnswer (CodePointsToString w) = CodePointsToString (normal_code_points w).
Proof.
  intros H. unfold normalizeAnswer, replace_non_alnum, replace_white_space,
    toLocaleLowerCase, normal_code_points.
  rewrite (trim_encode H).
  rewrite (decode_encode (trim_scalar H)).
  pose proof (toLowercase_scalar facts (trim_scalar H)) as Hlow.
  rewrite (white_space_filter_encode Hlow).
  rewrite (decode_encode (filter_scalar _ Hlow)).
  reflexivity.
Qed.

(** Normal code points are a fixed point of the normalization. *)
Lemma normal_code_points_idempotent (w : list code_point) :
  normal_code_points (normal_code_points w) = normal_code_points w.
Proof.
  set (v := normal_code_points w).
  assert (Hws : forall x, In x v -> is_white_space x = false).
  { intros x Hx. unfold v, normal_code_points in Hx.
    apply filter_In in Hx. destruct Hx as [Hx _].
    apply filter_In in Hx. destruct Hx as [_ Hx].
    apply negb_true_iff. exact Hx. }
  assert (Hal : forall x, In x v -> is_Letter x || is_Number x = true).
  { intros x Hx. unfold v, normal_code_points in Hx.
    apply filter_In in Hx. apply Hx. }
  assert (Hfix : forall x, In x v -> toLowercase [x] = [x]).
  { intros x Hx. unfold v, normal_code_points in Hx.
    apply filter_In in Hx. destruct Hx as [Hx _].
    apply filter_In in Hx. destruct Hx as [Hx _].
    apply (toLowercase_output_fixed facts _ _ Hx). }
  unfold normal_code_points at 1. fold v.
  rewrite (trim_no_white_space v Hws).
  rewrite (toLowercase_fixed facts v Hfix).
  rewrite (filter_all _ v) by (intros x Hx; rewrite (Hws x Hx); reflexivity).
  apply filter_all. exact Hal.
Qed.
End NormalizerFacts.

Lemma latin_deseret_lower_fixed (c : code_point) :
  latin_deseret_lower (latin_deseret_lower c) = latin_deseret_lower c.
Proof.
  unfold latin_deseret_lower.
  destruct ((0x41 <=? c) && (c <=? 0x5A)) eqn:E1.
  - destruct ((0x41 <=? c + 0x20) && (c + 0x20 <=? 0x5A)) eqn:E2;
      [bool_prop; lia|].
    destruct ((0x10400 <=? c + 0x20) && (c + 0x20 <=? 0x10427)) eqn:E3;
      [bool_prop; lia | reflexivity].
  - destruct ((0x10400 <=? c) && (c <=? 0x10427)) eqn:E2.
    + destruct ((0x41 <=? c + 0x28) && (c + 0x28 <=? 0x5A)) eqn:E3;
        [bool_prop; lia|].
      destruct ((0x10400 <=? c + 0x28) && (c + 0x28 <=? 0x10427)) eqn:E4;
        [bool_prop; lia | reflexivity].
    + rewrite E1, E2. reflexivity.
Qed.

Lemma latin_deseret_lower_scalar (c : code_point) :
  is_scalar c = true -> is_scalar (latin_deseret_lower c) = true.
Proof.
  unfold latin_deseret_lower, is_scalar, is_surrogate.
  destruct ((0x41 <=? c) && (c <=? 0x5A)) eqn:E1;
    [|destruct ((0x10400 <=? c) && (c <=? 0x10427)) eqn:E2];
    intros H; bool_prop; lia.
Qed.

Lemma LatinDeseret_facts : UnicodeFacts LatinDeseret.
Proof.
  constructor; cbn [toLowercase LatinDeseret].
  - intros u H. apply Forall_forall. intros x Hx.
    apply in_map_iff in Hx. destruct Hx as (c & <- & Hc).
    apply latin_deseret_lower_scalar. rewrite Forall_forall in H. apply H, Hc.
  - intros u c Hc. apply in_map_iff in Hc. destruct Hc as (x & <- & _).
    cbn [map]. rewrite latin_deseret_lower_fixed. reflexivity.
  - induction u as [|c u IH]; intros H; [reflexivity|].
    cbn [map]. f_equal.
    + specialize (H c (or_introl eq_refl)). cbn [map] in H. congruence.
    + apply IH. intros x Hx. apply H. right. exact Hx.
Qed.

(* ================================================================== *)
(** ** The answer normalizer *)
(* ================================================================== *)

Example normalize_run_fast :
  @normalizeAnswer LatinDeseret (js "Run, Fast!") = js "runfast"
  /\ @normalizeAnswer LatinDeseret (js "runfast") = js "runfast".
Proof. split; vm_compute; reflexivity. Qed.

(** C9, as stated, fails: a leading and a trailing surrogate separated by a
    space are left alone by the lower-casing, become the capital letter
    U+10400 once the space is deleted, and that letter is lower-cased to
    U+10428 by a second normalization. *)
Lemma normalizeAnswer_not_idempotent :
  @normalizeAnswer LatinDeseret [0xD801; 0x20; 0xDC00] = [0xD801; 0xDC00]
  /\ @normalizeAnswer LatinDeseret
       (@normalizeAnswer LatinDeseret [0xD801; 0x20; 0xDC00]) = [0xD801; 0xDC28]
  /\ @normalizeAnswer LatinDeseret
       (@normalizeAnswer LatinDeseret [0xD801; 0x20; 0xDC00])
     <> @normalizeAnswer LatinDeseret [0xD801; 0x20; 0xDC00].
Proof.
  split; [vm_compute; reflexivity|].
  split; [vm_compute; reflexivity|].
  vm_compute. discriminate.
Qed.

(** C9, amended: on every well-formed string (16-bit code units, no
    unpaired surrogate) normalizing twice is normalizing once, whatever the
    Unicode data of the engine, as long as its lower-casing keeps scalar
    values scalar and leaves alone what it has produced. *)
Theorem normalizeAnswer_idempotent_well_formed :
  forall (U : UnicodeData), UnicodeFacts U ->
  forall s : jsstring,
    well_formed s = true ->
    normalizeAnswer (normalizeAnswer s) = normalizeAnswer s.
Proof.
  intros U facts s Hs.
  destruct (well_formed_encoding s Hs) as [Hscalar Henc].
  rewrite <- Henc.
  rewrite (normalizeAnswer_encode facts Hscalar).
  rewrite (normalizeAnswer_encode facts (normal_code_points_scalar facts Hscalar)).
  rewrite (normal_code_points_idempotent facts). reflexivity.
Qed.

Lemma normalizeAnswer_idempotent_well_formed_witness :
  well_formed (js "Run, Fast!") = true
  /\ @normalizeAnswer LatinDeseret (@normalizeAnswer LatinDeseret (js "Run, Fast!"))
     = @normalizeAnswer LatinDeseret (js "Run, Fast!").
Proof.
  split; [reflexivity|].
  apply (normalizeAnswer_idempotent_well_formed LatinDeseret_facts (js "Run, Fast!")).
  reflexivity.
Defined.

Local Close Scope N_scope.
Local Open Scope Z_scope.

(* ================================================================== *)
(** ** Selecting and updating rows *)
(* ================================================================== *)

Lemma eq_nullable_eq (column : option jsstring) (value : jsstring) :
  eq_nullable column value = true <-> column = Some value.
Proof.
  destruct column as [c|]; simpl.
  - rewrite text_eqb_eq. split; congruence.
  - split; discriminate.
Qed.

Lemma filter_none (A : Type) (f : A -> bool) (l : list A) :
  (forall x, In x l -> f x = false) -> filter f l = [].
Proof.
  induction l as [|a l IH]; intros H; [reflexivity|].
  simpl. rewrite (H a) by (left; reflexivity).
  apply IH. intros x Hx. apply H. right. exact Hx.
Qed.

Lemma filter_some (A : Type) (f : A -> bool) (l : list A) (x : A) :
  In x l -> f x = true ->
  exists y rest, filter f l = y :: rest /\ In y l /\ f y = true.
Proof.
  intros Hx Hf.
  assert (H : In x (filter f l)) by (apply filter_In; auto).
  destruct (filter f l) as [|y rest] eqn:E; [destruct H|].
  exists y, rest. split; [reflexivity|].
  apply filter_In. rewrite E. left. reflexivity.
Qed.

(** Under a primary key a row is determined by its key. *)
Lemma primary_key_unique (A : Type) (key_of : A -> jsstring) (l : list A) (a b : A) :
  NoDup (map key_of l) -> In a l -> In b l -> key_of a = key_of b -> a = b.
Proof.
  induction l as [|x l IH]; intros Hnd Ha Hb E; [destruct Ha|].
  simpl in Hnd. inversion Hnd as [|? ? Hnot Hnd']; subst.
  destruct Ha as [-> | Ha]; destruct Hb as [-> | Hb]; auto.
  - exfalso. apply Hnot. rewrite E. apply in_map. exact Hb.
  - exfalso. apply Hnot. rewrite <- E. apply in_map. exact Ha.
Qed.

(** The row that a select by key finds under a primary key. *)
Lemma select_by_key (A : Type) (key_of : A -> jsstring) (g : A -> bool)
    (l : list A) (p : A) :
  NoDup (map key_of l) -> In p l ->
  filter (fun r => text_eqb (key_of r) (key_of p) && g r) l
  = if g p then [p] else [].
Proof.
  intros Hnd Hp.
  destruct (g p) eqn:Eg.
  - destruct (filter_some (fun r => text_eqb (key_of r) (key_of p) && g r) l p Hp)
      as (y & rest & E & Hy & Hfy).
    { rewrite text_eqb_refl, Eg. reflexivity. }
    assert (Hall : forall z, In z (y :: rest) -> z = p).
    { intros z Hz. rewrite <- E in Hz. apply filter_In in Hz.
      destruct Hz as [Hz Hfz]. apply andb_true_iff in Hfz.
      destruct Hfz as [Hk _]. apply text_eqb_eq in Hk.
      apply (primary_key_unique key_of l z p Hnd Hz Hp Hk). }
    rewrite E. rewrite (Hall y (or_introl eq_refl)).
    destruct rest as [|z rest']; [reflexivity|].
    exfalso. assert (Hdup : NoDup (filter (fun r => text_eqb (key_of r) (key_of p) && g r) l)).
    { apply NoDup_filter. apply (NoDup_map_inv key_of). exact Hnd. }
    rewrite E in Hdup. inversion Hdup as [|? ? Hnot _]; subst.
    apply Hnot. left.
    rewrite (Hall y (or_introl eq_refl)).
    apply Hall. right. left. reflexivity.
  - apply filter_none. intros x Hx.
    destruct (text_eqb (key_of x) (key_of p)) eqn:Ek; [|reflexivity].
    apply text_eqb_eq in Ek.
    rewrite (primary_key_unique key_of l x p Hnd Hx Hp Ek), Eg. reflexivity.
Qed.

Lemma nth_error_map_if (A : Type) (w : A -> bool) (f : A -> A) (l : list A)
    (n : nat) (r : A) :
  nth_error l n = Some r ->
  nth_error (map (fun x => if w x then f x else x) l) n
  = Some (if w r then f r else r).
Proof.
  intros H. rewrite nth_error_map, H. reflexivity.
Qed.

(* ================================================================== *)
(** ** Ending a session *)
(* ================================================================== *)

(** C6. [endPuzzleSession] with both counts given and more correct answers
    than questions never succeeds and leaves the database as it was, so a
    session that had no [endedAt] still has none; on a session of the
    signed-in caller whose stored counts are safe integers (so that the
    select can read it) the error is [BAD_REQUEST]. *)
Theorem endPuzzleSession_exceeding_counts_rejected :
  forall (env : Env) (context : ActionAPIContext) (input : EndPuzzleSession.input)
         (db : Db) (t c : Z),
    EndPuzzleSession.totalQuestions input = Some t ->
    EndPuzzleSession.correctAnswers input = Some c ->
    t < c ->
    (exists code, endPuzzleSession env context input db = (Thrown code, db))
    /\ (forall (u : User) (s : EmojiPuzzleSessions.row),
          context = signed_in u ->
          In s (sessions db) ->
          EmojiPuzzleSessions.id s = EndPuzzleSession.sessionId input ->
          EmojiPuzzleSessions.userId s = user_id u ->
          (forall r, In r (sessions db) ->
                     EmojiPuzzleSessions.id r = EndPuzzleSession.sessionId input ->
                     EmojiPuzzleSessions.userId r = user_id u ->
                     safe_counts r = true) ->
          endPuzzleSession env context input db = (Thrown BAD_REQUEST, db)).
Proof.
  intros env context input db t c Ht Hc Hlt.
  assert (Hex : exceeds (EndPuzzleSession.totalQuestions input)
                        (EndPuzzleSession.correctAnswers input) = true).
  { rewrite Ht, Hc. simpl. apply Z.ltb_lt. exact Hlt. }
  split.
  - unfold endPuzzleSession, bind, requireUser, select_sessions.
    destruct (locals context) as [l|]; [|eexists; reflexivity].
    destruct (user l) as [u|]; [|eexists; reflexivity].
    cbn [ret throw]. destruct (filter _ (sessions db)) as [|session rest].
    + eexists; reflexivity.
    + rewrite Hex. eexists; reflexivity.
  - intros u s -> Hs Hid Hown _.
    unfold endPuzzleSession, bind, requireUser, select_sessions, signed_in.
    cbn [locals user ret throw].
    destruct (filter_some
                (fun r => text_eqb (EmojiPuzzleSessions.id r) (EndPuzzleSession.sessionId input)
                          && text_eqb (EmojiPuzzleSessions.userId r) (user_id u))
                (sessions db) s Hs) as (y & rest & E & _ & _).
    { rewrite Hid, Hown, !text_eqb_refl. reflexivity. }
    rewrite E, Hex. reflexivity.
Qed.

Lemma endPuzzleSession_exceeding_counts_rejected_witness :
  endPuzzleSession (env_at 2000 "x") (signed_in alice)
    {| EndPuzzleSession.sessionId := js "s1";
       EndPuzzleSession.totalQuestions := Some 5;
       EndPuzzleSession.correctAnswers := Some 6 |} started_db
  = (Thrown BAD_REQUEST, started_db)
  /\ map EmojiPuzzleSessions.endedAt (sessions started_db) = [None].
Proof.
  split; [|reflexivity].
  eapply (proj2 (endPuzzleSession_exceeding_counts_rejected
                   (env_at 2000 "x") (signed_in alice)
                   {| EndPuzzleSession.sessionId := js "s1";
                      EndPuzzleSession.totalQuestions := Some 5;
                      EndPuzzleSession.correctAnswers := Some 6 |}
                   started_db (t := 5) (c := 6) eq_refl eq_refl ltac:(lia))).
  - reflexivity.
  - vm_compute. left. reflexivity.
  - reflexivity.
  - reflexivity.
  - intros r Hr _ _. vm_compute in Hr. destruct Hr as [<- | []]. reflexivity.
Defined.

(* ================================================================== *)
(** ** Updating and archiving a puzzle *)
(* ================================================================== *)

(** C5. A puzzle of another user, or of no user, is not found by
    [updatePuzzle] nor by [archivePuzzle], whatever the fields of the
    request, and the database is left as it was: the ownership test is the
    equality of the owner column with the caller, which a null owner never
    satisfies. *)
Theorem update_archive_foreign_puzzle_not_found :
  forall (env : Env) (u : User) (db : Db) (p : EmojiPuzzles.row)
         (input : UpdatePuzzle.input),
    primary_keys db ->
    In p (puzzles db) ->
    EmojiPuzzles.userId p <> Some (user_id u) ->
    UpdatePuzzle.id input = EmojiPuzzles.id p ->
    updatePuzzle env (signed_in u) input db = (Thrown NOT_FOUND, db)
    /\ archivePuzzle env (signed_in u) {| ArchivePuzzle.id := EmojiPuzzles.id p |} db
       = (Thrown NOT_FOUND, db).
Proof.
  intros env u db p input Hpk Hp Hown Hid.
  pose proof (select_by_key EmojiPuzzles.id
                (fun r => eq_nullable (EmojiPuzzles.userId r) (user_id u))
                (puzzles db) p (pk_puzzles Hpk) Hp) as Hsel.
  assert (Hno : eq_nullable (EmojiPuzzles.userId p) (user_id u) = false).
  { destruct (eq_nullable (EmojiPuzzles.userId p) (user_id u)) eqn:E; [|reflexivity].
    apply eq_nullable_eq in E. contradiction. }
  cbv beta in Hsel. rewrite Hno in Hsel.
  split.
  - unfold updatePuzzle, bind, requireUser, select_puzzles, signed_in.
    cbn [locals user ret throw]. rewrite Hid, Hsel. reflexivity.
  - unfold archivePuzzle, bind, requireUser, select_puzzles, signed_in.
    cbn [locals user ret throw ArchivePuzzle.id]. rewrite Hsel. reflexivity.
Qed.

Lemma sample_db_primary_keys : primary_keys sample_db.
Proof.
  constructor; vm_compute; repeat constructor; simpl; intuition discriminate.
Qed.

Lemma update_archive_foreign_puzzle_not_found_witness :
  (updatePuzzle (env_at 500 "x") (signed_in bob)
     (update_input "p1" None (Some (js "a car"))) sample_db
   = (Thrown NOT_FOUND, sample_db)
   /\ archivePuzzle (env_at 500 "x") (signed_in bob)
        {| ArchivePuzzle.id := js "p1" |} sample_db
      = (Thrown NOT_FOUND, sample_db))
  /\ (updatePuzzle (env_at 500 "x") (signed_in bob)
        (update_input "p3" (Some false) None) sample_db
      = (Thrown NOT_FOUND, sample_db)
      /\ archivePuzzle (env_at 500 "x") (signed_in bob)
           {| ArchivePuzzle.id := js "p3" |} sample_db
         = (Thrown NOT_FOUND, sample_db)).
Proof.
  split.
  - apply (update_archive_foreign_puzzle_not_found (env_at 500 "x") bob
             (sample_puzzle "p1" (Some (js "alice")) true)
             (update_input "p1" None (Some (js "a car")))
             sample_db_primary_keys).
    + left. reflexivity.
    + vm_compute. discriminate.
    + reflexivity.
  - apply (update_archive_foreign_puzzle_not_found (env_at 500 "x") bob
             (sample_puzzle "p3" None true)
             (update_input "p3" (Some false) None)
             sample_db_primary_keys).
    + right. right. left. reflexivity.
    + discriminate.
    + reflexivity.
Defined.

(** What [updatePuzzle] does for a signed-in user, step by step. *)
Lemma updatePuzzle_signed_in (env : Env) (u : User) (input : UpdatePuzzle.input) (db : Db) :
  updatePuzzle env (signed_in u) input db =
  match filter (fun r => text_eqb (EmojiPuzzles.id r) (UpdatePuzzle.id input)
                         && eq_nullable (EmojiPuzzles.userId r) (user_id u))
               (puzzles db) with
  | [] => (Thrown NOT_FOUND, db)
  | puzzle :: _ =>
      if Nat.eqb (keys_length (updates_of input)) 0 then (Thrown BAD_REQUEST, db)
      else
        let updates := with_updatedAt (updates_of input) (now env) in
        (Returned (spread puzzle updates),
         {| puzzles :=
              map (fun r => if text_eqb (EmojiPuzzles.id r) (EmojiPuzzles.id puzzle)
                            then spread r updates else r) (puzzles db);
            sessions := sessions db;
            attempts := attempts db |})
  end.
Proof.
  unfold updatePuzzle, bind, requireUser, select_puzzles, signed_in.
  cbn [locals user ret throw].
  destruct (filter _ (puzzles db)) as [|puzzle rest]; [reflexivity|].
  destruct (Nat.eqb (keys_length (updates_of input)) 0); reflexivity.
Qed.

Lemma archivePuzzle_signed_in (env : Env) (u : User) (input : ArchivePuzzle.input) (db : Db) :
  archivePuzzle env (signed_in u) input db =
  match filter (fun r => text_eqb (EmojiPuzzles.id r) (ArchivePuzzle.id input)
                         && eq_nullable (EmojiPuzzles.userId r) (user_id u))
               (puzzles db) with
  | [] => (Thrown NOT_FOUND, db)
  | puzzle :: _ =>
      if negb (EmojiPuzzles.isActive puzzle) then (Thrown NOT_FOUND, db)
      else
        (Returned (EmojiPuzzles.id puzzle),
         {| puzzles :=
              map (fun r => if text_eqb (EmojiPuzzles.id r) (EmojiPuzzles.id puzzle)
                            then spread r (archived (now env)) else r) (puzzles db);
            sessions := sessions db;
            attempts := attempts db |})
  end.
Proof.
  unfold archivePuzzle, bind, requireUser, select_puzzles, signed_in.
  cbn [locals user ret throw].
  destruct (filter _ (puzzles db)) as [|puzzle rest]; [reflexivity|].
  destruct (negb (EmojiPuzzles.isActive puzzle)); reflexivity.
Qed.

(** The update set is empty exactly when no updatable field is given. *)
Lemma keys_length_updates_of (input : UpdatePuzzle.input) :
  Nat.eqb (keys_length (updates_of input)) 0 = true <-> no_updates input.
Proof.
  unfold no_updates.
  destruct input as [i es an hi ca di la ac]. cbn.
  destruct es, an, hi, ca, di, la, ac; cbn; split;
    try discriminate; try (intros; repeat split; reflexivity);
    intros (? & ? & ? & ? & ? & ? & ?); discriminate.
Qed.

(** The row that a select by key and owner finds has that key and owner. *)
Lemma selected_puzzle (u : User) (pid : jsstring) (l : list EmojiPuzzles.row)
    (y : EmojiPuzzles.row) (rest : list EmojiPuzzles.row) :
  filter (fun r => text_eqb (EmojiPuzzles.id r) pid
                   && eq_nullable (EmojiPuzzles.userId r) (user_id u)) l = y :: rest ->
  In y l /\ EmojiPuzzles.id y = pid /\ EmojiPuzzles.userId y = Some (user_id u).
Proof.
  intros E.
  assert (H : In y (filter (fun r => text_eqb (EmojiPuzzles.id r) pid
                   && eq_nullable (EmojiPuzzles.userId r) (user_id u)) l))
    by (rewrite E; left; reflexivity).
  apply filter_In in H. destruct H as [Hy Hf].
  apply andb_true_iff in Hf. destruct Hf as [Hk Ho].
  apply text_eqb_eq in Hk. apply eq_nullable_eq in Ho. auto.
Qed.

Lemma own_puzzle_selected (u : User) (pid : jsstring) (l : list EmojiPuzzles.row)
    (p : EmojiPuzzles.row) :
  In p l -> EmojiPuzzles.id p = pid -> EmojiPuzzles.userId p = Some (user_id u) ->
  exists y rest,
    filter (fun r => text_eqb (EmojiPuzzles.id r) pid
                     && eq_nullable (EmojiPuzzles.userId r) (user_id u)) l = y :: rest
    /\ In y l /\ EmojiPuzzles.id y = pid /\ EmojiPuzzles.userId y = Some (user_id u).
Proof.
  intros Hp Hid Hown.
  destruct (filter_some
              (fun r => text_eqb (EmojiPuzzles.id r) pid
                        && eq_nullable (EmojiPuzzles.userId r) (user_id u)) l p Hp)
    as (y & rest & E & _ & _).
  { rewrite Hid, Hown. simpl. rewrite !text_eqb_refl. reflexivity. }
  exists y, rest. split; [exact E|]. apply (@selected_puzzle u pid l y rest E).
Qed.

(** C7. [updatePuzzle] on a puzzle of the caller: with no updatable field
    in the request it throws [BAD_REQUEST] and the database is as it was;
    otherwise it succeeds, every stored row of that id has [updatedAt] set
    to the time of the call, the fields given in the request set to their
    new values and every other field as before, and no other row of any
    table changes. *)
Theorem updatePuzzle_partial_update :
  forall (env : Env) (u : User) (db : Db) (p : EmojiPuzzles.row)
         (input : UpdatePuzzle.input),
    In p (puzzles db) ->
    EmojiPuzzles.userId p = Some (user_id u) ->
    UpdatePuzzle.id input = EmojiPuzzles.id p ->
    (no_updates input ->
     updatePuzzle env (signed_in u) input db = (Thrown BAD_REQUEST, db))
    /\ (~ no_updates input ->
        exists r db',
          updatePuzzle env (signed_in u) input db = (Returned r, db')
          /\ EmojiPuzzles.updatedAt r = now env
          /\ sessions db' = sessions db
          /\ attempts db' = attempts db
          /\ forall n q, nth_error (puzzles db) n = Some q ->
               (EmojiPuzzles.id q <> EmojiPuzzles.id p ->
                nth_error (puzzles db') n = Some q)
               /\ (EmojiPuzzles.id q = EmojiPuzzles.id p ->
                   exists q',
                     nth_error (puzzles db') n = Some q'
                     /\ EmojiPuzzles.updatedAt q' = now env
                     /\ EmojiPuzzles.id q' = EmojiPuzzles.id q
                     /\ EmojiPuzzles.userId q' = EmojiPuzzles.userId q
                     /\ EmojiPuzzles.isSystem q' = EmojiPuzzles.isSystem q
                     /\ EmojiPuzzles.createdAt q' = EmojiPuzzles.createdAt q
                     /\ EmojiPuzzles.emojiSequence q'
                        = match UpdatePuzzle.emojiSequence input with
                          | Some v => v
                          | None => EmojiPuzzles.emojiSequence q
                          end
                     /\ EmojiPuzzles.answer q'
                        = match UpdatePuzzle.answer input with
                          | Some v => v
                          | None => EmojiPuzzles.answer q
                          end
                     /\ EmojiPuzzles.hint q'
                        = match UpdatePuzzle.hint input with
                          | Some v => Some v
                          | None => EmojiPuzzles.hint q
                          end
                     /\ EmojiPuzzles.category q'
                        = match UpdatePuzzle.category input with
                          | Some v => Some v
                          | None => EmojiPuzzles.category q
                          end
                     /\ EmojiPuzzles.difficulty q'
                        = match UpdatePuzzle.difficulty input with
                          | Some v => Some (Difficulty_text v)
                          | None => EmojiPuzzles.difficulty q
                          end
                     /\ EmojiPuzzles.language q'
                        = match UpdatePuzzle.language input with
                          | Some v => Some v
                          | None => EmojiPuzzles.language q
                          end
                     /\ EmojiPuzzles.isActive q'
                        = match UpdatePuzzle.isActive input with
                          | Some v => v
                          | None => EmojiPuzzles.isActive q
                          end)).
Proof.
  intros env u db p input Hp Hown Hid.
  destruct (@own_puzzle_selected u (UpdatePuzzle.id input) (puzzles db) p Hp
              (eq_sym Hid) Hown) as (y & rest & E & Hy & Hyid & Hyown).
  rewrite updatePuzzle_signed_in, E.
  split.
  - intros Hno. apply keys_length_updates_of in Hno. rewrite Hno. reflexivity.
  - intros Hsome.
    destruct (Nat.eqb (keys_length (updates_of input)) 0) eqn:Ek.
    { apply keys_length_updates_of in Ek. contradiction. }
    eexists _, _. split; [reflexivity|].
    split; [reflexivity|]. split; [reflexivity|]. split; [reflexivity|].
    intros n q Hq. cbn [puzzles].
    rewrite (nth_error_map_if _ _ _ _ Hq), Hyid, Hid.
    split.
    + intros Hne. apply text_eqb_neq in Hne. rewrite Hne. reflexivity.
    + intros Heq.
      assert (Ht : text_eqb (EmojiPuzzles.id q) (EmojiPuzzles.id p) = true)
        by (apply text_eqb_eq; exact Heq).
      rewrite Ht. eexists. split; [reflexivity|].
      clear. destruct input as [i es an hi ca di la ac].
      destruct es, an, hi, ca, di, la, ac; cbn; repeat split; reflexivity.
Qed.

Lemma updatePuzzle_partial_update_witness :
  updatePuzzle (env_at 500 "x") (signed_in alice) (update_input "p1" None None) sample_db
  = (Thrown BAD_REQUEST, sample_db)
  /\ exists r db',
       updatePuzzle (env_at 500 "x") (signed_in alice)
         (update_input "p1" None (Some (js "a car"))) sample_db = (Returned r, db')
       /\ EmojiPuzzles.updatedAt r = 500.
Proof.
  split.
  - apply (proj1 (updatePuzzle_partial_update (env_at 500 "x") alice sample_db
                    (sample_puzzle "p1" (Some (js "alice")) true)
                    (update_input "p1" None None)
                    (or_introl eq_refl) eq_refl eq_refl)).
    repeat split; reflexivity.
  - destruct (proj2 (updatePuzzle_partial_update (env_at 500 "x") alice sample_db
                       (sample_puzzle "p1" (Some (js "alice")) true)
                       (update_input "p1" None (Some (js "a car")))
                       (or_introl eq_refl) eq_refl eq_refl))
      as (r & db' & Hrun & Hat & _).
    + intros (_ & _ & H & _). discriminate H.
    + exists r, db'. split; [exact Hrun | exact Hat].
Defined.

(** C10. [updatePuzzle] takes [isActive] among the fields it updates and
    selects the puzzle by id and owner only: on an archived puzzle of the
    caller a request with [isActive] true succeeds, and the stored puzzle
    is active afterwards, whereas [archivePuzzle] on the same archived
    puzzle throws [NOT_FOUND]. *)
Theorem updatePuzzle_reactivates_archived :
  forall (env : Env) (u : User) (db : Db) (p : EmojiPuzzles.row)
         (input : UpdatePuzzle.input),
    In p (puzzles db) ->
    EmojiPuzzles.userId p = Some (user_id u) ->
    EmojiPuzzles.isActive p = false ->
    UpdatePuzzle.id input = EmojiPuzzles.id p ->
    UpdatePuzzle.isActive input = Some true ->
    (exists r db',
        updatePuzzle env (signed_in u) input db = (Returned r, db')
        /\ EmojiPuzzles.id r = EmojiPuzzles.id p
        /\ EmojiPuzzles.isActive r = true
        /\ forall n q, nth_error (puzzles db) n = Some q ->
             EmojiPuzzles.id q = EmojiPuzzles.id p ->
             exists q',
               nth_error (puzzles db') n = Some q'
               /\ EmojiPuzzles.id q' = EmojiPuzzles.id p
               /\ EmojiPuzzles.userId q' = EmojiPuzzles.userId q
               /\ EmojiPuzzles.isActive q' = true)
    /\ (primary_keys db ->
        archivePuzzle env (signed_in u) {| ArchivePuzzle.id := EmojiPuzzles.id p |} db
        = (Thrown NOT_FOUND, db)).
Proof.
  intros env u db p input Hp Hown Hinactive Hid Hact.
  split.
  - destruct (@own_puzzle_selected u (UpdatePuzzle.id input) (puzzles db) p Hp
                (eq_sym Hid) Hown) as (y & rest & E & Hy & Hyid & Hyown).
    rewrite updatePuzzle_signed_in, E.
    destruct (Nat.eqb (keys_length (updates_of input)) 0) eqn:Ek.
    { apply keys_length_updates_of in Ek.
      destruct Ek as (_ & _ & _ & _ & _ & _ & Ek). congruence. }
    eexists _, _. split; [reflexivity|].
    split; [cbn; congruence|].
    split; [cbn; rewrite Hact; reflexivity|].
    intros n q Hq Heq. cbn [puzzles].
    rewrite (nth_error_map_if _ _ _ _ Hq), Hyid, Hid.
    assert (Ht : text_eqb (EmojiPuzzles.id q) (EmojiPuzzles.id p) = true)
      by (apply text_eqb_eq; exact Heq).
    rewrite Ht. eexists. split; [reflexivity|].
    cbn. rewrite Hact. auto.
  - intros Hpk. rewrite archivePuzzle_signed_in. cbn [ArchivePuzzle.id].
    rewrite (select_by_key EmojiPuzzles.id
               (fun r => eq_nullable (EmojiPuzzles.userId r) (user_id u))
               (puzzles db) p (pk_puzzles Hpk) Hp).
    rewrite Hown. cbn. rewrite text_eqb_refl, Hinactive. reflexivity.
Qed.

Lemma updatePuzzle_reactivates_archived_witness :
  (exists r db',
      updatePuzzle (env_at 500 "x") (signed_in alice)
        (update_input "p2" (Some true) None) sample_db = (Returned r, db')
      /\ EmojiPuzzles.isActive r = true
      /\ map EmojiPuzzles.isActive (puzzles db') = [true; true; true; true])
  /\ archivePuzzle (env_at 500 "x") (signed_in alice)
       {| ArchivePuzzle.id := js "p2" |} sample_db
     = (Thrown NOT_FOUND, sample_db).
Proof.
  pose proof (updatePuzzle_reactivates_archived (env_at 500 "x") alice sample_db
                (sample_puzzle "p2" (Some (js "alice")) false)
                (update_input "p2" (Some true) None)
                (or_intror (or_introl eq_refl)) eq_refl eq_refl eq_refl eq_refl)
    as [(r & db' & Hrun & _ & Hact & _) Harch].
  split.
  - exists r, db'. split; [exact Hrun|]. split; [exact Hact|].
    vm_compute in Hrun. inversion Hrun. reflexivity.
  - apply Harch. exact sample_db_primary_keys.
Defined.

(* ================================================================== *)
(** ** Listing the puzzles of the caller *)
(* ================================================================== *)

Lemma insert_by_createdAt_In (r x : EmojiPuzzles.row) (l : list EmojiPuzzles.row) :
  In x (insert_by_createdAt r l) -> x = r \/ In x l.
Proof.
  induction l as [|a l IH]; simpl.
  - intros [H|[]]; auto.
  - destruct (EmojiPuzzles.createdAt r <? EmojiPuzzles.createdAt a); simpl.
    + intros [H|[H|H]]; auto.
    + intros [H|H]; auto. destruct (IH H); auto.
Qed.

Lemma orderBy_createdAt_In (x : EmojiPuzzles.row) (l : list EmojiPuzzles.row) :
  In x (orderBy_createdAt l) -> In x l.
Proof.
  induction l as [|a l IH]; simpl; [tauto|].
  intros H. apply insert_by_createdAt_In in H. destruct H as [H|H]; auto.
Qed.

Lemma page_In (A : Type) (limit offset : nat) (l : list A) (x : A) :
  In x (firstn limit (skipn offset l)) -> In x l.
Proof.
  intros H.
  rewrite <- (firstn_skipn offset l). apply in_or_app. right.
  rewrite <- (firstn_skipn limit (skipn offset l)). apply in_or_app. left. exact H.
Qed.

(** Every clause that [listMyPuzzles] adds to its [where] keeps the ones
    before it. *)
Lemma listMyPuzzles_where_sound (user0 : User) (input : ListMyPuzzles.input)
    (r : EmojiPuzzles.row) :
  listMyPuzzles_where user0 input r = true ->
  EmojiPuzzles.userId r = Some (user_id user0)
  /\ (ListMyPuzzles.includeInactive input <> Some true -> EmojiPuzzles.isActive r = true).
Proof.
  unfold listMyPuzzles_where.
  set (w0 := fun r => eq_nullable (EmojiPuzzles.userId r) (user_id user0)).
  set (w1 := if falsy_flag (ListMyPuzzles.includeInactive input)
             then fun r => w0 r && Bool.eqb (EmojiPuzzles.isActive r) true
             else w0).
  assert (H1 : w1 r = true ->
               EmojiPuzzles.userId r = Some (user_id user0)
               /\ (ListMyPuzzles.includeInactive input <> Some true ->
                   EmojiPuzzles.isActive r = true)).
  { unfold w1, w0.
    destruct (ListMyPuzzles.includeInactive input) as [[|]|]; cbn.
    - intros H. apply eq_nullable_eq in H. split; [exact H | congruence].
    - intros H. apply andb_true_iff in H. destruct H as [H Ha].
      apply eq_nullable_eq in H. apply Bool.eqb_prop in Ha. auto.
    - intros H. apply andb_true_iff in H. destruct H as [H Ha].
      apply eq_nullable_eq in H. apply Bool.eqb_prop in Ha. auto. }
  set (w2 := match ListMyPuzzles.category input with
             | Some c => if truthy c
                         then fun r => w1 r && eq_nullable (EmojiPuzzles.category r) c
                         else w1
             | None => w1
             end).
  assert (H2 : w2 r = true -> w1 r = true).
  { unfold w2. destruct (ListMyPuzzles.category input) as [c|]; [|auto].
    destruct (truthy c); [|auto].
    intros H. apply andb_true_iff in H. apply H. }
  destruct (ListMyPuzzles.difficulty input) as [d|]; [|auto].
  destruct (truthy (Difficulty_text d)); [|auto].
  intros H. apply andb_true_iff in H. destruct H as [H _]. auto.
Qed.

(** C8. For a signed-in caller [listMyPuzzles] always answers, leaves the
    database alone, and every puzzle among its items is owned by the caller
    (so it is neither a system puzzle nor a puzzle of someone else) and,
    unless [includeInactive] is true, is active. *)
Theorem listMyPuzzles_own_and_active :
  forall (env : Env) (u : User) (input : ListMyPuzzles.input) (db : Db),
  exists d,
    listMyPuzzles env (signed_in u) input db = (Returned d, db)
    /\ ListMyPuzzles.total d = List.length (ListMyPuzzles.items d)
    /\ forall p, In p (ListMyPuzzles.items d) ->
         In p (puzzles db)
         /\ EmojiPuzzles.userId p = Some (user_id u)
         /\ (ListMyPuzzles.includeInactive input <> Some true ->
             EmojiPuzzles.isActive p = true).
Proof.
  intros env u input db.
  unfold listMyPuzzles, bind, requireUser, select_puzzles, signed_in.
  cbn [locals user ret].
  eexists. split; [reflexivity|]. split; [reflexivity|].
  cbn [ListMyPuzzles.items]. intros p Hp.
  apply page_In, orderBy_createdAt_In, filter_In in Hp.
  destruct Hp as [Hin Hw]. split; [exact Hin|].
  apply (listMyPuzzles_where_sound u input p Hw).
Qed.

Lemma listMyPuzzles_own_and_active_witness :
  exists d,
    listMyPuzzles (env_at 500 "x") (signed_in alice)
      {| ListMyPuzzles.includeInactive := None;
         ListMyPuzzles.category := None;
         ListMyPuzzles.difficulty := None;
         ListMyPuzzles.page := 1;
         ListMyPuzzles.pageSize := 20 |} sample_db = (Returned d, sample_db)
    /\ map EmojiPuzzles.id (ListMyPuzzles.items d) = [js "p1"].
Proof.
  destruct (listMyPuzzles_own_and_active (env_at 500 "x") alice
              {| ListMyPuzzles.includeInactive := None;
                 ListMyPuzzles.category := None;
                 ListMyPuzzles.difficulty := None;
                 ListMyPuzzles.page := 1;
                 ListMyPuzzles.pageSize := 20 |} sample_db) as (d & Hrun & _).
  exists d. split; [exact Hrun|].
  vm_compute in Hrun. inversion Hrun. reflexivity.
Defined.

(* ================================================================== *)
(** ** Submitting an attempt *)
(* ================================================================== *)

Lemma select_by_id (A : Type) (key_of : A -> jsstring) (l : list A) (p : A) :
  NoDup (map key_of l) -> In p l ->
  filter (fun r => text_eqb (key_of r) (key_of p)) l = [p].
Proof.
  intros Hnd Hp.
  rewrite <- (select_by_key key_of (fun _ => true) l p Hnd Hp).
  apply filter_ext. intros r. rewrite andb_true_r. reflexivity.
Qed.

Lemma fresh_key (A : Type) (key_of : A -> jsstring) (l : list A) (k : jsstring) :
  ~ In k (map key_of l) -> existsb (fun x => text_eqb (key_of x) k) l = false.
Proof.
  intros H. destruct (existsb _ l) eqn:E; [|reflexivity].
  apply existsb_exists in E. destruct E as (x & Hx & Hk).
  apply text_eqb_eq in Hk. exfalso. apply H. rewrite <- Hk. apply in_map. exact Hx.
Qed.

(** The lookup of the session reads the database and either returns or
    throws [NOT_FOUND]. *)
Lemma resolve_session_outcome (u : User) (sessionId : option jsstring) (db : Db) :
  (exists sid, resolve_session u sessionId db = (Returned sid, db))
  \/ resolve_session u sessionId db = (Thrown NOT_FOUND, db).
Proof.
  unfold resolve_session, bind, select_sessions, ret, throw.
  destruct sessionId as [sid|]; [|left; eexists; reflexivity].
  destruct (truthy sid); [|left; eexists; reflexivity].
  destruct (filter _ (sessions db)); [right | left; eexists]; reflexivity.
Qed.

Lemma resolve_session_found (u : User) (sessionId : option jsstring) (db : Db) :
  (forall sid, sessionId = Some sid -> sid <> [] ->
     exists s, In s (sessions db)
               /\ EmojiPuzzleSessions.id s = sid
               /\ EmojiPuzzleSessions.userId s = user_id u) ->
  exists r, resolve_session u sessionId db = (Returned r, db).
Proof.
  intros H. unfold resolve_session, bind, select_sessions, ret, throw.
  destruct sessionId as [sid|]; [|eexists; reflexivity].
  destruct sid as [|c sid']; [eexists; reflexivity|]. cbn [truthy].
  destruct (H (c :: sid') eq_refl ltac:(discriminate)) as (s & Hs & Hid & Hown).
  destruct (filter_some
              (fun r => text_eqb (EmojiPuzzleSessions.id r) (c :: sid')
                        && text_eqb (EmojiPuzzleSessions.userId r) (user_id u))
              (sessions db) s Hs) as (y & rest & E & _ & _).
  { rewrite Hid, Hown, !text_eqb_refl. reflexivity. }
  rewrite E. eexists; reflexivity.
Qed.

Section SubmitFacts.
Context {U : UnicodeData}.

(** [submitPuzzleAttempt] for a signed-in user once the puzzle is found. *)
Lemma submitPuzzleAttempt_resolved (env : Env) (u : User)
    (input : SubmitPuzzleAttempt.input) (db : Db)
    (p : EmojiPuzzles.row) (rest : list EmojiPuzzles.row) :
  filter (fun r => text_eqb (EmojiPuzzles.id r) (SubmitPuzzleAttempt.puzzleId input))
         (puzzles db) = p :: rest ->
  submitPuzzleAttempt env (signed_in u) input db =
  if negb (EmojiPuzzles.isActive p) then (Thrown NOT_FOUND, db)
  else if owned_by_other p u then (Thrown FORBIDDEN, db)
  else
    match resolve_session u (SubmitPuzzleAttempt.sessionId input) db with
    | (Returned sessionId, db1) =>
        let attempt :=
          {| EmojiPuzzleAttempts.id := randomUUID env;
             EmojiPuzzleAttempts.sessionId := sessionId;
             EmojiPuzzleAttempts.puzzleId := EmojiPuzzles.id p;
             EmojiPuzzleAttempts.userId := Some (user_id u);
             EmojiPuzzleAttempts.guessText := Some (SubmitPuzzleAttempt.guessText input);
             EmojiPuzzleAttempts.isCorrect :=
               text_eqb (normalizeAnswer (SubmitPuzzleAttempt.guessText input))
                        (normalizeAnswer (EmojiPuzzles.answer p));
             EmojiPuzzleAttempts.createdAt := now env |} in
        match insert_attempt attempt db1 with
        | (Returned _, db2) => (Returned attempt, db2)
        | (Thrown code, db2) => (Thrown code, db2)
        end
    | (Thrown code, db1) => (Thrown code, db1)
    end.
Proof.
  intros E.
  unfold submitPuzzleAttempt, bind, requireUser, select_puzzles, signed_in.
  cbn [locals user ret throw]. rewrite E.
  destruct (negb (EmojiPuzzles.isActive p)); [reflexivity|].
  destruct (owned_by_other p u); [reflexivity|].
  destruct (resolve_session u (SubmitPuzzleAttempt.sessionId input) db)
    as [[sid|code] db1]; [|reflexivity].
  destruct (insert_attempt _ db1) as [[[]|code] db2]; reflexivity.
Qed.

Lemma owned_by_other_iff (p : EmojiPuzzles.row) (u : User) :
  owned_by_other p u = true <->
  exists owner, EmojiPuzzles.userId p = Some owner
                /\ owner <> [] /\ owner <> user_id u.
Proof.
  unfold owned_by_other. destruct (EmojiPuzzles.userId p) as [owner|].
  - rewrite andb_true_iff, negb_true_iff, text_eqb_neq. split.
    + intros [Ht Hne]. exists owner. split; [reflexivity|].
      split; [|exact Hne]. destruct owner; [discriminate Ht | discriminate].
    + intros (o & Ho & Hnil & Hne). inversion Ho; subst o.
      split; [|exact Hne]. destruct owner; [contradiction | reflexivity].
  - split; [discriminate|]. intros (o & Ho & _). discriminate Ho.
Qed.
End SubmitFacts.

(** C3. On an active puzzle that the user may attempt, an attempt that
    [submitPuzzleAttempt] returns is correct exactly when the normalized
    guess equals the normalized answer of the puzzle, and it is the row
    added to the attempts; and the submission does return an attempt when
    the session, if one is named, is a session of the user and the new
    identifier is not taken. *)
Theorem submitPuzzleAttempt_correct_iff_normalized_equal :
  forall (U : UnicodeData) (env : Env) (u : User) (db : Db) (p : EmojiPuzzles.row)
         (input : SubmitPuzzleAttempt.input),
    primary_keys db ->
    In p (puzzles db) ->
    SubmitPuzzleAttempt.puzzleId input = EmojiPuzzles.id p ->
    EmojiPuzzles.isActive p = true ->
    owned_by_other p u = false ->
    (forall a db',
        submitPuzzleAttempt env (signed_in u) input db = (Returned a, db') ->
        (EmojiPuzzleAttempts.isCorrect a = true <->
         normalizeAnswer (SubmitPuzzleAttempt.guessText input)
         = normalizeAnswer (EmojiPuzzles.answer p))
        /\ (EmojiPuzzleAttempts.isCorrect a = false <->
            normalizeAnswer (SubmitPuzzleAttempt.guessText input)
            <> normalizeAnswer (EmojiPuzzles.answer p))
        /\ EmojiPuzzleAttempts.puzzleId a = EmojiPuzzles.id p
        /\ EmojiPuzzleAttempts.guessText a = Some (SubmitPuzzleAttempt.guessText input)
        /\ attempts db' = attempts db ++ [a]
        /\ puzzles db' = puzzles db
        /\ sessions db' = sessions db)
    /\ ((forall sid, SubmitPuzzleAttempt.sessionId input = Some sid -> sid <> [] ->
           exists s, In s (sessions db)
                     /\ EmojiPuzzleSessions.id s = sid
                     /\ EmojiPuzzleSessions.userId s = user_id u) ->
        ~ In (randomUUID env) (map EmojiPuzzleAttempts.id (attempts db)) ->
        exists a db', submitPuzzleAttempt env (signed_in u) input db = (Returned a, db')).
Proof.
  intros U env u db p input Hpk Hp Hid Hact Hmay.
  pose proof (select_by_id EmojiPuzzles.id (puzzles db) p (pk_puzzles Hpk) Hp) as Hsel.
  rewrite <- Hid in Hsel.
  rewrite (submitPuzzleAttempt_resolved env u input db Hsel), Hact, Hmay.
  cbn [negb]. split.
  - intros a db' Hrun.
    destruct (resolve_session_outcome u (SubmitPuzzleAttempt.sessionId input) db)
      as [(sid & Hres) | Hres]; rewrite Hres in Hrun; [|discriminate Hrun].
    cbv zeta in Hrun. unfold insert_attempt in Hrun.
    destruct (existsb _ (attempts db)); [discriminate Hrun|].
    inversion Hrun; subst a db'; clear Hrun. cbn.
    rewrite text_eqb_eq, text_eqb_neq. repeat split; auto.
  - intros Hsession Hfresh.
    destruct (@resolve_session_found u (SubmitPuzzleAttempt.sessionId input) db Hsession)
      as (sid & Hres).
    rewrite Hres. cbv zeta. unfold insert_attempt. cbn [EmojiPuzzleAttempts.id].
    rewrite (fresh_key EmojiPuzzleAttempts.id (attempts db) (randomUUID env) Hfresh).
    eexists _, _. reflexivity.
Qed.

Lemma submitPuzzleAttempt_correct_iff_normalized_equal_witness :
  exists a db',
    @submitPuzzleAttempt LatinDeseret (env_at 500 "a1") (signed_in alice)
      (submit_input "p1" "fast&furious") sample_db = (Returned a, db')
    /\ EmojiPuzzleAttempts.isCorrect a = false
    /\ attempts db' = [a].
Proof.
  pose proof (@submitPuzzleAttempt_correct_iff_normalized_equal LatinDeseret
                (env_at 500 "a1") alice sample_db
                (sample_puzzle "p1" (Some (js "alice")) true)
                (submit_input "p1" "fast&furious")
                sample_db_primary_keys (or_introl eq_refl) eq_refl eq_refl eq_refl)
    as [Hprop Hruns].
  destruct Hruns as (a & db' & Hrun).
  - intros sid H. discriminate H.
  - simpl. tauto.
  - exists a, db'. split; [exact Hrun|].
    destruct (Hprop a db' Hrun) as (_ & Hfalse & _ & _ & Hatt & _).
    split; [|exact Hatt].
    apply Hfalse. vm_compute. discriminate.
Defined.

(** C4, as stated, fails: a puzzle whose owner column holds the empty
    string has a non-null owner who is not the submitting user, and the
    submission is accepted, because the test of the handler is the truth
    value of the owner, which the empty string lacks. *)
Lemma submitPuzzleAttempt_empty_owner_accepted :
  In (sample_puzzle "p4" (Some (js "")) true) (puzzles sample_db)
  /\ EmojiPuzzles.userId (sample_puzzle "p4" (Some (js "")) true) = Some (js "")
  /\ js "" <> user_id bob
  /\ exists a db',
       @submitPuzzleAttempt LatinDeseret (env_at 500 "a1") (signed_in bob)
         (submit_input "p4" "fast and furious") sample_db = (Returned a, db')
       /\ EmojiPuzzleAttempts.puzzleId a = js "p4".
Proof.
  split; [right; right; right; left; reflexivity|].
  split; [reflexivity|].
  split; [discriminate|].
  eexists _, _. split; vm_compute; reflexivity.
Qed.

(** C4, amended: on an active puzzle [submitPuzzleAttempt] throws
    [FORBIDDEN] exactly when the owner of the puzzle is a non-empty string
    other than the submitting user, and then the database is as it was; a
    puzzle without owner and a puzzle of the user are never forbidden. *)
Theorem submitPuzzleAttempt_forbidden_iff :
  forall (U : UnicodeData) (env : Env) (u : User) (db : Db) (p : EmojiPuzzles.row)
         (input : SubmitPuzzleAttempt.input),
    primary_keys db ->
    In p (puzzles db) ->
    SubmitPuzzleAttempt.puzzleId input = EmojiPuzzles.id p ->
    EmojiPuzzles.isActive p = true ->
    (fst (submitPuzzleAttempt env (signed_in u) input db) = Thrown FORBIDDEN <->
     exists owner, EmojiPuzzles.userId p = Some owner
                   /\ owner <> [] /\ owner <> user_id u)
    /\ (fst (submitPuzzleAttempt env (signed_in u) input db) = Thrown FORBIDDEN ->
        snd (submitPuzzleAttempt env (signed_in u) input db) = db)
    /\ (EmojiPuzzles.userId p = None \/ EmojiPuzzles.userId p = Some (user_id u) ->
        fst (submitPuzzleAttempt env (signed_in u) input db) <> Thrown FORBIDDEN).
Proof.
  intros U env u db p input Hpk Hp Hid Hact.
  pose proof (select_by_id EmojiPuzzles.id (puzzles db) p (pk_puzzles Hpk) Hp) as Hsel.
  rewrite <- Hid in Hsel.
  rewrite (submitPuzzleAttempt_resolved env u input db Hsel), Hact. cbn [negb].
  assert (Hnot : owned_by_other p u = false ->
                 fst (match resolve_session u (SubmitPuzzleAttempt.sessionId input) db with
                      | (Returned sessionId, db1) =>
                          let attempt :=
                            {| EmojiPuzzleAttempts.id := randomUUID env;
                               EmojiPuzzleAttempts.sessionId := sessionId;
                               EmojiPuzzleAttempts.puzzleId := EmojiPuzzles.id p;
                               EmojiPuzzleAttempts.userId := Some (user_id u);
                               EmojiPuzzleAttempts.guessText :=
                                 Some (SubmitPuzzleAttempt.guessText input);
                               EmojiPuzzleAttempts.isCorrect :=
                                 text_eqb (normalizeAnswer (SubmitPuzzleAttempt.guessText input))
                                          (normalizeAnswer (EmojiPuzzles.answer p));
                               EmojiPuzzleAttempts.createdAt := now env |} in
                          match insert_attempt attempt db1 with
                          | (Returned _, db2) => (Returned attempt, db2)
                          | (Thrown code, db2) => (Thrown code, db2)
                          end
                      | (Thrown code, db1) => (Thrown code, db1)
                      end) <> Thrown FORBIDDEN).
  { intros _.
    destruct (resolve_session_outcome u (SubmitPuzzleAttempt.sessionId input) db)
      as [(sid & Hres) | Hres]; rewrite Hres; [|discriminate].
    cbv zeta. unfold insert_attempt.
    destruct (existsb _ (attempts db)); discriminate. }
  destruct (owned_by_other p u) eqn:Eo.
  - apply owned_by_other_iff in Eo. split; [|split].
    + split; [intros _; exact Eo | reflexivity].
    + reflexivity.
    + intros [Hnone | Hself]; destruct Eo as (o & Ho & _ & Hne); exfalso.
      * congruence.
      * apply Hne. congruence.
  - specialize (Hnot eq_refl). split; [|split].
    + split; [intros H; contradiction|].
      intros Hex. apply owned_by_other_iff in Hex. congruence.
    + intros H. contradiction.
    + intros _. exact Hnot.
Qed.

Lemma submitPuzzleAttempt_forbidden_iff_witness :
  fst (@submitPuzzleAttempt LatinDeseret (env_at 500 "a1") (signed_in bob)
         (submit_input "p1" "fast and furious") sample_db) = Thrown FORBIDDEN
  /\ fst (@submitPuzzleAttempt LatinDeseret (env_at 500 "a1") (signed_in bob)
            (submit_input "p3" "fast and furious") sample_db) <> Thrown FORBIDDEN.
Proof.
  split.
  - apply (proj1 (@submitPuzzleAttempt_forbidden_iff LatinDeseret (env_at 500 "a1") bob
                    sample_db (sample_puzzle "p1" (Some (js "alice")) true)
                    (submit_input "p1" "fast and furious")
                    sample_db_primary_keys (or_introl eq_refl) eq_refl eq_refl)).
    exists (js "alice"). split; [reflexivity|]. split; discriminate.
  - apply (proj2 (proj2 (@submitPuzzleAttempt_forbidden_iff LatinDeseret
                           (env_at 500 "a1") bob sample_db
                           (sample_puzzle "p3" None true)
                           (submit_input "p3" "fast and furious")
                           sample_db_primary_keys
                           (or_intror (or_intror (or_introl eq_refl)))
                           eq_refl eq_refl))).
    left. reflexivity.
Defined.

(* ================================================================== *)
(** ** The invariants of a session *)
(* ================================================================== *)

(** C1 at the failing input: a session is started with five questions and
    then ended with six correct answers and no total. The guard of
    [endPuzzleSession] compares the counts of the request only, so the call
    succeeds and the stored row has six correct answers out of five. *)
Theorem endPuzzleSession_correct_only_breaks_counts :
  forallb counts_consistent (sessions started_db) = true
  /\ fst (endPuzzleSession (env_at 2000 "x") (signed_in alice)
            end_with_correct_only started_db) = Returned (js "s1")
  /\ map (fun s => (EmojiPuzzleSessions.totalQuestions s,
                    EmojiPuzzleSessions.correctAnswers s))
         (sessions (snd (endPuzzleSession (env_at 2000 "x") (signed_in alice)
                           end_with_correct_only started_db)))
     = [(Some 5, Some 6)]
  /\ forallb counts_consistent
       (sessions (snd (endPuzzleSession (env_at 2000 "x") (signed_in alice)
                         end_with_correct_only started_db))) = false.
Proof. repeat split; vm_compute; reflexivity. Qed.

(** When both counts are in the request the guard does its work: a
    successful call stores counts that are consistent. *)
Lemma endPuzzleSession_both_counts_consistent (env : Env) (context : ActionAPIContext)
    (input : EndPuzzleSession.input) (db db' : Db) (sid : jsstring) (t c : Z) :
  EndPuzzleSession.totalQuestions input = Some t ->
  EndPuzzleSession.correctAnswers input = Some c ->
  endPuzzleSession env context input db = (Returned sid, db') ->
  c <= t
  /\ forall s, In s (sessions db') -> EmojiPuzzleSessions.id s = sid ->
       counts_consistent s = true.
Proof.
  intros Ht Hc. unfold endPuzzleSession, bind, requireUser, select_sessions.
  destruct (locals context) as [l|]; [|discriminate].
  destruct (user l) as [u|]; [|discriminate].
  cbn [ret throw]. destruct (filter _ (sessions db)) as [|session rest]; [discriminate|].
  rewrite Ht, Hc. cbn [exceeds nullish].
  destruct (t <? c) eqn:E; [discriminate|]. apply Z.ltb_ge in E.
  unfold update_sessions. intros H. inversion H; subst; clear H.
  split; [exact E|]. cbn [sessions]. intros s Hs Hid.
  apply in_map_iff in Hs. destruct Hs as (r & Hr & _).
  destruct (text_eqb (EmojiPuzzleSessions.id r) (EmojiPuzzleSessions.id session)) eqn:Er.
  - subst s. unfold counts_consistent. cbn. apply Z.leb_le. exact E.
  - subst s. apply text_eqb_neq in Er. contradiction.
Qed.

Lemma createPuzzle_sessions (env : Env) (context : ActionAPIContext)
    (input : CreatePuzzle.input) (db : Db) :
  sessions (snd (createPuzzle env context input db)) = sessions db.
Proof. unfold createPuzzle. run_handler; reflexivity. Qed.

Lemma updatePuzzle_sessions (env : Env) (context : ActionAPIContext)
    (input : UpdatePuzzle.input) (db : Db) :
  sessions (snd (updatePuzzle env context input db)) = sessions db.
Proof. unfold updatePuzzle. run_handler; reflexivity. Qed.

Lemma archivePuzzle_sessions (env : Env) (context : ActionAPIContext)
    (input : ArchivePuzzle.input) (db : Db) :
  sessions (snd (archivePuzzle env context input db)) = sessions db.
Proof. unfold archivePuzzle. run_handler; reflexivity. Qed.

Lemma listMyPuzzles_sessions (env : Env) (context : ActionAPIContext)
    (input : ListMyPuzzles.input) (db : Db) :
  sessions (snd (listMyPuzzles env context input db)) = sessions db.
Proof. unfold listMyPuzzles. run_handler; reflexivity. Qed.

Lemma submitPuzzleAttempt_sessions (U : UnicodeData) (env : Env)
    (context : ActionAPIContext) (input : SubmitPuzzleAttempt.input) (db : Db) :
  sessions (snd (submitPuzzleAttempt env context input db)) = sessions db.
Proof. unfold submitPuzzleAttempt, resolve_session. run_handler; reflexivity. Qed.

Lemma startPuzzleSession_sessions (env : Env) (context : ActionAPIContext)
    (input : StartPuzzleSession.input) (db : Db) :
  sessions (snd (startPuzzleSession env context input db)) = sessions db
  \/ exists s, sessions (snd (startPuzzleSession env context input db))
               = sessions db ++ [s].
Proof.
  unfold startPuzzleSession. run_handler;
    try (left; reflexivity); right; eexists; reflexivity.
Qed.

(** [endPuzzleSession] either throws and leaves the database as it was,
    or returns the id of the session it found and stamps the rows of that
    id with the time of the call. *)
Lemma endPuzzleSession_effect (env : Env) (context : ActionAPIContext)
    (input : EndPuzzleSession.input) (db : Db) :
  (exists code, endPuzzleSession env context input db = (Thrown code, db))
  \/ (exists session total correct,
        In session (sessions db)
        /\ EmojiPuzzleSessions.id session = EndPuzzleSession.sessionId input
        /\ fst (endPuzzleSession env context input db)
           = Returned (EmojiPuzzleSessions.id session)
        /\ sessions (snd (endPuzzleSession env context input db))
           = map (fun r =>
                    if text_eqb (EmojiPuzzleSessions.id r) (EmojiPuzzleSessions.id session)
                    then ended (now env) total correct r else r) (sessions db)).
Proof.
  unfold endPuzzleSession, bind, requireUser, select_sessions.
  destruct (locals context) as [l|]; [|left; eexists; reflexivity].
  destruct (user l) as [u|]; [|left; eexists; reflexivity].
  cbn [ret throw].
  destruct (filter _ (sessions db)) as [|session rest] eqn:E;
    [left; eexists; reflexivity|].
  destruct (exceeds _ _); [left; eexists; reflexivity|].
  assert (Hs : In session (filter
                 (fun r => text_eqb (EmojiPuzzleSessions.id r) (EndPuzzleSession.sessionId input)
                           && text_eqb (EmojiPuzzleSessions.userId r) (user_id u))
                 (sessions db))) by (rewrite E; left; reflexivity).
  apply filter_In in Hs. destruct Hs as [Hin Hf].
  apply andb_true_iff in Hf. destruct Hf as [Hk _]. apply text_eqb_eq in Hk.
  right. exists session. eexists _, _.
  split; [exact Hin|]. split; [exact Hk|]. split; reflexivity.
Qed.

Section ServerFacts.
Context {U : UnicodeData}.

(** The three things a request can do to the table of sessions: nothing,
    add a row at the end, or, for a successful [endPuzzleSession], stamp
    the rows of the session it names. *)
Lemma server_sessions (env : Env) (context : ActionAPIContext) (req : Request)
    (db : Db) :
  sessions (snd (server env context req db)) = sessions db
  \/ (exists s, sessions (snd (server env context req db)) = sessions db ++ [s])
  \/ (exists i sid total correct,
        req = EndPuzzleSessionReq i
        /\ sid = EndPuzzleSession.sessionId i
        /\ fst (server env context req db) = Returned (IdData sid)
        /\ sessions (snd (server env context req db))
           = map (fun r => if text_eqb (EmojiPuzzleSessions.id r) sid
                           then ended (now env) total correct r else r)
                 (sessions db)).
Proof.
  destruct req as [i|i|i|i|i|i|i]; unfold server, defineAction, bind, ret, throw.
  - destruct (CreatePuzzle.schema i); [|left; reflexivity].
    pose proof (createPuzzle_sessions env context i db) as H.
    destruct (createPuzzle env context i db) as [[a|c] db']; left; exact H.
  - destruct (UpdatePuzzle.schema i); [|left; reflexivity].
    pose proof (updatePuzzle_sessions env context i db) as H.
    destruct (updatePuzzle env context i db) as [[a|c] db']; left; exact H.
  - destruct (ArchivePuzzle.schema i); [|left; reflexivity].
    pose proof (archivePuzzle_sessions env context i db) as H.
    destruct (archivePuzzle env context i db) as [[a|c] db']; left; exact H.
  - destruct (ListMyPuzzles.schema i); [|left; reflexivity].
    pose proof (listMyPuzzles_sessions env context i db) as H.
    destruct (listMyPuzzles env context i db) as [[a|c] db']; left; exact H.
  - destruct (StartPuzzleSession.schema i); [|left; reflexivity].
    pose proof (startPuzzleSession_sessions env context i db) as H.
    destruct (startPuzzleSession env context i db) as [[a|c] db'];
      destruct H as [H|H]; [left | right; left | left | right; left]; exact H.
  - destruct (EndPuzzleSession.schema i); [|left; reflexivity].
    destruct (endPuzzleSession_effect env context i db)
      as [(code & H) | (session & total & correct & Hin & Hid & Hfst & Hsnd)].
    + rewrite H. left. reflexivity.
    + right. right. exists i, (EmojiPuzzleSessions.id session), total, correct.
      split; [reflexivity|]. split; [exact Hid|].
      destruct (endPuzzleSession env context i db) as [[a|c] db'];
        cbn [fst snd] in *; [|discriminate Hfst].
      inversion Hfst; subst a. split; [reflexivity | exact Hsnd].
  - destruct (SubmitPuzzleAttempt.schema i); [|left; reflexivity].
    pose proof (submitPuzzleAttempt_sessions U env context i db) as H.
    destruct (submitPuzzleAttempt env context i db) as [[a|c] db']; left; exact H.
Qed.

(** A successful [endPuzzleSession] request stamps the session it names. *)
Lemma server_end_stamps (env : Env) (context : ActionAPIContext)
    (i : EndPuzzleSession.input) (db : Db) (sid : jsstring) :
  fst (server env context (EndPuzzleSessionReq i) db) = Returned (IdData sid) ->
  exists total correct,
    sessions (snd (server env context (EndPuzzleSessionReq i) db))
    = map (fun r => if text_eqb (EmojiPuzzleSessions.id r) sid
                    then ended (now env) total correct r else r)
          (sessions db).
Proof.
  unfold server, defineAction, bind, ret, throw.
  destruct (EndPuzzleSession.schema i); [|discriminate].
  destruct (endPuzzleSession_effect env context i db)
    as [(code & H) | (session & total & correct & Hin & Hid & Hfst & Hsnd)].
  - rewrite H. discriminate.
  - destruct (endPuzzleSession env context i db) as [[a|c] db'];
      cbn [fst snd] in *; [|discriminate].
    intros H.
    assert (Ha : sid = EmojiPuzzleSessions.id session) by congruence.
    rewrite Ha. exists total, correct. exact Hsnd.
Qed.
End ServerFacts.

(** C2, as stated, fails: a session ended at time 2000 and ended again at
    time 3000 has its [endedAt] set twice, to 2000 and then to 3000. *)
Lemma endPuzzleSession_restamps_endedAt :
  map EmojiPuzzleSessions.endedAt (sessions started_db) = [None]
  /\ map EmojiPuzzleSessions.endedAt
       (sessions (snd (endPuzzleSession (env_at 2000 "x") (signed_in alice)
                         end_plain started_db))) = [Some 2000]
  /\ fst (endPuzzleSession (env_at 3000 "y") (signed_in alice) end_plain
            (snd (endPuzzleSession (env_at 2000 "x") (signed_in alice)
                    end_plain started_db))) = Returned (js "s1")
  /\ map EmojiPuzzleSessions.endedAt
       (sessions (snd (endPuzzleSession (env_at 3000 "y") (signed_in alice) end_plain
                         (snd (endPuzzleSession (env_at 2000 "x") (signed_in alice)
                                 end_plain started_db))))) = [Some 3000].
Proof. repeat split; vm_compute; reflexivity. Qed.

(** C2, amended: a request never clears the [endedAt] of a session and
    never moves the session in its table; it changes a set [endedAt] only
    when it is an [endPuzzleSession] on that session that succeeds, and then
    to the time of that call, so [endedAt] does not move backward as long
    as the clock does not; and every [endPuzzleSession] on the session that
    succeeds does stamp it again with the time of the call. *)
Theorem endedAt_kept_or_restamped :
  forall (U : UnicodeData) (env : Env) (context : ActionAPIContext) (req : Request)
         (db : Db) (n : nat) (s : EmojiPuzzleSessions.row) (t : Z),
    nth_error (sessions db) n = Some s ->
    EmojiPuzzleSessions.endedAt s = Some t ->
    exists s',
      nth_error (sessions (snd (server env context req db))) n = Some s'
      /\ EmojiPuzzleSessions.id s' = EmojiPuzzleSessions.id s
      /\ (EmojiPuzzleSessions.endedAt s' = Some t
          \/ (EmojiPuzzleSessions.endedAt s' = Some (now env)
              /\ exists i, req = EndPuzzleSessionReq i
                           /\ EndPuzzleSession.sessionId i = EmojiPuzzleSessions.id s
                           /\ fst (server env context req db)
                              = Returned (IdData (EmojiPuzzleSessions.id s))))
      /\ (t <= now env ->
          exists t', EmojiPuzzleSessions.endedAt s' = Some t' /\ t <= t')
      /\ (forall i, req = EndPuzzleSessionReq i ->
            fst (server env context req db)
            = Returned (IdData (EmojiPuzzleSessions.id s)) ->
            EmojiPuzzleSessions.endedAt s' = Some (now env)).
Proof.
  intros U env context req db n s t Hn Ht.
  assert (Hstamp : forall i, req = EndPuzzleSessionReq i ->
            fst (server env context req db)
            = Returned (IdData (EmojiPuzzleSessions.id s)) ->
            exists total correct,
              nth_error (sessions (snd (server env context req db))) n
              = Some (ended (now env) total correct s)).
  { intros i -> Hfst.
    destruct (server_end_stamps env context i db Hfst) as (total & correct & Hsnd).
    exists total, correct.
    rewrite Hsnd, (nth_error_map_if _ _ _ _ Hn), text_eqb_refl. reflexivity. }
  destruct (server_sessions env context req db)
    as [Hkept | [(s0 & Hadd) | (i & sid & total & correct & Hreq & Hsid & Hfst & Hsnd)]].
  - exists s. rewrite Hkept. split; [exact Hn|]. split; [reflexivity|].
    split; [left; exact Ht|]. split.
    + intros _. exists t. split; [exact Ht | lia].
    + intros i Hreq Hfst. destruct (Hstamp i Hreq Hfst) as (total & correct & H).
      rewrite Hkept, Hn in H. inversion H as [Hs]. rewrite Hs at 1. reflexivity.
  - exists s. rewrite Hadd.
    assert (Hn' : nth_error (sessions db ++ [s0]) n = Some s).
    { rewrite nth_error_app1; [exact Hn|]. apply nth_error_Some. congruence. }
    split; [exact Hn'|]. split; [reflexivity|].
    split; [left; exact Ht|]. split.
    + intros _. exists t. split; [exact Ht | lia].
    + intros i Hreq Hfst. destruct (Hstamp i Hreq Hfst) as (total & correct & H).
      rewrite Hadd, Hn' in H. inversion H as [Hs]. rewrite Hs at 1. reflexivity.
  - rewrite Hsnd, (nth_error_map_if _ _ _ _ Hn).
    destruct (text_eqb (EmojiPuzzleSessions.id s) sid) eqn:Ek.
    + apply text_eqb_eq in Ek. eexists. split; [reflexivity|].
      split; [reflexivity|]. split; [|split].
      * right. split; [reflexivity|]. exists i.
        split; [exact Hreq|]. split; [congruence|]. rewrite Ek. exact Hfst.
      * intros Hle. exists (now env). split; [reflexivity | exact Hle].
      * intros _ _ _. reflexivity.
    + exists s. split; [reflexivity|]. split; [reflexivity|].
      split; [left; exact Ht|]. split.
      * intros _. exists t. split; [exact Ht | lia].
      * intros i' _ Hfst'. rewrite Hfst in Hfst'. inversion Hfst' as [He].
        apply text_eqb_neq in Ek. symmetry in He. contradiction.
Qed.

Lemma endedAt_kept_or_restamped_witness :
  exists s',
    nth_error (sessions (snd (@server LatinDeseret (env_at 2000 "x") (signed_in alice)
                                (EndPuzzleSessionReq end_plain) sample_db))) 0
    = Some s'
    /\ EmojiPuzzleSessions.endedAt s' = Some 2000.
Proof.
  destruct (@endedAt_kept_or_restamped LatinDeseret (env_at 2000 "x") (signed_in alice)
              (EndPuzzleSessionReq end_plain) sample_db 0%nat
              {| EmojiPuzzleSessions.id := js "s1";
                 EmojiPuzzleSessions.userId := js "alice";
                 EmojiPuzzleSessions.mode := Some (js "practice");
                 EmojiPuzzleSessions.createdAt := 200;
                 EmojiPuzzleSessions.endedAt := Some 300;
                 EmojiPuzzleSessions.totalQuestions := Some 5;
                 EmojiPuzzleSessions.correctAnswers := None |} 300
              eq_refl eq_refl) as (s' & Hn & _ & _ & _ & Hstamp).
  exists s'. split; [exact Hn|].
  apply (Hstamp end_plain eq_refl). vm_compute. reflexivity.
Defined.

(* ================================================================== *)
(** ** The primary keys are kept *)
(* ================================================================== *)

Lemma insert_keeps_key (A : Type) (key_of : A -> jsstring) (l : list A) (r : A) :
  NoDup (map key_of l) ->
  existsb (fun x => text_eqb (key_of x) (key_of r)) l = false ->
  NoDup (map key_of (l ++ [r])).
Proof.
  intros Hnd Hfresh. rewrite map_app. apply NoDup_app; [exact Hnd | |].
  - constructor; [intros [] | constructor].
  - intros k Hk [Hr | []]. subst k.
    apply in_map_iff in Hk. destruct Hk as (x & Hx & Hin).
    assert (Hex : existsb (fun x => text_eqb (key_of x) (key_of r)) l = true).
    { apply existsb_exists. exists x. split; [exact Hin|].
      apply text_eqb_eq. exact Hx. }
    congruence.
Qed.

Lemma update_keeps_key (A : Type) (key_of : A -> jsstring) (w : A -> bool)
    (f : A -> A) (l : list A) :
  (forall r, key_of (f r) = key_of r) ->
  map key_of (map (fun r => if w r then f r else r) l) = map key_of l.
Proof.
  intros Hf. rewrite map_map. apply map_ext. intros r.
  destruct (w r); [apply Hf | reflexivity].
Qed.

(** No request breaks the primary keys of the tables. *)
Lemma server_primary_keys (U : UnicodeData) (env : Env) (context : ActionAPIContext)
    (req : Request) (db : Db) :
  primary_keys db -> primary_keys (snd (server env context req db)).
Proof.
  intros [Hp Hs Ha].
  destruct req as [i|i|i|i|i|i|i];
    unfold server, defineAction, createPuzzle, updatePuzzle, archivePuzzle,
      listMyPuzzles, startPuzzleSession, endPuzzleSession, submitPuzzleAttempt,
      resolve_session;
    run_handler; constructor; cbn [puzzles sessions attempts];
    try assumption;
    try (apply insert_keeps_key; assumption);
    rewrite update_keeps_key; try assumption; intros; reflexivity.
Qed.

(* ================================================================== *)
(** ** Further properties: authentication *)
(* ================================================================== *)

(** X1. Without a user in the context (no [locals], or [locals] without
    [user]) each of the seven handlers throws [UNAUTHORIZED], whatever its
    input, and leaves the database as it was. *)
Theorem handlers_require_user :
  forall (U : UnicodeData) (env : Env) (context : ActionAPIContext) (db : Db),
    caller context = None ->
    (forall i, createPuzzle env context i db = (Thrown UNAUTHORIZED, db))
    /\ (forall i, updatePuzzle env context i db = (Thrown UNAUTHORIZED, db))
    /\ (forall i, archivePuzzle env context i db = (Thrown UNAUTHORIZED, db))
    /\ (forall i, listMyPuzzles env context i db = (Thrown UNAUTHORIZED, db))
    /\ (forall i, startPuzzleSession env context i db = (Thrown UNAUTHORIZED, db))
    /\ (forall i, endPuzzleSession env context i db = (Thrown UNAUTHORIZED, db))
    /\ (forall i, submitPuzzleAttempt env context i db = (Thrown UNAUTHORIZED, db)).
Proof.
  intros U env context db H. unfold caller in H.
  unfold createPuzzle, updatePuzzle, archivePuzzle, listMyPuzzles,
    startPuzzleSession, endPuzzleSession, submitPuzzleAttempt, bind, requireUser.
  destruct (locals context) as [l|].
  - rewrite H. repeat split; reflexivity.
  - repeat split; reflexivity.
Qed.

Lemma handlers_require_user_witness :
  updatePuzzle (env_at 500 "x") {| locals := Some {| user := None |} |}
    (update_input "p1" (Some false) None) sample_db
  = (Thrown UNAUTHORIZED, sample_db)
  /\ @submitPuzzleAttempt LatinDeseret (env_at 500 "x") {| locals := None |}
       (submit_input "p3" "fast and furious") sample_db
     = (Thrown UNAUTHORIZED, sample_db).
Proof.
  split.
  - apply (@handlers_require_user LatinDeseret (env_at 500 "x")
             {| locals := Some {| user := None |} |} sample_db eq_refl).
  - apply (@handlers_require_user LatinDeseret (env_at 500 "x")
             {| locals := None |} sample_db eq_refl).
Defined.

(* ================================================================== *)
(** ** Further properties: the normalizer *)
(* ================================================================== *)

Local Open Scope N_scope.

Lemma trimStart_padding (pad s : jsstring) :
  forallb is_white_space pad = true -> trimStart (pad ++ s) = trimStart s.
Proof.
  induction pad as [|u pad IH]; intros H; [reflexivity|].
  cbn [forallb] in H. apply andb_true_iff in H. destruct H as [Hu Hp].
  cbn [app trimStart]. rewrite Hu. apply IH, Hp.
Qed.

Lemma trimEnd_padding (s pad : jsstring) :
  forallb is_white_space pad = true -> trimEnd (s ++ pad) = trimEnd s.
Proof.
  intros H. unfold trimEnd. rewrite rev_app_distr.
  rewrite trimStart_padding; [reflexivity|].
  apply forallb_forall. intros x Hx. apply in_rev in Hx.
  rewrite forallb_forall in H. apply H, Hx.
Qed.

(** X2. White space around a text does not count: for any strings of
    white space [before] and [after], normalizing [before ++ s ++ after]
    is normalizing [s], whatever the Unicode data. *)
Theorem normalizeAnswer_ignores_padding :
  forall (U : UnicodeData) (before s after : jsstring),
    forallb is_white_space before = true ->
    forallb is_white_space after = true ->
    normalizeAnswer (before ++ s ++ after) = normalizeAnswer s.
Proof.
  intros U before s after Hb Ha.
  unfold normalizeAnswer. f_equal. f_equal. f_equal.
  unfold trim. rewrite (trimStart_padding before (s ++ after) Hb).
  destruct (trimStart s) as [|u t] eqn:E.
  - assert (Hs : forallb is_white_space s = true).
    { clear - E. induction s as [|x s IH]; [reflexivity|].
      cbn [trimStart] in E. destruct (is_white_space x) eqn:Ex; [|discriminate E].
      cbn [forallb]. rewrite Ex. apply IH, E. }
    rewrite <- (app_nil_r (s ++ after)).
    rewrite trimStart_padding; [reflexivity|].
    rewrite forallb_app, Hs, Ha. reflexivity.
  - assert (Hsplit : exists pad, forallb is_white_space pad = true /\ s = pad ++ u :: t
                                 /\ is_white_space u = false).
    { clear - E. induction s as [|x s IH]; [discriminate E|].
      cbn [trimStart] in E. destruct (is_white_space x) eqn:Ex.
      - destruct (IH E) as (pad & Hp & -> & Hu).
        exists (x :: pad). cbn [forallb]. rewrite Ex, Hp. auto.
      - inversion E; subst. exists []. auto. }
    destruct Hsplit as (pad & Hp & -> & Hu).
    rewrite <- app_assoc, (trimStart_padding pad _ Hp).
    cbn [app trimStart]. rewrite Hu.
    change (u :: t ++ after) with ((u :: t) ++ after).
    apply trimEnd_padding, Ha.
Qed.

Lemma normalizeAnswer_ignores_padding_witness :
  @normalizeAnswer LatinDeseret (js "  " ++ js "Run, Fast!" ++ [0xA; 0x3000])
  = @normalizeAnswer LatinDeseret (js "Run, Fast!").
Proof.
  apply (@normalizeAnswer_ignores_padding LatinDeseret (js "  ") (js "Run, Fast!")
           [0xA; 0x3000]); reflexivity.
Defined.

(** X3. A text of white space only has the empty string as its normal
    form, as soon as lower-casing leaves the empty sequence empty. *)
Theorem normalizeAnswer_white_space_only :
  forall (U : UnicodeData) (s : jsstring),
    toLowercase [] = [] ->
    forallb is_white_space s = true ->
    normalizeAnswer s = [].
Proof.
  intros U s Hlow Hs.
  unfold normalizeAnswer, replace_non_alnum, replace_white_space, toLocaleLowerCase,
    trim.
  rewrite <- (app_nil_r s), (trimStart_padding s [] Hs).
  cbn. rewrite Hlow. reflexivity.
Qed.

Lemma normalizeAnswer_white_space_only_witness :
  @normalizeAnswer LatinDeseret [0x20; 0x9; 0xA0; 0xFEFF] = [].
Proof.
  apply (@normalizeAnswer_white_space_only LatinDeseret [0x20; 0x9; 0xA0; 0xFEFF]);
    reflexivity.
Defined.

Lemma encode_units (w : list code_point) :
  Forall (fun c => is_scalar c = true) w ->
  forallb (fun u => u <=? 0xFFFF) (CodePointsToString w) = true.
Proof.
  induction 1 as [|c w Hc Hw IH]; [reflexivity|].
  rewrite encode_cons, forallb_app, IH, andb_true_r.
  destruct (encode_scalar c Hc) as [(Hle & _ & Henc) | (_ & h & l & Henc & Hh & Hl & _)];
    rewrite Henc; cbn [forallb].
  - apply N.leb_le in Hle. rewrite Hle. reflexivity.
  - unfold is_leading_surrogate in Hh. unfold is_trailing_surrogate in Hl.
    bool_prop. lia.
Qed.

Lemma encode_well_formed (w : list code_point) :
  Forall (fun c => is_scalar c = true) w ->
  well_formed (CodePointsToString w) = true.
Proof.
  intros H. unfold well_formed. rewrite (encode_units H), (decode_encode H).
  apply forallb_forall. apply Forall_forall. exact H.
Qed.

(** X4. The normal form of a well-formed string is well-formed and is made
    of letters and numbers only: each of its code points is in the general
    category Letter or Number, and none is white space. *)
Theorem normalizeAnswer_letters_and_numbers :
  forall (U : UnicodeData), UnicodeFacts U ->
  forall s : jsstring,
    well_formed s = true ->
    well_formed (normalizeAnswer s) = true
    /\ forall c, In c (StringToCodePoints (normalizeAnswer s)) ->
         is_Letter c || is_Number c = true /\ is_white_space c = false.
Proof.
  intros U facts s Hs.
  destruct (well_formed_encoding s Hs) as [Hscalar Henc].
  rewrite <- Henc, (normalizeAnswer_encode facts Hscalar).
  pose proof (normal_code_points_scalar facts Hscalar) as Hn.
  split; [apply encode_well_formed, Hn|].
  rewrite (decode_encode Hn). intros c Hc.
  unfold normal_code_points in Hc.
  apply filter_In in Hc. destruct Hc as [Hc Hal].
  apply filter_In in Hc. destruct Hc as [_ Hws].
  split; [exact Hal|]. apply negb_true_iff. exact Hws.
Qed.

Lemma normalizeAnswer_letters_and_numbers_witness :
  well_formed (@normalizeAnswer LatinDeseret (js "Fast & Furious 7!")) = true
  /\ forall c, In c (StringToCodePoints (@normalizeAnswer LatinDeseret (js "Fast & Furious 7!"))) ->
       @is_Letter LatinDeseret c || @is_Number LatinDeseret c = true
       /\ is_white_space c = false.
Proof.
  apply (normalizeAnswer_letters_and_numbers LatinDeseret_facts (js "Fast & Furious 7!")).
  reflexivity.
Defined.

Local Close Scope N_scope.
Local Open Scope Z_scope.

(* ================================================================== *)
(** ** Further properties: creating a puzzle *)
(* ================================================================== *)

Lemma createPuzzle_signed_in (env : Env) (u : User) (input : CreatePuzzle.input) (db : Db) :
  createPuzzle env (signed_in u) input db =
  if existsb (fun x => text_eqb (EmojiPuzzles.id x) (randomUUID env)) (puzzles db)
  then (Thrown INTERNAL_SERVER_ERROR, db)
  else (Returned (new_puzzle env u input),
        {| puzzles := puzzles db ++ [new_puzzle env u input];
           sessions := sessions db;
           attempts := attempts db |}).
Proof.
  unfold createPuzzle, bind, requireUser, insert_puzzle, signed_in, new_puzzle.
  cbn [locals user ret EmojiPuzzles.id].
  destruct (existsb _ (puzzles db)); reflexivity.
Qed.

Lemma owner_not_other (p : EmojiPuzzles.row) (u : User) :
  EmojiPuzzles.userId p = Some (user_id u) -> @owned_by_other p u = false.
Proof.
  intros H. unfold owned_by_other. rewrite H, text_eqb_refl.
  apply andb_false_r.
Qed.

(** [submitPuzzleAttempt] without session, once the puzzle is found, is
    active and may be attempted, and the new identifier is free. *)
Lemma submit_without_session (U : UnicodeData) (env : Env) (u : User) (db : Db)
    (p : EmojiPuzzles.row) (guess : jsstring) (sid : option jsstring) :
  primary_keys db -> In p (puzzles db) ->
  EmojiPuzzles.isActive p = true ->
  owned_by_other p u = false ->
  (sid = None \/ sid = Some []) ->
  ~ In (randomUUID env) (map EmojiPuzzleAttempts.id (attempts db)) ->
  let attempt :=
    {| EmojiPuzzleAttempts.id := randomUUID env;
       EmojiPuzzleAttempts.sessionId := None;
       EmojiPuzzleAttempts.puzzleId := EmojiPuzzles.id p;
       EmojiPuzzleAttempts.userId := Some (user_id u);
       EmojiPuzzleAttempts.guessText := Some guess;
       EmojiPuzzleAttempts.isCorrect :=
         text_eqb (normalizeAnswer guess) (normalizeAnswer (EmojiPuzzles.answer p));
       EmojiPuzzleAttempts.createdAt := now env |} in
  submitPuzzleAttempt env (signed_in u)
    {| SubmitPuzzleAttempt.puzzleId := EmojiPuzzles.id p;
       SubmitPuzzleAttempt.sessionId := sid;
       SubmitPuzzleAttempt.guessText := guess |} db
  = (Returned attempt,
     {| puzzles := puzzles db; sessions := sessions db;
        attempts := attempts db ++ [attempt] |}).
Proof.
  intros Hpk Hp Hact Hmay Hsid Hfresh attempt.
  pose proof (select_by_id EmojiPuzzles.id (puzzles db) p (pk_puzzles Hpk) Hp) as Hsel.
  rewrite (@submitPuzzleAttempt_resolved U env u
             {| SubmitPuzzleAttempt.puzzleId := EmojiPuzzles.id p;
                SubmitPuzzleAttempt.sessionId := sid;
                SubmitPuzzleAttempt.guessText := guess |} db p [] Hsel), Hact, Hmay.
  cbn [negb SubmitPuzzleAttempt.sessionId SubmitPuzzleAttempt.guessText].
  assert (Hres : resolve_session u sid db = (Returned None, db))
    by (destruct Hsid as [-> | ->]; reflexivity).
  rewrite Hres. cbv zeta. unfold insert_attempt. cbn [EmojiPuzzleAttempts.id].
  rewrite (fresh_key EmojiPuzzleAttempts.id (attempts db) (randomUUID env) Hfresh).
  reflexivity.
Qed.

(** X5. A user who creates a puzzle under a free identifier, with texts
    that the database stores as they are (well-formed, without U+0000),
    gets back a puzzle of their own, active, not a system puzzle, created
    and updated at the time of the call, which is the one row added to the
    puzzles; and a later guess by that user whose normal form is the normal
    form of the answer given at creation is judged correct. *)
Theorem createPuzzle_then_submit_answer :
  forall (U : UnicodeData) (env env' : Env) (u : User)
         (input : CreatePuzzle.input) (db : Db) (guess : jsstring),
    primary_keys db ->
    ~ In (randomUUID env) (map EmojiPuzzles.id (puzzles db)) ->
    ~ In (randomUUID env') (map EmojiPuzzleAttempts.id (attempts db)) ->
    storable_puzzle input = true ->
    normalizeAnswer guess = normalizeAnswer (CreatePuzzle.answer input) ->
    exists p db1 a db2,
      createPuzzle env (signed_in u) input db = (Returned p, db1)
      /\ puzzles db1 = puzzles db ++ [p]
      /\ sessions db1 = sessions db /\ attempts db1 = attempts db
      /\ EmojiPuzzles.id p = randomUUID env
      /\ EmojiPuzzles.userId p = Some (user_id u)
      /\ EmojiPuzzles.answer p = CreatePuzzle.answer input
      /\ EmojiPuzzles.emojiSequence p = CreatePuzzle.emojiSequence input
      /\ EmojiPuzzles.isSystem p = false
      /\ EmojiPuzzles.isActive p = true
      /\ EmojiPuzzles.createdAt p = now env
      /\ EmojiPuzzles.updatedAt p = now env
      /\ submitPuzzleAttempt env' (signed_in u)
           {| SubmitPuzzleAttempt.puzzleId := EmojiPuzzles.id p;
              SubmitPuzzleAttempt.sessionId := None;
              SubmitPuzzleAttempt.guessText := guess |} db1 = (Returned a, db2)
      /\ EmojiPuzzleAttempts.isCorrect a = true
      /\ EmojiPuzzleAttempts.puzzleId a = EmojiPuzzles.id p.
Proof.
  intros U env env' u input db guess Hpk Hfresh Hfresh' _ Hnorm.
  pose proof (fresh_key EmojiPuzzles.id (puzzles db) (randomUUID env) Hfresh) as Hex.
  set (p := new_puzzle env u input).
  set (db1 := {| puzzles := puzzles db ++ [p]; sessions := sessions db;
                 attempts := attempts db |}).
  assert (Hpk1 : primary_keys db1).
  { destruct Hpk as [H1 H2 H3]. constructor; cbn [db1 puzzles sessions attempts]; auto.
    apply insert_keeps_key; assumption. }
  assert (Hin : In p (puzzles db1)) by (apply in_or_app; right; left; reflexivity).
  pose proof (@submit_without_session U env' u db1 p guess None Hpk1 Hin eq_refl
                (owner_not_other p u eq_refl) (or_introl eq_refl) Hfresh') as Hsub.
  cbv zeta in Hsub.
  eexists p, db1, _, _.
  split; [rewrite createPuzzle_signed_in, Hex; reflexivity|].
  repeat (split; [reflexivity|]).
  split; [exact Hsub|].
  split; [|reflexivity].
  cbn [EmojiPuzzleAttempts.isCorrect]. apply text_eqb_eq. exact Hnorm.
Qed.

Lemma createPuzzle_then_submit_answer_witness :
  exists p db1 a db2,
    createPuzzle (env_at 500 "p9") (signed_in bob)
      (create_input "cat" "Top Cat") sample_db = (Returned p, db1)
    /\ @submitPuzzleAttempt LatinDeseret (env_at 600 "a1") (signed_in bob)
         {| SubmitPuzzleAttempt.puzzleId := EmojiPuzzles.id p;
            SubmitPuzzleAttempt.sessionId := None;
            SubmitPuzzleAttempt.guessText := js " top-cat! " |} db1 = (Returned a, db2)
    /\ EmojiPuzzleAttempts.isCorrect a = true.
Proof.
  destruct (@createPuzzle_then_submit_answer LatinDeseret (env_at 500 "p9")
              (env_at 600 "a1") bob (create_input "cat" "Top Cat") sample_db
              (js " top-cat! ") sample_db_primary_keys)
    as (p & db1 & a & db2 & H1 & _ & _ & _ & _ & _ & _ & _ & _ & _ & _ & _ & H2 & H3 & _).
  - vm_compute. intuition discriminate.
  - simpl. tauto.
  - vm_compute. reflexivity.
  - vm_compute. reflexivity.
  - exists p, db1, a, db2. auto.
Defined.

(** X6. A puzzle created by a user with a non-empty id cannot be attempted
    by any other user: whatever the guess and the session named, the
    submission throws [FORBIDDEN] and nothing is stored. *)
Theorem createPuzzle_then_foreign_submit_forbidden :
  forall (U : UnicodeData) (env env' : Env) (u v : User)
         (input : CreatePuzzle.input) (db : Db)
         (guess : jsstring) (sid : option jsstring),
    primary_keys db ->
    ~ In (randomUUID env) (map EmojiPuzzles.id (puzzles db)) ->
    user_id u <> [] ->
    user_id v <> user_id u ->
    exists p db1,
      createPuzzle env (signed_in u) input db = (Returned p, db1)
      /\ submitPuzzleAttempt env' (signed_in v)
           {| SubmitPuzzleAttempt.puzzleId := EmojiPuzzles.id p;
              SubmitPuzzleAttempt.sessionId := sid;
              SubmitPuzzleAttempt.guessText := guess |} db1
         = (Thrown FORBIDDEN, db1).
Proof.
  intros U env env' u v input db guess sid Hpk Hfresh Hne Hother.
  pose proof (fresh_key EmojiPuzzles.id (puzzles db) (randomUUID env) Hfresh) as Hex.
  set (p := new_puzzle env u input).
  set (db1 := {| puzzles := puzzles db ++ [p]; sessions := sessions db;
                 attempts := attempts db |}).
  assert (Hpk1 : primary_keys db1).
  { destruct Hpk as [H1 H2 H3]. constructor; cbn [db1 puzzles sessions attempts]; auto.
    apply insert_keeps_key; assumption. }
  assert (Hin : In p (puzzles db1)) by (apply in_or_app; right; left; reflexivity).
  exists p, db1.
  split; [rewrite createPuzzle_signed_in, Hex; reflexivity|].
  pose proof (select_by_id EmojiPuzzles.id (puzzles db1) p (pk_puzzles Hpk1) Hin) as Hsel.
  rewrite (@submitPuzzleAttempt_resolved U env' v
             {| SubmitPuzzleAttempt.puzzleId := EmojiPuzzles.id p;
                SubmitPuzzleAttempt.sessionId := sid;
                SubmitPuzzleAttempt.guessText := guess |} db1 p [] Hsel).
  assert (Ho : owned_by_other p v = true).
  { apply owned_by_other_iff. exists (user_id u).
    split; [reflexivity|]. split; [exact Hne | congruence]. }
  rewrite Ho. reflexivity.
Qed.

Lemma createPuzzle_then_foreign_submit_forbidden_witness :
  exists p db1,
    createPuzzle (env_at 500 "p9") (signed_in alice)
      (create_input "cat" "Top Cat") sample_db = (Returned p, db1)
    /\ @submitPuzzleAttempt LatinDeseret (env_at 600 "a1") (signed_in bob)
         {| SubmitPuzzleAttempt.puzzleId := EmojiPuzzles.id p;
            SubmitPuzzleAttempt.sessionId := None;
            SubmitPuzzleAttempt.guessText := js "top cat" |} db1
       = (Thrown FORBIDDEN, db1).
Proof.
  apply (@createPuzzle_then_foreign_submit_forbidden LatinDeseret (env_at 500 "p9")
           (env_at 600 "a1") alice bob (create_input "cat" "Top Cat") sample_db
           (js "top cat") None sample_db_primary_keys).
  - vm_compute. intuition discriminate.
  - discriminate.
  - discriminate.
Defined.

(* ================================================================== *)
(** ** Further properties: archiving a puzzle *)
(* ================================================================== *)

Lemma archivePuzzle_own_active (env : Env) (u : User) (db : Db) (p : EmojiPuzzles.row) :
  primary_keys db -> In p (puzzles db) ->
  EmojiPuzzles.userId p = Some (user_id u) ->
  EmojiPuzzles.isActive p = true ->
  archivePuzzle env (signed_in u) {| ArchivePuzzle.id := EmojiPuzzles.id p |} db
  = (Returned (EmojiPuzzles.id p),
     {| puzzles :=
          map (fun r => if text_eqb (EmojiPuzzles.id r) (EmojiPuzzles.id p)
                        then spread r (archived (now env)) else r) (puzzles db);
        sessions := sessions db;
        attempts := attempts db |}).
Proof.
  intros Hpk Hp Hown Hact.
  rewrite archivePuzzle_signed_in. cbn [ArchivePuzzle.id].
  rewrite (select_by_key EmojiPuzzles.id
             (fun r => eq_nullable (EmojiPuzzles.userId r) (user_id u))
             (puzzles db) p (pk_puzzles Hpk) Hp).
  rewrite Hown. cbn [eq_nullable]. rewrite text_eqb_refl, Hact. reflexivity.
Qed.

Lemma archived_row_stored (env : Env) (db : Db) (p : EmojiPuzzles.row) :
  In p (puzzles db) ->
  In (spread p (archived (now env)))
     (map (fun r => if text_eqb (EmojiPuzzles.id r) (EmojiPuzzles.id p)
                    then spread r (archived (now env)) else r) (puzzles db)).
Proof.
  intros Hp. apply in_map_iff. exists p. rewrite text_eqb_refl. auto.
Qed.

Lemma archived_keys (env : Env) (db : Db) (p : EmojiPuzzles.row) :
  primary_keys db ->
  primary_keys
    {| puzzles :=
         map (fun r => if text_eqb (EmojiPuzzles.id r) (EmojiPuzzles.id p)
                       then spread r (archived (now env)) else r) (puzzles db);
       sessions := sessions db;
       attempts := attempts db |}.
Proof.
  intros [H1 H2 H3]. constructor; cbn [puzzles sessions attempts]; auto.
  rewrite update_keeps_key; [exact H1 | intros; reflexivity].
Qed.

(** X7. Archiving an active puzzle of the caller returns its id, sets
    [isActive] to false and [updatedAt] to the time of the call in the
    stored row and changes nothing else: the other columns of the row, the
    other puzzles, the sessions and the attempts are as before. *)
Theorem archivePuzzle_soft_deletes :
  forall (env : Env) (u : User) (db : Db) (p : EmojiPuzzles.row),
    primary_keys db ->
    In p (puzzles db) ->
    EmojiPuzzles.userId p = Some (user_id u) ->
    EmojiPuzzles.isActive p = true ->
    exists db',
      archivePuzzle env (signed_in u) {| ArchivePuzzle.id := EmojiPuzzles.id p |} db
      = (Returned (EmojiPuzzles.id p), db')
      /\ sessions db' = sessions db
      /\ attempts db' = attempts db
      /\ List.length (puzzles db') = List.length (puzzles db)
      /\ forall n q, nth_error (puzzles db) n = Some q ->
           (q <> p -> nth_error (puzzles db') n = Some q)
           /\ (q = p ->
               exists q',
                 nth_error (puzzles db') n = Some q'
                 /\ EmojiPuzzles.isActive q' = false
                 /\ EmojiPuzzles.updatedAt q' = now env
                 /\ EmojiPuzzles.id q' = EmojiPuzzles.id p
                 /\ EmojiPuzzles.userId q' = EmojiPuzzles.userId p
                 /\ EmojiPuzzles.emojiSequence q' = EmojiPuzzles.emojiSequence p
                 /\ EmojiPuzzles.answer q' = EmojiPuzzles.answer p
                 /\ EmojiPuzzles.hint q' = EmojiPuzzles.hint p
                 /\ EmojiPuzzles.category q' = EmojiPuzzles.category p
                 /\ EmojiPuzzles.difficulty q' = EmojiPuzzles.difficulty p
                 /\ EmojiPuzzles.language q' = EmojiPuzzles.language p
                 /\ EmojiPuzzles.isSystem q' = EmojiPuzzles.isSystem p
                 /\ EmojiPuzzles.createdAt q' = EmojiPuzzles.createdAt p).
Proof.
  intros env u db p Hpk Hp Hown Hact.
  eexists. split; [apply (@archivePuzzle_own_active env u db p Hpk Hp Hown Hact)|].
  split; [reflexivity|]. split; [reflexivity|].
  cbn [puzzles]. split; [apply length_map|].
  intros n q Hq. rewrite (nth_error_map_if _ _ _ _ Hq). split.
  - intros Hne.
    destruct (text_eqb (EmojiPuzzles.id q) (EmojiPuzzles.id p)) eqn:E; [|reflexivity].
    apply text_eqb_eq in E. exfalso. apply Hne.
    apply (primary_key_unique EmojiPuzzles.id (puzzles db) q p (pk_puzzles Hpk)
             (nth_error_In _ _ Hq) Hp E).
  - intros ->. rewrite text_eqb_refl. eexists. split; [reflexivity|].
    cbn. repeat split; reflexivity.
Qed.

Lemma archivePuzzle_soft_deletes_witness :
  exists db',
    archivePuzzle (env_at 500 "x") (signed_in alice)
      {| ArchivePuzzle.id := js "p1" |} sample_db = (Returned (js "p1"), db')
    /\ map EmojiPuzzles.isActive (puzzles db') = [false; false; true; true].
Proof.
  destruct (@archivePuzzle_soft_deletes (env_at 500 "x") alice sample_db
              (sample_puzzle "p1" (Some (js "alice")) true)
              sample_db_primary_keys (or_introl eq_refl) eq_refl eq_refl)
    as (db' & Hrun & _).
  exists db'. split; [exact Hrun|].
  vm_compute in Hrun. inversion Hrun. reflexivity.
Defined.

(** X8. Once archived, a puzzle is gone for every path but [updatePuzzle]:
    archiving it again throws [NOT_FOUND], an attempt on it by any user
    throws [NOT_FOUND], and the listing of the owner, unless it asks for
    inactive puzzles, does not show it. *)
Theorem archived_puzzle_not_found :
  forall (U : UnicodeData) (env env' : Env) (u : User) (db : Db) (p : EmojiPuzzles.row),
    primary_keys db ->
    In p (puzzles db) ->
    EmojiPuzzles.userId p = Some (user_id u) ->
    EmojiPuzzles.isActive p = true ->
    exists db',
      archivePuzzle env (signed_in u) {| ArchivePuzzle.id := EmojiPuzzles.id p |} db
      = (Returned (EmojiPuzzles.id p), db')
      /\ archivePuzzle env' (signed_in u) {| ArchivePuzzle.id := EmojiPuzzles.id p |} db'
         = (Thrown NOT_FOUND, db')
      /\ (forall (v : User) (input : SubmitPuzzleAttempt.input),
            SubmitPuzzleAttempt.puzzleId input = EmojiPuzzles.id p ->
            submitPuzzleAttempt env' (signed_in v) input db' = (Thrown NOT_FOUND, db'))
      /\ (forall (input : ListMyPuzzles.input) (d : ListMyPuzzles.data) (db'' : Db),
            ListMyPuzzles.includeInactive input <> Some true ->
            listMyPuzzles env' (signed_in u) input db' = (Returned d, db'') ->
            ~ In (EmojiPuzzles.id p) (map EmojiPuzzles.id (ListMyPuzzles.items d))).
Proof.
  intros U env env' u db p Hpk Hp Hown Hact.
  eexists. split; [apply (@archivePuzzle_own_active env u db p Hpk Hp Hown Hact)|].
  pose proof (@archived_keys env db p Hpk) as Hpk'.
  pose proof (@archived_row_stored env db p Hp) as Hp'.
  set (db' := {| puzzles := _; sessions := sessions db; attempts := attempts db |}) in *.
  set (p' := spread p (archived (now env))) in *.
  assert (Hid : EmojiPuzzles.id p' = EmojiPuzzles.id p) by reflexivity.
  split; [|split].
  - rewrite archivePuzzle_signed_in. cbn [ArchivePuzzle.id]. rewrite <- Hid.
    rewrite (select_by_key EmojiPuzzles.id
               (fun r => eq_nullable (EmojiPuzzles.userId r) (user_id u))
               (puzzles db') p' (pk_puzzles Hpk') Hp').
    destruct (eq_nullable (EmojiPuzzles.userId p') (user_id u)); reflexivity.
  - intros v input Hin.
    pose proof (select_by_id EmojiPuzzles.id (puzzles db') p' (pk_puzzles Hpk') Hp')
      as Hsel.
    rewrite Hid, <- Hin in Hsel.
    rewrite (submitPuzzleAttempt_resolved env' v input db' Hsel). reflexivity.
  - intros input d db'' Hflag Hrun Hshown.
    apply in_map_iff in Hshown. destruct Hshown as (q & Hqid & Hq).
    unfold listMyPuzzles, bind, requireUser, select_puzzles, signed_in in Hrun.
    cbn [locals user ret] in Hrun. inversion Hrun; subst d db''; clear Hrun.
    cbn [ListMyPuzzles.items] in Hq.
    apply page_In, orderBy_createdAt_In, filter_In in Hq. destruct Hq as [Hq Hw].
    destruct (listMyPuzzles_where_sound u input q Hw) as [_ Hactive].
    specialize (Hactive Hflag).
    assert (Hqp : q = p').
    { apply (primary_key_unique EmojiPuzzles.id (puzzles db') q p' (pk_puzzles Hpk')
               Hq Hp'). rewrite Hqid. reflexivity. }
    subst q. discriminate Hactive.
Qed.

Lemma archived_puzzle_not_found_witness :
  exists db',
    archivePuzzle (env_at 500 "x") (signed_in alice)
      {| ArchivePuzzle.id := js "p1" |} sample_db = (Returned (js "p1"), db')
    /\ archivePuzzle (env_at 600 "y") (signed_in alice)
         {| ArchivePuzzle.id := js "p1" |} db' = (Thrown NOT_FOUND, db')
    /\ @submitPuzzleAttempt LatinDeseret (env_at 600 "y") (signed_in alice)
         (submit_input "p1" "fast and furious") db' = (Thrown NOT_FOUND, db').
Proof.
  destruct (@archived_puzzle_not_found LatinDeseret (env_at 500 "x") (env_at 600 "y")
              alice sample_db (sample_puzzle "p1" (Some (js "alice")) true)
              sample_db_primary_keys (or_introl eq_refl) eq_refl eq_refl)
    as (db' & Hrun & Hagain & Hsubmit & _).
  exists db'. split; [exact Hrun|]. split; [exact Hagain|].
  apply Hsubmit. reflexivity.
Defined.

(* ================================================================== *)
(** ** Further properties: submitting an attempt *)
(* ================================================================== *)

(** X9. When no active puzzle has the id of the request (no puzzle has it,
    or the puzzles that have it are inactive), the submission of any
    signed-in user throws [NOT_FOUND] and stores nothing; an inactive puzzle
    of somebody else is reported as not found, not as forbidden. *)
Theorem submitPuzzleAttempt_no_active_puzzle :
  forall (U : UnicodeData) (env : Env) (u : User)
         (input : SubmitPuzzleAttempt.input) (db : Db),
    (forall p, In p (puzzles db) ->
               EmojiPuzzles.id p = SubmitPuzzleAttempt.puzzleId input ->
               EmojiPuzzles.isActive p = false) ->
    submitPuzzleAttempt env (signed_in u) input db = (Thrown NOT_FOUND, db).
Proof.
  intros U env u input db H.
  destruct (filter (fun r => text_eqb (EmojiPuzzles.id r)
                                      (SubmitPuzzleAttempt.puzzleId input))
                   (puzzles db)) as [|p rest] eqn:E.
  - unfold submitPuzzleAttempt, bind, requireUser, select_puzzles, signed_in.
    cbn [locals user ret throw]. rewrite E. reflexivity.
  - rewrite (submitPuzzleAttempt_resolved env u input db E).
    assert (Hp : In p (filter (fun r => text_eqb (EmojiPuzzles.id r)
                                                 (SubmitPuzzleAttempt.puzzleId input))
                              (puzzles db))) by (rewrite E; left; reflexivity).
    apply filter_In in Hp. destruct Hp as [Hp Hid]. apply text_eqb_eq in Hid.
    rewrite (H p Hp Hid). reflexivity.
Qed.

Lemma submitPuzzleAttempt_no_active_puzzle_witness :
  @submitPuzzleAttempt LatinDeseret (env_at 500 "a1") (signed_in bob)
    (submit_input "p2" "fast and furious") sample_db = (Thrown NOT_FOUND, sample_db)
  /\ @submitPuzzleAttempt LatinDeseret (env_at 500 "a1") (signed_in bob)
       (submit_input "nope" "fast and furious") sample_db = (Thrown NOT_FOUND, sample_db).
Proof.
  split.
  - apply (@submitPuzzleAttempt_no_active_puzzle LatinDeseret (env_at 500 "a1") bob
             (submit_input "p2" "fast and furious") sample_db).
    intros p [<-|[<-|[<-|[<-|[]]]]] H; try reflexivity; vm_compute in H; discriminate H.
  - apply (@submitPuzzleAttempt_no_active_puzzle LatinDeseret (env_at 500 "a1") bob
             (submit_input "nope" "fast and furious") sample_db).
    intros p [<-|[<-|[<-|[<-|[]]]]] H; vm_compute in H; discriminate H.
Defined.

Lemma select_session_of_user (u : User) (db : Db) (s : EmojiPuzzleSessions.row) :
  primary_keys db -> In s (sessions db) ->
  filter (fun r => text_eqb (EmojiPuzzleSessions.id r) (EmojiPuzzleSessions.id s)
                   && text_eqb (EmojiPuzzleSessions.userId r) (user_id u))
         (sessions db)
  = if text_eqb (EmojiPuzzleSessions.userId s) (user_id u) then [s] else [].
Proof.
  intros Hpk Hs.
  apply (select_by_key EmojiPuzzleSessions.id
           (fun r => text_eqb (EmojiPuzzleSessions.userId r) (user_id u))
           (sessions db) s (pk_sessions Hpk) Hs).
Qed.

(** X10. The session of a submission. On an active puzzle that the user
    may attempt: a non-empty session id that is not the id of a session of
    the user (no such session, or a session of somebody else) makes the
    submission throw [NOT_FOUND] and store nothing; the id of a session of
    the user whose stored counts are safe integers (so that the select can
    read it) is recorded in the attempt, whether or not that session has
    been ended; and an absent or empty session id gives an attempt without
    session. *)
Theorem submitPuzzleAttempt_session :
  forall (U : UnicodeData) (env : Env) (u : User) (db : Db) (p : EmojiPuzzles.row)
         (input : SubmitPuzzleAttempt.input),
    primary_keys db ->
    In p (puzzles db) ->
    SubmitPuzzleAttempt.puzzleId input = EmojiPuzzles.id p ->
    EmojiPuzzles.isActive p = true ->
    owned_by_other p u = false ->
    (forall sid,
        SubmitPuzzleAttempt.sessionId input = Some sid -> sid <> [] ->
        (forall s, In s (sessions db) -> EmojiPuzzleSessions.id s = sid ->
                   EmojiPuzzleSessions.userId s <> user_id u) ->
        submitPuzzleAttempt env (signed_in u) input db = (Thrown NOT_FOUND, db))
    /\ (forall s,
          In s (sessions db) ->
          SubmitPuzzleAttempt.sessionId input = Some (EmojiPuzzleSessions.id s) ->
          EmojiPuzzleSessions.id s <> [] ->
          EmojiPuzzleSessions.userId s = user_id u ->
          safe_counts s = true ->
          ~ In (randomUUID env) (map EmojiPuzzleAttempts.id (attempts db)) ->
          exists a db',
            submitPuzzleAttempt env (signed_in u) input db = (Returned a, db')
            /\ EmojiPuzzleAttempts.sessionId a = Some (EmojiPuzzleSessions.id s)
            /\ EmojiPuzzleAttempts.userId a = Some (user_id u)
            /\ attempts db' = attempts db ++ [a]
            /\ sessions db' = sessions db)
    /\ (SubmitPuzzleAttempt.sessionId input = None
        \/ SubmitPuzzleAttempt.sessionId input = Some [] ->
        ~ In (randomUUID env) (map EmojiPuzzleAttempts.id (attempts db)) ->
        exists a db',
          submitPuzzleAttempt env (signed_in u) input db = (Returned a, db')
          /\ EmojiPuzzleAttempts.sessionId a = None
          /\ attempts db' = attempts db ++ [a]).
Proof.
  intros U env u db p input Hpk Hp Hid Hact Hmay.
  pose proof (select_by_id EmojiPuzzles.id (puzzles db) p (pk_puzzles Hpk) Hp) as Hsel.
  rewrite <- Hid in Hsel.
  rewrite (submitPuzzleAttempt_resolved env u input db Hsel), Hact, Hmay.
  cbn [negb]. split; [|split].
  - intros sid Hsid Hne Hnone. rewrite Hsid.
    unfold resolve_session, bind, select_sessions.
    destruct sid as [|c sid']; [contradiction|]. cbn [truthy].
    rewrite filter_none; [reflexivity|].
    intros s Hs.
    destruct (text_eqb (EmojiPuzzleSessions.id s) (c :: sid')) eqn:Ek; [|reflexivity].
    apply text_eqb_eq in Ek. cbn [andb].
    apply text_eqb_neq. apply (Hnone s Hs Ek).
  - intros s Hs Hsid Hne Hown _ Hfresh. rewrite Hsid.
    unfold resolve_session, bind, select_sessions.
    destruct (EmojiPuzzleSessions.id s) as [|c sid'] eqn:Es; [contradiction|].
    cbn [truthy]. rewrite <- Es.
    rewrite (@select_session_of_user u db s Hpk Hs), Hown, text_eqb_refl.
    cbn [ret]. cbv zeta. unfold insert_attempt. cbn [EmojiPuzzleAttempts.id].
    rewrite (fresh_key EmojiPuzzleAttempts.id (attempts db) (randomUUID env) Hfresh).
    eexists _, _. split; [reflexivity|]. cbn. auto.
  - intros Hsid Hfresh.
    assert (Hres : resolve_session u (SubmitPuzzleAttempt.sessionId input) db
                   = (Returned None, db))
      by (destruct Hsid as [-> | ->]; reflexivity).
    rewrite Hres. cbv zeta. unfold insert_attempt. cbn [EmojiPuzzleAttempts.id].
    rewrite (fresh_key EmojiPuzzleAttempts.id (attempts db) (randomUUID env) Hfresh).
    eexists _, _. split; [reflexivity|]. cbn. auto.
Qed.

Lemma submitPuzzleAttempt_session_witness :
  (exists a db',
      @submitPuzzleAttempt LatinDeseret (env_at 500 "a1") (signed_in alice)
        {| SubmitPuzzleAttempt.puzzleId := js "p1";
           SubmitPuzzleAttempt.sessionId := Some (js "s1");
           SubmitPuzzleAttempt.guessText := js "fast and furious" |} sample_db
      = (Returned a, db')
      /\ EmojiPuzzleAttempts.sessionId a = Some (js "s1"))
  /\ @submitPuzzleAttempt LatinDeseret (env_at 500 "a1") (signed_in bob)
       {| SubmitPuzzleAttempt.puzzleId := js "p3";
          SubmitPuzzleAttempt.sessionId := Some (js "s1");
          SubmitPuzzleAttempt.guessText := js "fast and furious" |} sample_db
     = (Thrown NOT_FOUND, sample_db).
Proof.
  split.
  - destruct (@submitPuzzleAttempt_session LatinDeseret (env_at 500 "a1") alice
                sample_db (sample_puzzle "p1" (Some (js "alice")) true)
                {| SubmitPuzzleAttempt.puzzleId := js "p1";
                   SubmitPuzzleAttempt.sessionId := Some (js "s1");
                   SubmitPuzzleAttempt.guessText := js "fast and furious" |}
                sample_db_primary_keys (or_introl eq_refl) eq_refl eq_refl eq_refl)
      as (_ & Hown & _).
    destruct (Hown _ (or_introl eq_refl) eq_refl) as (a & db' & Hrun & Hsid & _).
    + discriminate.
    + reflexivity.
    + reflexivity.
    + simpl. tauto.
    + exists a, db'. split; [exact Hrun | exact Hsid].
  - destruct (@submitPuzzleAttempt_session LatinDeseret (env_at 500 "a1") bob
                sample_db (sample_puzzle "p3" None true)
                {| SubmitPuzzleAttempt.puzzleId := js "p3";
                   SubmitPuzzleAttempt.sessionId := Some (js "s1");
                   SubmitPuzzleAttempt.guessText := js "fast and furious" |}
                sample_db_primary_keys (or_intror (or_intror (or_introl eq_refl)))
                eq_refl eq_refl eq_refl)
      as (Hforeign & _).
    apply (Hforeign (js "s1") eq_refl).
    + discriminate.
    + intros s [<-|[]] _. discriminate.
Defined.

(** X11. A submission never touches the puzzles nor the sessions (no count
    of a session is updated by an attempt). It either throws and leaves the
    database as it was, or returns an attempt made by the caller on an
    active puzzle of the table, with the raw guess, the new identifier and
    the time of the call, and adds exactly one row at the end of the
    attempts: a row with the id, session, puzzle, user, correctness and
    time of the returned attempt, which is the returned attempt itself when
    the guess is a text that the database stores as it is (well-formed,
    without U+0000). *)
Theorem submitPuzzleAttempt_only_appends :
  forall (U : UnicodeData) (env : Env) (context : ActionAPIContext)
         (input : SubmitPuzzleAttempt.input) (db : Db),
    (exists code, submitPuzzleAttempt env context input db = (Thrown code, db))
    \/ (exists a stored u p,
          submitPuzzleAttempt env context input db
          = (Returned a, {| puzzles := puzzles db;
                            sessions := sessions db;
                            attempts := attempts db ++ [stored] |})
          /\ EmojiPuzzleAttempts.id stored = EmojiPuzzleAttempts.id a
          /\ EmojiPuzzleAttempts.sessionId stored = EmojiPuzzleAttempts.sessionId a
          /\ EmojiPuzzleAttempts.puzzleId stored = EmojiPuzzleAttempts.puzzleId a
          /\ EmojiPuzzleAttempts.userId stored = EmojiPuzzleAttempts.userId a
          /\ EmojiPuzzleAttempts.isCorrect stored = EmojiPuzzleAttempts.isCorrect a
          /\ EmojiPuzzleAttempts.createdAt stored = EmojiPuzzleAttempts.createdAt a
          /\ (storable_text (SubmitPuzzleAttempt.guessText input) = true -> stored = a)
          /\ caller context = Some u
          /\ EmojiPuzzleAttempts.userId a = Some (user_id u)
          /\ EmojiPuzzleAttempts.id a = randomUUID env
          /\ EmojiPuzzleAttempts.createdAt a = now env
          /\ EmojiPuzzleAttempts.guessText a = Some (SubmitPuzzleAttempt.guessText input)
          /\ EmojiPuzzleAttempts.puzzleId a = SubmitPuzzleAttempt.puzzleId input
          /\ In p (puzzles db)
          /\ EmojiPuzzles.id p = EmojiPuzzleAttempts.puzzleId a
          /\ EmojiPuzzles.isActive p = true).
Proof.
  intros U env context input db.
  unfold submitPuzzleAttempt, bind, requireUser, select_puzzles, caller.
  destruct (locals context) as [l|]; [|left; eexists; reflexivity].
  destruct (user l) as [u|]; [|left; eexists; reflexivity].
  cbn [ret throw].
  destruct (filter _ (puzzles db)) as [|p rest] eqn:E; [left; eexists; reflexivity|].
  assert (Hp : In p (filter (fun r => text_eqb (EmojiPuzzles.id r)
                                               (SubmitPuzzleAttempt.puzzleId input))
                            (puzzles db))) by (rewrite E; left; reflexivity).
  apply filter_In in Hp. destruct Hp as [Hp Hid]. apply text_eqb_eq in Hid.
  destruct (EmojiPuzzles.isActive p) eqn:Hact; cbn [negb];
    [|left; eexists; reflexivity].
  destruct (owned_by_other p u); [left; eexists; reflexivity|].
  destruct (resolve_session_outcome u (SubmitPuzzleAttempt.sessionId input) db)
    as [(sid & Hres) | Hres]; rewrite Hres; [|left; eexists; reflexivity].
  unfold insert_attempt. destruct (existsb _ (attempts db));
    [left; eexists; reflexivity|].
  right. eexists _, _, u, p. split; [reflexivity|]. cbn. auto 20.
Qed.

(* ================================================================== *)
(** ** Further properties: the life of a session *)
(* ================================================================== *)

Lemma startPuzzleSession_signed_in (env : Env) (u : User)
    (input : StartPuzzleSession.input) (db : Db) :
  startPuzzleSession env (signed_in u) input db =
  if existsb (fun x => text_eqb (EmojiPuzzleSessions.id x) (randomUUID env)) (sessions db)
  then (Thrown INTERNAL_SERVER_ERROR, db)
  else (Returned (new_session env u input),
        {| puzzles := puzzles db;
           sessions := sessions db ++ [new_session env u input];
           attempts := attempts db |}).
Proof.
  unfold startPuzzleSession, bind, requireUser, insert_session, signed_in, new_session.
  cbn [locals user ret EmojiPuzzleSessions.id].
  destruct (existsb _ (sessions db)); reflexivity.
Qed.

Lemma endPuzzleSession_own (env : Env) (u : User) (db : Db)
    (s : EmojiPuzzleSessions.row) (input : EndPuzzleSession.input) :
  primary_keys db -> In s (sessions db) ->
  EmojiPuzzleSessions.userId s = user_id u ->
  EndPuzzleSession.sessionId input = EmojiPuzzleSessions.id s ->
  exceeds (EndPuzzleSession.totalQuestions input)
          (EndPuzzleSession.correctAnswers input) = false ->
  endPuzzleSession env (signed_in u) input db
  = (Returned (EmojiPuzzleSessions.id s),
     {| puzzles := puzzles db;
        sessions :=
          map (fun r =>
                 if text_eqb (EmojiPuzzleSessions.id r) (EmojiPuzzleSessions.id s)
                 then ended (now env)
                        (nullish (EndPuzzleSession.totalQuestions input)
                                 (EmojiPuzzleSessions.totalQuestions s))
                        (nullish (EndPuzzleSession.correctAnswers input)
                                 (EmojiPuzzleSessions.correctAnswers s)) r
                 else r) (sessions db);
        attempts := attempts db |}).
Proof.
  intros Hpk Hs Hown Hid Hok.
  unfold endPuzzleSession, bind, requireUser, select_sessions, signed_in.
  cbn [locals user ret throw]. rewrite Hid.
  rewrite (@select_session_of_user u db s Hpk Hs), Hown, text_eqb_refl, Hok.
  reflexivity.
Qed.

(** X12. Ending a session of the caller whose stored counts are safe
    integers (so that the select can read it), when the request does not
    give more correct answers than questions, succeeds whether or not the
    session was ended before. The stored row gets [endedAt] set to the time
    of the call; each count given in the request replaces the stored one
    and each count absent from the request keeps the stored one; its other
    columns, the other sessions, the puzzles and the attempts do not
    change. *)
Theorem endPuzzleSession_finalizes :
  forall (env : Env) (u : User) (db : Db) (s : EmojiPuzzleSessions.row)
         (input : EndPuzzleSession.input),
    primary_keys db ->
    In s (sessions db) ->
    EmojiPuzzleSessions.userId s = user_id u ->
    safe_counts s = true ->
    EndPuzzleSession.sessionId input = EmojiPuzzleSessions.id s ->
    exceeds (EndPuzzleSession.totalQuestions input)
            (EndPuzzleSession.correctAnswers input) = false ->
    exists db',
      endPuzzleSession env (signed_in u) input db
      = (Returned (EmojiPuzzleSessions.id s), db')
      /\ puzzles db' = puzzles db
      /\ attempts db' = attempts db
      /\ List.length (sessions db') = List.length (sessions db)
      /\ forall n q, nth_error (sessions db) n = Some q ->
           (q <> s -> nth_error (sessions db') n = Some q)
           /\ (q = s ->
               exists q',
                 nth_error (sessions db') n = Some q'
                 /\ EmojiPuzzleSessions.endedAt q' = Some (now env)
                 /\ EmojiPuzzleSessions.totalQuestions q'
                    = match EndPuzzleSession.totalQuestions input with
                      | Some t => Some t
                      | None => EmojiPuzzleSessions.totalQuestions s
                      end
                 /\ EmojiPuzzleSessions.correctAnswers q'
                    = match EndPuzzleSession.correctAnswers input with
                      | Some c => Some c
                      | None => EmojiPuzzleSessions.correctAnswers s
                      end
                 /\ EmojiPuzzleSessions.id q' = EmojiPuzzleSessions.id s
                 /\ EmojiPuzzleSessions.userId q' = EmojiPuzzleSessions.userId s
                 /\ EmojiPuzzleSessions.mode q' = EmojiPuzzleSessions.mode s
                 /\ EmojiPuzzleSessions.createdAt q' = EmojiPuzzleSessions.createdAt s).
Proof.
  intros env u db s input Hpk Hs Hown _ Hid Hok.
  eexists. split; [apply (@endPuzzleSession_own env u db s input Hpk Hs Hown Hid Hok)|].
  split; [reflexivity|]. split; [reflexivity|].
  cbn [sessions]. split; [apply length_map|].
  intros n q Hq. rewrite (nth_error_map_if _ _ _ _ Hq). split.
  - intros Hne.
    destruct (text_eqb (EmojiPuzzleSessions.id q) (EmojiPuzzleSessions.id s)) eqn:E;
      [|reflexivity].
    apply text_eqb_eq in E. exfalso. apply Hne.
    apply (primary_key_unique EmojiPuzzleSessions.id (sessions db) q s
             (pk_sessions Hpk) (nth_error_In _ _ Hq) Hs E).
  - intros ->. rewrite text_eqb_refl. eexists. split; [reflexivity|].
    cbn. repeat split; reflexivity.
Qed.

Lemma endPuzzleSession_finalizes_witness :
  exists db',
    endPuzzleSession (env_at 900 "x") (signed_in alice)
      {| EndPuzzleSession.sessionId := js "s1";
         EndPuzzleSession.totalQuestions := None;
         EndPuzzleSession.correctAnswers := Some 4 |} sample_db
    = (Returned (js "s1"), db')
    /\ map (fun s => (EmojiPuzzleSessions.endedAt s,
                      EmojiPuzzleSessions.totalQuestions s,
                      EmojiPuzzleSessions.correctAnswers s)) (sessions db')
       = [(Some 900, Some 5, Some 4)].
Proof.
  destruct (@endPuzzleSession_finalizes (env_at 900 "x") alice sample_db
              {| EmojiPuzzleSessions.id := js "s1";
                 EmojiPuzzleSessions.userId := js "alice";
                 EmojiPuzzleSessions.mode := Some (js "practice");
                 EmojiPuzzleSessions.createdAt := 200;
                 EmojiPuzzleSessions.endedAt := Some 300;
                 EmojiPuzzleSessions.totalQuestions := Some 5;
                 EmojiPuzzleSessions.correctAnswers := None |}
              {| EndPuzzleSession.sessionId := js "s1";
                 EndPuzzleSession.totalQuestions := None;
                 EndPuzzleSession.correctAnswers := Some 4 |}
              sample_db_primary_keys (or_introl eq_refl) eq_refl eq_refl eq_refl
              eq_refl)
    as (db' & Hrun & _).
  exists db'. split; [exact Hrun|].
  vm_compute in Hrun. inversion Hrun. reflexivity.
Defined.

Lemma endPuzzleSession_no_own_session (env : Env) (u : User)
    (input : EndPuzzleSession.input) (db : Db) :
  (forall s, In s (sessions db) ->
             EmojiPuzzleSessions.id s = EndPuzzleSession.sessionId input ->
             EmojiPuzzleSessions.userId s <> user_id u) ->
  endPuzzleSession env (signed_in u) input db = (Thrown NOT_FOUND, db).
Proof.
  intros H.
  unfold endPuzzleSession, bind, requireUser, select_sessions, signed_in.
  cbn [locals user ret throw].
  rewrite filter_none; [reflexivity|].
  intros s Hs.
  destruct (text_eqb (EmojiPuzzleSessions.id s) (EndPuzzleSession.sessionId input)) eqn:Ek;
    [|reflexivity].
  apply text_eqb_eq in Ek. cbn [andb]. apply text_eqb_neq. apply (H s Hs Ek).
Qed.

(** X13. A session that is not a session of the caller cannot be ended:
    when no session of the caller has the id of the request (no session at
    all, or sessions of other users), [endPuzzleSession] throws [NOT_FOUND],
    whatever the counts, even counts that exceed each other, and leaves the
    database as it was. *)
Theorem endPuzzleSession_foreign_not_found :
  forall (env : Env) (u : User) (input : EndPuzzleSession.input) (db : Db),
    (forall s, In s (sessions db) ->
               EmojiPuzzleSessions.id s = EndPuzzleSession.sessionId input ->
               EmojiPuzzleSessions.userId s <> user_id u) ->
    endPuzzleSession env (signed_in u) input db = (Thrown NOT_FOUND, db).
Proof.
  intros env u input db H.
  apply (@endPuzzleSession_no_own_session env u input db H).
Qed.

Lemma endPuzzleSession_foreign_not_found_witness :
  endPuzzleSession (env_at 900 "x") (signed_in bob)
    {| EndPuzzleSession.sessionId := js "s1";
       EndPuzzleSession.totalQuestions := Some 5;
       EndPuzzleSession.correctAnswers := Some 6 |} sample_db
  = (Thrown NOT_FOUND, sample_db).
Proof.
  apply (@endPuzzleSession_foreign_not_found (env_at 900 "x") bob
           {| EndPuzzleSession.sessionId := js "s1";
              EndPuzzleSession.totalQuestions := Some 5;
              EndPuzzleSession.correctAnswers := Some 6 |} sample_db).
  intros s [<-|[]] _. discriminate.
Defined.

(** X14. Starting a session under a free identifier adds one session of
    the caller, not ended and without correct answers, with the mode and
    the total of the request, and changes nothing else; when that total is
    a safe integer (so that the session can be read back) the caller can
    then end it, which stamps it with the time of that call and leaves the
    sessions that were there before as they were, whereas any other user
    who tries to end it gets [NOT_FOUND]. *)
Theorem startPuzzleSession_then_end :
  forall (env env' : Env) (u : User) (input : StartPuzzleSession.input)
         (closing : EndPuzzleSession.input) (db : Db),
    primary_keys db ->
    ~ In (randomUUID env) (map EmojiPuzzleSessions.id (sessions db)) ->
    (forall t, StartPuzzleSession.totalQuestions input = Some t ->
               safe_integer t = true) ->
    EndPuzzleSession.sessionId closing = randomUUID env ->
    exceeds (EndPuzzleSession.totalQuestions closing)
            (EndPuzzleSession.correctAnswers closing) = false ->
    exists s db1 s' db2,
      startPuzzleSession env (signed_in u) input db = (Returned s, db1)
      /\ sessions db1 = sessions db ++ [s]
      /\ puzzles db1 = puzzles db /\ attempts db1 = attempts db
      /\ EmojiPuzzleSessions.id s = randomUUID env
      /\ EmojiPuzzleSessions.userId s = user_id u
      /\ EmojiPuzzleSessions.createdAt s = now env
      /\ EmojiPuzzleSessions.endedAt s = None
      /\ EmojiPuzzleSessions.correctAnswers s = None
      /\ EmojiPuzzleSessions.totalQuestions s = StartPuzzleSession.totalQuestions input
      /\ EmojiPuzzleSessions.mode s = option_map Mode_text (StartPuzzleSession.mode input)
      /\ endPuzzleSession env' (signed_in u) closing db1
         = (Returned (EmojiPuzzleSessions.id s), db2)
      /\ sessions db2 = sessions db ++ [s']
      /\ EmojiPuzzleSessions.endedAt s' = Some (now env')
      /\ EmojiPuzzleSessions.id s' = EmojiPuzzleSessions.id s
      /\ (forall v, user_id v <> user_id u ->
            endPuzzleSession env' (signed_in v) closing db1 = (Thrown NOT_FOUND, db1)).
Proof.
  intros env env' u input closing db Hpk Hfresh _ Hid Hok.
  pose proof (fresh_key EmojiPuzzleSessions.id (sessions db) (randomUUID env) Hfresh)
    as Hex.
  set (s := new_session env u input).
  set (db1 := {| puzzles := puzzles db; sessions := sessions db ++ [s];
                 attempts := attempts db |}).
  assert (Hpk1 : primary_keys db1).
  { destruct Hpk as [H1 H2 H3]. constructor; cbn [db1 puzzles sessions attempts]; auto.
    apply insert_keeps_key; assumption. }
  assert (Hin : In s (sessions db1)) by (apply in_or_app; right; left; reflexivity).
  assert (Hold : forall r, In r (sessions db) ->
                 text_eqb (EmojiPuzzleSessions.id r) (EmojiPuzzleSessions.id s) = false).
  { intros r Hr. apply text_eqb_neq. intros E. apply Hfresh.
    change (randomUUID env) with (EmojiPuzzleSessions.id s). rewrite <- E.
    apply in_map. exact Hr. }
  exists s, db1,
    (ended (now env')
       (nullish (EndPuzzleSession.totalQuestions closing)
                (EmojiPuzzleSessions.totalQuestions s))
       (nullish (EndPuzzleSession.correctAnswers closing)
                (EmojiPuzzleSessions.correctAnswers s)) s).
  eexists.
  split; [rewrite startPuzzleSession_signed_in, Hex; reflexivity|].
  do 10 (split; [reflexivity|]).
  split; [apply (@endPuzzleSession_own env' u db1 s closing Hpk1 Hin eq_refl Hid Hok)|].
  split; [|split; [reflexivity|split; [reflexivity|]]].
  - cbn [sessions db1]. rewrite map_app. cbn [map]. rewrite text_eqb_refl.
    f_equal. rewrite <- (map_id (sessions db)) at 2.
    apply map_ext_in. intros r Hr. rewrite (Hold r Hr). reflexivity.
  - intros v Hv. apply endPuzzleSession_no_own_session.
    intros r Hr Hrid. cbn [sessions db1] in Hr. apply in_app_or in Hr.
    destruct Hr as [Hr | [<- | []]].
    + exfalso. apply Hfresh. rewrite <- Hid, <- Hrid. apply in_map. exact Hr.
    + cbn. congruence.
Qed.

Lemma startPuzzleSession_then_end_witness :
  exists s db1 s' db2,
    startPuzzleSession (env_at 1000 "s9") (signed_in bob)
      {| StartPuzzleSession.mode := Some timed;
         StartPuzzleSession.totalQuestions := Some 3 |} sample_db = (Returned s, db1)
    /\ endPuzzleSession (env_at 2000 "x") (signed_in bob)
         {| EndPuzzleSession.sessionId := js "s9";
            EndPuzzleSession.totalQuestions := None;
            EndPuzzleSession.correctAnswers := Some 2 |} db1
       = (Returned (EmojiPuzzleSessions.id s), db2)
    /\ sessions db2 = sessions sample_db ++ [s']
    /\ EmojiPuzzleSessions.endedAt s' = Some 2000.
Proof.
  destruct (@startPuzzleSession_then_end (env_at 1000 "s9") (env_at 2000 "x") bob
              {| StartPuzzleSession.mode := Some timed;
                 StartPuzzleSession.totalQuestions := Some 3 |}
              {| EndPuzzleSession.sessionId := js "s9";
                 EndPuzzleSession.totalQuestions := None;
                 EndPuzzleSession.correctAnswers := Some 2 |}
              sample_db sample_db_primary_keys)
    as (s & db1 & s' & db2 & H1 & _ & _ & _ & _ & _ & _ & _ & _ & _ & _ & H2 & H3 & H4 & _).
  - vm_compute. intuition discriminate.
  - intros t H. inversion H. reflexivity.
  - reflexivity.
  - reflexivity.
  - exists s, db1, s', db2. auto.
Defined.

(* ================================================================== *)
(** ** Further properties: the listing *)
(* ================================================================== *)

Lemma listMyPuzzles_signed_in (env : Env) (u : User) (input : ListMyPuzzles.input)
    (db : Db) :
  listMyPuzzles env (signed_in u) input db =
  let items :=
    firstn (Z.to_nat (ListMyPuzzles.pageSize input))
      (skipn (Z.to_nat ((ListMyPuzzles.page input - 1) * ListMyPuzzles.pageSize input))
         (orderBy_createdAt (filter (listMyPuzzles_where u input) (puzzles db)))) in
  (Returned {| ListMyPuzzles.items := items;
               ListMyPuzzles.total := List.length items;
               ListMyPuzzles.data_page := ListMyPuzzles.page input |}, db).
Proof. reflexivity. Qed.

Lemma insert_by_createdAt_sorted (r : EmojiPuzzles.row) (l : list EmojiPuzzles.row) :
  StronglySorted created_before l ->
  StronglySorted created_before (insert_by_createdAt r l).
Proof.
  induction 1 as [|x l Hl IH Hx]; cbn [insert_by_createdAt].
  - repeat constructor.
  - destruct (EmojiPuzzles.createdAt r <? EmojiPuzzles.createdAt x) eqn:E.
    + apply Z.ltb_lt in E. constructor; [constructor; assumption|].
      constructor; [unfold created_before; lia|].
      rewrite Forall_forall in *. intros y Hy. specialize (Hx y Hy).
      unfold created_before in *. lia.
    + apply Z.ltb_ge in E. constructor; [exact IH|].
      rewrite Forall_forall in *. intros y Hy.
      apply insert_by_createdAt_In in Hy. destruct Hy as [-> | Hy].
      * exact E.
      * apply Hx, Hy.
Qed.

Lemma orderBy_createdAt_sorted (l : list EmojiPuzzles.row) :
  StronglySorted created_before (orderBy_createdAt l).
Proof.
  induction l as [|r l IH]; [constructor|].
  apply insert_by_createdAt_sorted, IH.
Qed.

Lemma insert_by_createdAt_perm (r : EmojiPuzzles.row) (l : list EmojiPuzzles.row) :
  Permutation (insert_by_createdAt r l) (r :: l).
Proof.
  induction l as [|x l IH]; cbn [insert_by_createdAt]; [reflexivity|].
  destruct (EmojiPuzzles.createdAt r <? EmojiPuzzles.createdAt x); [reflexivity|].
  rewrite IH. apply perm_swap.
Qed.

Lemma orderBy_createdAt_perm (l : list EmojiPuzzles.row) :
  Permutation (orderBy_createdAt l) l.
Proof.
  induction l as [|r l IH]; [reflexivity|].
  cbn [orderBy_createdAt fold_right]. fold (orderBy_createdAt l).
  rewrite insert_by_createdAt_perm. constructor. exact IH.
Qed.

Lemma sorted_nth (A : Type) (R : A -> A -> Prop) (l : list A) :
  StronglySorted R l ->
  forall i j a b, (i < j)%nat ->
    nth_error l i = Some a -> nth_error l j = Some b -> R a b.
Proof.
  induction 1 as [|x l Hl IH Hx]; intros i j a b Hij Ha Hb.
  - destruct i; discriminate Ha.
  - destruct j as [|j]; [lia|]. cbn [nth_error] in Hb.
    destruct i as [|i]; cbn [nth_error] in Ha.
    + inversion Ha; subst. rewrite Forall_forall in Hx.
      apply Hx. apply (nth_error_In _ _ Hb).
    + apply (IH i j a b); [lia | assumption | assumption].
Qed.

Lemma sorted_slice (A : Type) (R : A -> A -> Prop) (l : list A) (limit offset : nat) :
  StronglySorted R l -> StronglySorted R (firstn limit (skipn offset l)).
Proof.
  intros H.
  assert (Hs : StronglySorted R (skipn offset l)).
  { revert l H. induction offset as [|n IH]; intros l H; [exact H|].
    destruct l as [|x l]; [constructor|]. cbn [skipn].
    apply IH. apply (StronglySorted_inv H). }
  revert Hs. generalize (skipn offset l). clear.
  induction limit as [|n IH]; intros l H; [constructor|].
  destruct l as [|x l]; [constructor|]. cbn [firstn].
  destruct (StronglySorted_inv H) as [Hl Hx].
  constructor; [apply IH, Hl|].
  rewrite Forall_forall in *. intros y Hy. apply Hx.
  rewrite <- (firstn_skipn n l). apply in_or_app. left. exact Hy.
Qed.

(** X15. The listing of a signed-in user answers with the page number of
    the request, at most [pageSize] items, their number as [total] (the
    size of the page, not of the whole selection), and the items in
    ascending order of creation. *)
Theorem listMyPuzzles_page_in_order :
  forall (env : Env) (u : User) (input : ListMyPuzzles.input) (db : Db),
  exists d,
    listMyPuzzles env (signed_in u) input db = (Returned d, db)
    /\ ListMyPuzzles.data_page d = ListMyPuzzles.page input
    /\ ListMyPuzzles.total d = List.length (ListMyPuzzles.items d)
    /\ (ListMyPuzzles.total d <= Z.to_nat (ListMyPuzzles.pageSize input))%nat
    /\ (ListMyPuzzles.total d
        <= List.length (filter (fun p => eq_nullable (EmojiPuzzles.userId p) (user_id u))
                               (puzzles db)))%nat
    /\ StronglySorted created_before (ListMyPuzzles.items d).
Proof.
  intros env u input db. rewrite listMyPuzzles_signed_in. cbv zeta.
  eexists. split; [reflexivity|]. cbn [ListMyPuzzles.data_page ListMyPuzzles.total
                                        ListMyPuzzles.items].
  split; [reflexivity|]. split; [reflexivity|].
  split; [apply firstn_le_length|]. split.
  - rewrite length_firstn, length_skipn.
    rewrite (Permutation_length (orderBy_createdAt_perm _)).
    assert (Hle : (List.length (filter (listMyPuzzles_where u input) (puzzles db))
                   <= List.length (filter (fun p => eq_nullable (EmojiPuzzles.userId p)
                                                                (user_id u))
                                          (puzzles db)))%nat).
    { induction (puzzles db) as [|p l IH]; [apply le_n|]. cbn [filter].
      destruct (listMyPuzzles_where u input p) eqn:Ew.
      - destruct (listMyPuzzles_where_sound u input p Ew) as [Ho _].
        apply eq_nullable_eq in Ho. rewrite Ho. cbn [List.length]. lia.
      - destruct (eq_nullable (EmojiPuzzles.userId p) (user_id u));
          cbn [List.length]; lia. }
    lia.
  - apply sorted_slice, orderBy_createdAt_sorted.
Qed.

(** X16. Pages follow the order of creation: with the same filters and
    page size, a puzzle shown on a page was created no later than any
    puzzle shown on a later page. *)
Theorem listMyPuzzles_pages_ordered :
  forall (env : Env) (u : User) (db : Db)
         (inactive : option bool) (cat : option jsstring) (diff : option Difficulty)
         (pageSize k k' : Z) (d d' : ListMyPuzzles.data) (a b : EmojiPuzzles.row),
    0 < k -> k < k' ->
    listMyPuzzles env (signed_in u) (list_input inactive cat diff k pageSize) db
    = (Returned d, db) ->
    listMyPuzzles env (signed_in u) (list_input inactive cat diff k' pageSize) db
    = (Returned d', db) ->
    In a (ListMyPuzzles.items d) ->
    In b (ListMyPuzzles.items d') ->
    EmojiPuzzles.createdAt a <= EmojiPuzzles.createdAt b.
Proof.
  intros env u db inactive cat diff pageSize k k' d d' a b Hk Hkk Hd Hd' Ha Hb.
  rewrite listMyPuzzles_signed_in in Hd, Hd'. cbv zeta in Hd, Hd'.
  inversion Hd; subst d; clear Hd. inversion Hd'; subst d'; clear Hd'.
  cbn [ListMyPuzzles.items list_input ListMyPuzzles.page ListMyPuzzles.pageSize] in Ha, Hb.
  change (listMyPuzzles_where u (list_input inactive cat diff k' pageSize))
    with (listMyPuzzles_where u (list_input inactive cat diff k pageSize)) in Hb.
  set (sorted := orderBy_createdAt
                   (filter (listMyPuzzles_where u (list_input inactive cat diff k pageSize))
                           (puzzles db))) in *.
  assert (Hsorted : StronglySorted created_before sorted)
    by apply orderBy_createdAt_sorted.
  apply In_nth_error in Ha. destruct Ha as [i Hi].
  apply In_nth_error in Hb. destruct Hb as [j Hj].
  rewrite nth_error_firstn in Hi, Hj.
  destruct (i <? Z.to_nat pageSize)%nat eqn:Ei; [|discriminate Hi].
  destruct (j <? Z.to_nat pageSize)%nat eqn:Ej; [|discriminate Hj].
  apply Nat.ltb_lt in Ei. rewrite nth_error_skipn in Hi, Hj.
  apply (sorted_nth Hsorted
           (i := (Z.to_nat ((k - 1) * pageSize) + i)%nat)
           (j := (Z.to_nat ((k' - 1) * pageSize) + j)%nat)); [|exact Hi | exact Hj].
  assert (Hps : 0 < pageSize) by lia.
  rewrite !Z2Nat.inj_mul by lia.
  assert (Hstep : (Z.to_nat (k - 1) + 1 <= Z.to_nat (k' - 1))%nat) by lia.
  nia.
Qed.

Lemma listMyPuzzles_pages_ordered_witness :
  exists d d',
    listMyPuzzles (env_at 500 "x") (signed_in alice)
      (list_input None None None 2 1) timeline_db = (Returned d, timeline_db)
    /\ listMyPuzzles (env_at 500 "x") (signed_in alice)
         (list_input None None None 3 1) timeline_db = (Returned d', timeline_db)
    /\ map EmojiPuzzles.id (ListMyPuzzles.items d) = [js "t2"]
    /\ map EmojiPuzzles.id (ListMyPuzzles.items d') = [js "t3"]
    /\ EmojiPuzzles.createdAt (timed_puzzle "t2" 20 "movie")
       <= EmojiPuzzles.createdAt (timed_puzzle "t3" 30 "movie").
Proof.
  eexists _, _.
  split; [rewrite listMyPuzzles_signed_in; reflexivity|].
  split; [rewrite listMyPuzzles_signed_in; reflexivity|].
  split; [vm_compute; reflexivity|]. split; [vm_compute; reflexivity|].
  eapply (@listMyPuzzles_pages_ordered (env_at 500 "x") alice timeline_db
            None None None 1 2 3 _ _
            (timed_puzzle "t2" 20 "movie") (timed_puzzle "t3" 30 "movie"));
    [lia | lia
     | rewrite listMyPuzzles_signed_in; reflexivity
     | rewrite listMyPuzzles_signed_in; reflexivity
     | vm_compute; left; reflexivity
     | vm_compute; left; reflexivity].
Defined.

(** The [where] clause of the listing, spelled out. *)
Lemma listMyPuzzles_where_iff (u : User) (input : ListMyPuzzles.input)
    (p : EmojiPuzzles.row) :
  listMyPuzzles_where u input p = true <->
  EmojiPuzzles.userId p = Some (user_id u)
  /\ (ListMyPuzzles.includeInactive input <> Some true -> EmojiPuzzles.isActive p = true)
  /\ (forall c, ListMyPuzzles.category input = Some c -> c <> [] ->
                EmojiPuzzles.category p = Some c)
  /\ (forall dv, ListMyPuzzles.difficulty input = Some dv ->
                 EmojiPuzzles.difficulty p = Some (Difficulty_text dv)).
Proof.
  unfold listMyPuzzles_where.
  destruct (ListMyPuzzles.includeInactive input) as [[|]|];
    destruct (ListMyPuzzles.category input) as [[|c0 c]|];
    destruct (ListMyPuzzles.difficulty input) as [dv|];
    cbn [falsy_flag truthy];
    try (replace (truthy (Difficulty_text dv)) with true by (destruct dv; reflexivity));
    rewrite ?andb_true_iff, ?eq_nullable_eq, ?Bool.eqb_true_iff;
    (split;
     [ intros H;
       repeat match goal with
              | H0 : _ /\ _ |- _ => destruct H0
              end;
       repeat split; auto; try congruence; try (intros; congruence)
     | intros (Ho & Ha & Hc & Hd);
       repeat split; auto;
       try (apply Ha; congruence); try (apply Hc; congruence);
       try (apply Hd; reflexivity) ]).
Qed.

(** X17. The filters of the listing are exact matches. When a non-empty
    [category] is given, a text that the database compares as it is
    (well-formed, without U+0000), every item has exactly that category,
    and when a
    [difficulty] is given every item has exactly that difficulty (a puzzle
    without category or difficulty never matches); an empty [category] is
    no filter at all: the answer is the one for an absent [category]. *)
Theorem listMyPuzzles_filters :
  forall (env : Env) (u : User) (input : ListMyPuzzles.input) (db : Db),
    (exists d,
        listMyPuzzles env (signed_in u) input db = (Returned d, db)
        /\ forall p, In p (ListMyPuzzles.items d) ->
             (forall c, ListMyPuzzles.category input = Some c -> c <> [] ->
                        storable_text c = true ->
                        EmojiPuzzles.category p = Some c)
             /\ (forall dv, ListMyPuzzles.difficulty input = Some dv ->
                            EmojiPuzzles.difficulty p = Some (Difficulty_text dv)))
    /\ listMyPuzzles env (signed_in u)
         (list_input (ListMyPuzzles.includeInactive input) (Some [])
            (ListMyPuzzles.difficulty input) (ListMyPuzzles.page input)
            (ListMyPuzzles.pageSize input)) db
       = listMyPuzzles env (signed_in u)
           (list_input (ListMyPuzzles.includeInactive input) None
              (ListMyPuzzles.difficulty input) (ListMyPuzzles.page input)
              (ListMyPuzzles.pageSize input)) db.
Proof.
  intros env u input db. split; [|reflexivity].
  rewrite listMyPuzzles_signed_in. cbv zeta.
  eexists. split; [reflexivity|]. cbn [ListMyPuzzles.items]. intros p Hp.
  apply page_In, orderBy_createdAt_In, filter_In in Hp. destruct Hp as [_ Hw].
  apply listMyPuzzles_where_iff in Hw. destruct Hw as (_ & _ & Hc & Hd).
  split; [|assumption]. intros c Hcat Hne _. apply (Hc c Hcat Hne).
Qed.

Lemma listMyPuzzles_filters_witness :
  exists d,
    listMyPuzzles (env_at 500 "x") (signed_in alice)
      (list_input None (Some (js "movie")) (Some easy) 1 20) timeline_db
    = (Returned d, timeline_db)
    /\ map EmojiPuzzles.id (ListMyPuzzles.items d) = [js "t2"; js "t3"]
    /\ forall p, In p (ListMyPuzzles.items d) ->
         EmojiPuzzles.category p = Some (js "movie").
Proof.
  destruct (proj1 (listMyPuzzles_filters (env_at 500 "x") alice
                     (list_input None (Some (js "movie")) (Some easy) 1 20) timeline_db))
    as (d & Hrun & Hitems).
  exists d. split; [exact Hrun|]. split.
  - rewrite listMyPuzzles_signed_in in Hrun. inversion Hrun. reflexivity.
  - intros p Hp. apply (proj1 (Hitems p Hp) (js "movie") eq_refl).
    + discriminate.
    + reflexivity.
Defined.

(** X18. Nothing that matches is left out: with a positive page size,
    every puzzle of the caller that passes the filters of the request
    (active unless inactive ones are asked for, of the given non-empty
    category, of the given difficulty) is an item of some page. *)
Theorem listMyPuzzles_complete :
  forall (env : Env) (u : User) (db : Db)
         (inactive : option bool) (cat : option jsstring) (diff : option Difficulty)
         (pageSize : Z) (p : EmojiPuzzles.row),
    0 < pageSize ->
    In p (puzzles db) ->
    EmojiPuzzles.userId p = Some (user_id u) ->
    (inactive <> Some true -> EmojiPuzzles.isActive p = true) ->
    (forall c, cat = Some c -> c <> [] -> EmojiPuzzles.category p = Some c) ->
    (forall dv, diff = Some dv -> EmojiPuzzles.difficulty p = Some (Difficulty_text dv)) ->
    exists k d,
      0 < k
      /\ listMyPuzzles env (signed_in u) (list_input inactive cat diff k pageSize) db
         = (Returned d, db)
      /\ In p (ListMyPuzzles.items d).
Proof.
  intros env u db inactive cat diff pageSize p Hps Hp Hown Hact Hcat Hdiff.
  set (w := listMyPuzzles_where u (list_input inactive cat diff 1 pageSize)).
  assert (Hw : w p = true).
  { apply listMyPuzzles_where_iff. cbn [list_input ListMyPuzzles.includeInactive
      ListMyPuzzles.category ListMyPuzzles.difficulty]. auto. }
  assert (Hin : In p (orderBy_createdAt (filter w (puzzles db)))).
  { apply (Permutation_in _ (Permutation_sym (orderBy_createdAt_perm _))).
    apply filter_In. auto. }
  apply In_nth_error in Hin. destruct Hin as [i Hi].
  set (n := Z.to_nat pageSize).
  assert (Hn : (0 < n)%nat) by (unfold n; lia).
  exists (Z.of_nat (i / n) + 1).
  rewrite listMyPuzzles_signed_in. cbv zeta.
  eexists. split; [lia|]. split; [reflexivity|].
  cbn [ListMyPuzzles.items list_input ListMyPuzzles.page ListMyPuzzles.pageSize].
  change (listMyPuzzles_where u (list_input inactive cat diff (Z.of_nat (i / n) + 1) pageSize))
    with w.
  apply (nth_error_In _ (i mod n)).
  rewrite nth_error_firstn.
  pose proof (Nat.mod_upper_bound i n ltac:(lia)) as Hmod.
  fold n. apply Nat.ltb_lt in Hmod. rewrite Hmod.
  rewrite nth_error_skipn.
  replace (Z.to_nat ((Z.of_nat (i / n) + 1 - 1) * pageSize) + i mod n)%nat with i;
    [exact Hi|].
  replace (Z.of_nat (i / n) + 1 - 1) with (Z.of_nat (i / n)) by lia.
  rewrite Z2Nat.inj_mul by lia. rewrite Nat2Z.id. fold n.
  rewrite (Nat.div_mod_eq i n) at 1. lia.
Qed.

Lemma listMyPuzzles_complete_witness :
  exists k d,
    0 < k
    /\ listMyPuzzles (env_at 500 "x") (signed_in alice)
         (list_input None (Some (js "movie")) None k 1) timeline_db
       = (Returned d, timeline_db)
    /\ In (timed_puzzle "t3" 30 "movie") (ListMyPuzzles.items d).
Proof.
  apply (@listMyPuzzles_complete (env_at 500 "x") alice timeline_db
           None (Some (js "movie")) None 1 (timed_puzzle "t3" 30 "movie")).
  - lia.
  - left. reflexivity.
  - reflexivity.
  - reflexivity.
  - intros c H _. inversion H. reflexivity.
  - intros dv H. discriminate H.
Defined.

(* ================================================================== *)
(** ** Further properties: what no request does *)
(* ================================================================== *)

Lemma selected_session (u : User) (sid : jsstring) (l : list EmojiPuzzleSessions.row)
    (y : EmojiPuzzleSessions.row) (rest : list EmojiPuzzleSessions.row) :
  filter (fun r => text_eqb (EmojiPuzzleSessions.id r) sid
                   && text_eqb (EmojiPuzzleSessions.userId r) (user_id u)) l = y :: rest ->
  In y l /\ EmojiPuzzleSessions.id y = sid /\ EmojiPuzzleSessions.userId y = user_id u.
Proof.
  intros E.
  assert (H : In y (filter (fun r => text_eqb (EmojiPuzzleSessions.id r) sid
                   && text_eqb (EmojiPuzzleSessions.userId r) (user_id u)) l))
    by (rewrite E; left; reflexivity).
  apply filter_In in H. destruct H as [Hy Hf].
  apply andb_true_iff in Hf. destruct Hf as [Hk Ho].
  apply text_eqb_eq in Hk. apply text_eqb_eq in Ho. auto.
Qed.

Lemma db_eta (db : Db) :
  {| puzzles := puzzles db; sessions := sessions db; attempts := attempts db |} = db.
Proof. destruct db; reflexivity. Qed.

Lemma createPuzzle_effect (env : Env) (context : ActionAPIContext)
    (input : CreatePuzzle.input) (db : Db) :
  step_effect env (caller context) db (snd (createPuzzle env context input db)).
Proof.
  unfold createPuzzle, bind, requireUser, insert_puzzle, caller.
  destruct (locals context) as [l|]; [|apply effect_none; reflexivity].
  destruct (user l) as [u|]; [|apply effect_none; reflexivity].
  cbn [ret throw]. destruct (existsb _ (puzzles db)); [apply effect_none; reflexivity|].
  eapply effect_puzzle_added; [reflexivity | | reflexivity]. reflexivity.
Qed.

Lemma updatePuzzle_effect (env : Env) (context : ActionAPIContext)
    (input : UpdatePuzzle.input) (db : Db) :
  step_effect env (caller context) db (snd (updatePuzzle env context input db)).
Proof.
  unfold updatePuzzle, bind, requireUser, select_puzzles, update_puzzles, caller.
  destruct (locals context) as [l|]; [|apply effect_none; reflexivity].
  destruct (user l) as [u|]; [|apply effect_none; reflexivity].
  cbn [ret throw].
  destruct (filter _ (puzzles db)) as [|y rest] eqn:E; [apply effect_none; reflexivity|].
  destruct (Nat.eqb _ 0); [apply effect_none; reflexivity|].
  destruct (@selected_puzzle u _ _ y rest E) as (Hy & _ & Hown).
  eapply effect_puzzles_updated
    with (u := u) (y := y) (upd := with_updatedAt (updates_of input) (now env));
    try reflexivity; assumption.
Qed.

Lemma archivePuzzle_effect (env : Env) (context : ActionAPIContext)
    (input : ArchivePuzzle.input) (db : Db) :
  step_effect env (caller context) db (snd (archivePuzzle env context input db)).
Proof.
  unfold archivePuzzle, bind, requireUser, select_puzzles, update_puzzles, caller.
  destruct (locals context) as [l|]; [|apply effect_none; reflexivity].
  destruct (user l) as [u|]; [|apply effect_none; reflexivity].
  cbn [ret throw].
  destruct (filter _ (puzzles db)) as [|y rest] eqn:E; [apply effect_none; reflexivity|].
  destruct (negb _); [apply effect_none; reflexivity|].
  destruct (@selected_puzzle u _ _ y rest E) as (Hy & _ & Hown).
  eapply effect_puzzles_updated with (u := u) (y := y) (upd := archived (now env));
    try reflexivity; assumption.
Qed.

Lemma listMyPuzzles_effect (env : Env) (context : ActionAPIContext)
    (input : ListMyPuzzles.input) (db : Db) :
  step_effect env (caller context) db (snd (listMyPuzzles env context input db)).
Proof.
  unfold listMyPuzzles, bind, requireUser, select_puzzles.
  destruct (locals context) as [l|]; [|apply effect_none; reflexivity].
  destruct (user l) as [u|]; apply effect_none; reflexivity.
Qed.

Lemma startPuzzleSession_effect (env : Env) (context : ActionAPIContext)
    (input : StartPuzzleSession.input) (db : Db) :
  step_effect env (caller context) db (snd (startPuzzleSession env context input db)).
Proof.
  unfold startPuzzleSession, bind, requireUser, insert_session, caller.
  destruct (locals context) as [l|]; [|apply effect_none; reflexivity].
  destruct (user l) as [u|]; [|apply effect_none; reflexivity].
  cbn [ret throw]. destruct (existsb _ (sessions db)); [apply effect_none; reflexivity|].
  eapply effect_session_added; [reflexivity | | reflexivity]. reflexivity.
Qed.

Lemma endPuzzleSession_step (env : Env) (context : ActionAPIContext)
    (input : EndPuzzleSession.input) (db : Db) :
  step_effect env (caller context) db (snd (endPuzzleSession env context input db)).
Proof.
  unfold endPuzzleSession, bind, requireUser, select_sessions, update_sessions, caller.
  destruct (locals context) as [l|]; [|apply effect_none; reflexivity].
  destruct (user l) as [u|]; [|apply effect_none; reflexivity].
  cbn [ret throw].
  destruct (filter _ (sessions db)) as [|y rest] eqn:E; [apply effect_none; reflexivity|].
  destruct (exceeds _ _); [apply effect_none; reflexivity|].
  destruct (@selected_session u _ _ y rest E) as (Hy & _ & Hown).
  eapply effect_sessions_ended with (u := u) (y := y); try reflexivity; assumption.
Qed.

Lemma submitPuzzleAttempt_effect (U : UnicodeData) (env : Env)
    (context : ActionAPIContext) (input : SubmitPuzzleAttempt.input) (db : Db) :
  step_effect env (caller context) db (snd (submitPuzzleAttempt env context input db)).
Proof.
  unfold submitPuzzleAttempt, bind, requireUser, select_puzzles, caller.
  destruct (locals context) as [l|]; [|apply effect_none; reflexivity].
  destruct (user l) as [u|]; [|apply effect_none; reflexivity].
  cbn [ret throw].
  destruct (filter _ (puzzles db)) as [|p rest] eqn:E; [apply effect_none; reflexivity|].
  assert (Hp : In p (filter (fun r => text_eqb (EmojiPuzzles.id r)
                                               (SubmitPuzzleAttempt.puzzleId input))
                            (puzzles db))) by (rewrite E; left; reflexivity).
  apply filter_In in Hp. destruct Hp as [Hp _].
  destruct (negb _); [apply effect_none; reflexivity|].
  destruct (owned_by_other p u); [apply effect_none; reflexivity|].
  unfold resolve_session, bind, select_sessions, ret, throw, insert_attempt.
  destruct (SubmitPuzzleAttempt.sessionId input) as [sid|].
  - destruct (truthy sid).
    + destruct (filter _ (sessions db)) as [|y rest'] eqn:Es;
        [apply effect_none; reflexivity|].
      destruct (@selected_session u _ _ y rest' Es) as (Hy & _ & Hown).
      destruct (existsb _ (attempts db)); [apply effect_none; reflexivity|].
      eapply effect_attempt_added with (u := u) (p := p).
      6: reflexivity.
      all: try reflexivity; try exact Hp.
      cbn. intros sid' H. inversion H; subst. exists y. auto.
    + destruct (existsb _ (attempts db)); [apply effect_none; reflexivity|].
      eapply effect_attempt_added with (u := u) (p := p).
      6: reflexivity.
      all: try reflexivity; try exact Hp.
      cbn. intros sid' H. discriminate H.
  - destruct (existsb _ (attempts db)); [apply effect_none; reflexivity|].
    eapply effect_attempt_added with (u := u) (p := p).
    6: reflexivity.
    all: try reflexivity; try exact Hp.
    cbn. intros sid' H. discriminate H.
Qed.

(** Every request has one of the effects of [step_effect]. *)
Lemma server_effect (U : UnicodeData) (env : Env) (context : ActionAPIContext)
    (req : Request) (db : Db) :
  step_effect env (caller context) db (snd (server env context req db)).
Proof.
  destruct req as [i|i|i|i|i|i|i]; unfold server, defineAction, bind, ret, throw.
  - destruct (CreatePuzzle.schema i); [|apply effect_none; reflexivity].
    pose proof (createPuzzle_effect env context i db) as H.
    destruct (createPuzzle env context i db) as [[a|c] db']; exact H.
  - destruct (UpdatePuzzle.schema i); [|apply effect_none; reflexivity].
    pose proof (updatePuzzle_effect env context i db) as H.
    destruct (updatePuzzle env context i db) as [[a|c] db']; exact H.
  - destruct (ArchivePuzzle.schema i); [|apply effect_none; reflexivity].
    pose proof (archivePuzzle_effect env context i db) as H.
    destruct (archivePuzzle env context i db) as [[a|c] db']; exact H.
  - destruct (ListMyPuzzles.schema i); [|apply effect_none; reflexivity].
    pose proof (listMyPuzzles_effect env context i db) as H.
    destruct (listMyPuzzles env context i db) as [[a|c] db']; exact H.
  - destruct (StartPuzzleSession.schema i); [|apply effect_none; reflexivity].
    pose proof (startPuzzleSession_effect env context i db) as H.
    destruct (startPuzzleSession env context i db) as [[a|c] db']; exact H.
  - destruct (EndPuzzleSession.schema i); [|apply effect_none; reflexivity].
    pose proof (endPuzzleSession_step env context i db) as H.
    destruct (endPuzzleSession env context i db) as [[a|c] db']; exact H.
  - destruct (SubmitPuzzleAttempt.schema i); [|apply effect_none; reflexivity].
    pose proof (submitPuzzleAttempt_effect U env context i db) as H.
    destruct (submitPuzzleAttempt env context i db) as [[a|c] db']; exact H.
Qed.

Lemma spread_keeps_identity (r : EmojiPuzzles.row) (upd : EmojiPuzzles.partial) :
  EmojiPuzzles.p_id upd = None ->
  EmojiPuzzles.p_userId upd = None ->
  EmojiPuzzles.p_isSystem upd = None ->
  EmojiPuzzles.p_createdAt upd = None ->
  EmojiPuzzles.id (spread r upd) = EmojiPuzzles.id r
  /\ EmojiPuzzles.userId (spread r upd) = EmojiPuzzles.userId r
  /\ EmojiPuzzles.isSystem (spread r upd) = EmojiPuzzles.isSystem r
  /\ EmojiPuzzles.createdAt (spread r upd) = EmojiPuzzles.createdAt r.
Proof.
  intros H1 H2 H3 H4. cbn. rewrite H1, H2, H3, H4. cbn. auto.
Qed.

(** X19. No request deletes, moves or re-owns anything. After any request
    every attempt is where it was and as it was (attempts are only ever
    added); every puzzle is where it was with the same id, owner, system
    flag and time of creation; and every session is where it was with the
    same id, owner, mode and time of creation. *)
Theorem server_keeps_rows :
  forall (U : UnicodeData) (env : Env) (context : ActionAPIContext) (req : Request)
         (db : Db),
    (forall n a, nth_error (attempts db) n = Some a ->
       nth_error (attempts (snd (server env context req db))) n = Some a)
    /\ (forall n q, nth_error (puzzles db) n = Some q ->
          exists q',
            nth_error (puzzles (snd (server env context req db))) n = Some q'
            /\ EmojiPuzzles.id q' = EmojiPuzzles.id q
            /\ EmojiPuzzles.userId q' = EmojiPuzzles.userId q
            /\ EmojiPuzzles.isSystem q' = EmojiPuzzles.isSystem q
            /\ EmojiPuzzles.createdAt q' = EmojiPuzzles.createdAt q)
    /\ (forall n s, nth_error (sessions db) n = Some s ->
          exists s',
            nth_error (sessions (snd (server env context req db))) n = Some s'
            /\ EmojiPuzzleSessions.id s' = EmojiPuzzleSessions.id s
            /\ EmojiPuzzleSessions.userId s' = EmojiPuzzleSessions.userId s
            /\ EmojiPuzzleSessions.mode s' = EmojiPuzzleSessions.mode s
            /\ EmojiPuzzleSessions.createdAt s' = EmojiPuzzleSessions.createdAt s).
Proof.
  intros U env context req db.
  assert (Happ : forall (A : Type) (l : list A) (x y : A) (n : nat),
             nth_error l n = Some x -> nth_error (l ++ [y]) n = Some x).
  { intros A l x y n H. rewrite nth_error_app1; [exact H|].
    apply nth_error_Some. congruence. }
  destruct (server_effect U env context req db)
    as [-> | u p _ _ -> | u s _ _ -> | u a p _ _ _ _ _ ->
        | u y upd _ _ _ H1 H2 H3 H4 -> | u y total correct _ _ _ ->];
    cbn [puzzles sessions attempts];
    (split; [|split]);
    try (intros n x Hx; first [exact Hx | apply Happ; exact Hx]);
    try (intros n x Hx; exists x;
         split; [first [exact Hx | apply Happ; exact Hx] | auto]).
  - intros n q Hq. rewrite (nth_error_map_if _ _ _ _ Hq).
    destruct (text_eqb _ _); eexists; (split; [reflexivity|]); auto.
    apply (spread_keeps_identity q upd H1 H2 H3 H4).
  - intros n s Hs. rewrite (nth_error_map_if _ _ _ _ Hs).
    destruct (text_eqb _ _); eexists; (split; [reflexivity|]); cbn; auto.
Qed.

(** X20. A request only ever changes rows of its caller. With the primary
    keys in place, a puzzle that the caller does not own is after the
    request exactly as before; in particular a system puzzle, which has no
    owner, is changed by no request at all; and a session that is not a
    session of the caller is exactly as before. *)
Theorem server_changes_own_rows_only :
  forall (U : UnicodeData) (env : Env) (context : ActionAPIContext) (req : Request)
         (db : Db),
    primary_keys db ->
    (forall n q, nth_error (puzzles db) n = Some q ->
       (forall u, caller context = Some u ->
                  EmojiPuzzles.userId q <> Some (user_id u)) ->
       nth_error (puzzles (snd (server env context req db))) n = Some q)
    /\ (forall n q, nth_error (puzzles db) n = Some q ->
          EmojiPuzzles.userId q = None ->
          nth_error (puzzles (snd (server env context req db))) n = Some q)
    /\ (forall n s, nth_error (sessions db) n = Some s ->
          (forall u, caller context = Some u ->
                     EmojiPuzzleSessions.userId s <> user_id u) ->
          nth_error (sessions (snd (server env context req db))) n = Some s).
Proof.
  intros U env context req db Hpk.
  assert (Happ : forall (A : Type) (l : list A) (x y : A) (n : nat),
             nth_error l n = Some x -> nth_error (l ++ [y]) n = Some x).
  { intros A l x y n H. rewrite nth_error_app1; [exact H|].
    apply nth_error_Some. congruence. }
  assert (Hpuzzles : forall n q, nth_error (puzzles db) n = Some q ->
            (forall u, caller context = Some u ->
                       EmojiPuzzles.userId q <> Some (user_id u)) ->
            nth_error (puzzles (snd (server env context req db))) n = Some q).
  { intros n q Hq Hother.
    destruct (server_effect U env context req db)
      as [-> | u p _ _ -> | u s _ _ -> | u a p _ _ _ _ _ ->
          | u y upd Hwho Hy Hown _ _ _ _ -> | u y total correct _ _ _ ->];
      cbn [puzzles]; try exact Hq; try (apply Happ; exact Hq).
    rewrite (nth_error_map_if _ _ _ _ Hq).
    destruct (text_eqb (EmojiPuzzles.id q) (EmojiPuzzles.id y)) eqn:E; [|reflexivity].
    apply text_eqb_eq in E. exfalso. apply (Hother u Hwho).
    rewrite (primary_key_unique EmojiPuzzles.id (puzzles db) q y (pk_puzzles Hpk)
               (nth_error_In _ _ Hq) Hy E).
    exact Hown. }
  split; [exact Hpuzzles|]. split.
  - intros n q Hq Hnone. apply (Hpuzzles n q Hq).
    intros u _. rewrite Hnone. discriminate.
  - intros n s Hs Hother.
    destruct (server_effect U env context req db)
      as [-> | u p _ _ -> | u s0 _ _ -> | u a p _ _ _ _ _ ->
          | u y upd _ _ _ _ _ _ _ -> | u y total correct Hwho Hy Hown ->];
      cbn [sessions]; try exact Hs; try (apply Happ; exact Hs).
    rewrite (nth_error_map_if _ _ _ _ Hs).
    destruct (text_eqb (EmojiPuzzleSessions.id s) (EmojiPuzzleSessions.id y)) eqn:E;
      [|reflexivity].
    apply text_eqb_eq in E. exfalso. apply (Hother u Hwho).
    rewrite (primary_key_unique EmojiPuzzleSessions.id (sessions db) s y
               (pk_sessions Hpk) (nth_error_In _ _ Hs) Hy E).
    exact Hown.
Qed.

Lemma server_changes_own_rows_only_witness :
  nth_error (puzzles (snd (@server LatinDeseret (env_at 500 "x") (signed_in bob)
                             (UpdatePuzzleReq (update_input "p3" (Some false) None))
                             sample_db))) 2
  = Some (sample_puzzle "p3" None true)
  /\ nth_error (sessions (snd (@server LatinDeseret (env_at 500 "x") (signed_in bob)
                                 (EndPuzzleSessionReq end_plain) sample_db))) 0
     = nth_error (sessions sample_db) 0.
Proof.
  split.
  - apply (proj1 (proj2 (@server_changes_own_rows_only LatinDeseret (env_at 500 "x")
                           (signed_in bob)
                           (UpdatePuzzleReq (update_input "p3" (Some false) None))
                           sample_db sample_db_primary_keys))); reflexivity.
  - apply (proj2 (proj2 (@server_changes_own_rows_only LatinDeseret (env_at 500 "x")
                           (signed_in bob) (EndPuzzleSessionReq end_plain)
                           sample_db sample_db_primary_keys))).
    + reflexivity.
    + intros u H. inversion H; subst u. discriminate.
Defined.

(** X21. The links of the attempts are kept by every request: if every
    attempt points to a puzzle of the table and every attempt made in a
    session points to a session of the user who made it, the same holds
    after the request, the attempt that a submission adds included. *)
Theorem server_keeps_attempts_linked :
  forall (U : UnicodeData) (env : Env) (context : ActionAPIContext) (req : Request)
         (db : Db),
    attempts_linked db ->
    attempts_linked (snd (server env context req db)).
Proof.
  intros U env context req db Hlinked.
  destruct (server_effect U env context req db)
    as [-> | u p _ _ -> | u s _ _ -> | u a p _ Ha Hp Hpid Hsess ->
        | u y upd _ _ _ H1 H2 H3 H4 -> | u y total correct _ _ _ ->];
    [exact Hlinked | | | | |]; intros x Hx; cbn [puzzles sessions attempts] in *.
  - destruct (Hlinked x Hx) as [(q & Hq & Hid) Hs]. split; [|exact Hs].
    exists q. split; [apply in_or_app; left; exact Hq | exact Hid].
  - destruct (Hlinked x Hx) as [Hq Hs]. split; [exact Hq|].
    intros sid Hsid. destruct (Hs sid Hsid) as (s0 & Hs0 & Hrest).
    exists s0. split; [apply in_or_app; left; exact Hs0 | exact Hrest].
  - apply in_app_or in Hx. destruct Hx as [Hx | [<- | []]].
    + apply (Hlinked x Hx).
    + split; [exists p; auto|].
      intros sid Hsid. destruct (Hsess sid Hsid) as (s0 & Hs0 & Hid & Hown).
      exists s0. rewrite Ha, Hown. auto.
  - destruct (Hlinked x Hx) as [(q & Hq & Hid) Hs]. split; [|exact Hs].
    exists (if text_eqb (EmojiPuzzles.id q) (EmojiPuzzles.id y) then spread q upd else q).
    split.
    + apply in_map_iff. exists q. auto.
    + destruct (text_eqb _ _); [|exact Hid].
      rewrite (proj1 (spread_keeps_identity q upd H1 H2 H3 H4)). exact Hid.
  - destruct (Hlinked x Hx) as [Hq Hs]. split; [exact Hq|].
    intros sid Hsid. destruct (Hs sid Hsid) as (s0 & Hs0 & Hid & Hown).
    exists (if text_eqb (EmojiPuzzleSessions.id s0) (EmojiPuzzleSessions.id y)
            then ended (now env) total correct s0 else s0).
    split; [apply in_map_iff; exists s0; auto|].
    destruct (text_eqb _ _); auto.
Qed.

Lemma server_keeps_attempts_linked_witness :
  attempts_linked
    (snd (@server LatinDeseret (env_at 500 "a1") (signed_in alice)
            (SubmitPuzzleAttemptReq
               {| SubmitPuzzleAttempt.puzzleId := js "p1";
                  SubmitPuzzleAttempt.sessionId := Some (js "s1");
                  SubmitPuzzleAttempt.guessText := js "fast and furious" |})
            sample_db)).
Proof.
  apply (@server_keeps_attempts_linked LatinDeseret).
  intros a [].
Defined.

Lemma server_snd (U : UnicodeData) (env : Env) (context : ActionAPIContext)
    (req : Request) (db : Db) :
  snd (server env context req db) =
  match req with
  | CreatePuzzleReq i =>
      if CreatePuzzle.schema i then snd (createPuzzle env context i db) else db
  | UpdatePuzzleReq i =>
      if UpdatePuzzle.schema i then snd (updatePuzzle env context i db) else db
  | ArchivePuzzleReq i =>
      if ArchivePuzzle.schema i then snd (archivePuzzle env context i db) else db
  | ListMyPuzzlesReq i =>
      if ListMyPuzzles.schema i then snd (listMyPuzzles env context i db) else db
  | StartPuzzleSessionReq i =>
      if StartPuzzleSession.schema i
      then snd (startPuzzleSession env context i db) else db
  | EndPuzzleSessionReq i =>
      if EndPuzzleSession.schema i then snd (endPuzzleSession env context i db) else db
  | SubmitPuzzleAttemptReq i =>
      if SubmitPuzzleAttempt.schema i
      then snd (submitPuzzleAttempt env context i db) else db
  end.
Proof.
  destruct req as [i|i|i|i|i|i|i]; unfold server, defineAction, bind, ret, throw.
  - destruct (CreatePuzzle.schema i); [|reflexivity].
    destruct (createPuzzle env context i db) as [[a|c] db']; reflexivity.
  - destruct (UpdatePuzzle.schema i); [|reflexivity].
    destruct (updatePuzzle env context i db) as [[a|c] db']; reflexivity.
  - destruct (ArchivePuzzle.schema i); [|reflexivity].
    destruct (archivePuzzle env context i db) as [[a|c] db']; reflexivity.
  - destruct (ListMyPuzzles.schema i); [|reflexivity].
    destruct (listMyPuzzles env context i db) as [[a|c] db']; reflexivity.
  - destruct (StartPuzzleSession.schema i); [|reflexivity].
    destruct (startPuzzleSession env context i db) as [[a|c] db']; reflexivity.
  - destruct (EndPuzzleSession.schema i); [|reflexivity].
    destruct (endPuzzleSession env context i db) as [[a|c] db']; reflexivity.
  - destruct (SubmitPuzzleAttempt.schema i); [|reflexivity].
    destruct (submitPuzzleAttempt env context i db) as [[a|c] db']; reflexivity.
Qed.

Lemma startPuzzleSession_any (env : Env) (context : ActionAPIContext)
    (input : StartPuzzleSession.input) (db : Db) :
  sessions (snd (startPuzzleSession env context input db)) = sessions db
  \/ exists u, sessions (snd (startPuzzleSession env context input db))
               = sessions db ++ [new_session env u input].
Proof.
  unfold startPuzzleSession, bind, requireUser, insert_session.
  destruct (locals context) as [l|]; [|left; reflexivity].
  destruct (user l) as [u|]; [|left; reflexivity].
  cbn [ret throw]. destruct (existsb _ (sessions db)); [left; reflexivity|].
  right. exists u. reflexivity.
Qed.

Lemma endPuzzleSession_any (env : Env) (context : ActionAPIContext)
    (input : EndPuzzleSession.input) (db : Db) :
  sessions (snd (endPuzzleSession env context input db)) = sessions db
  \/ exists y,
       In y (sessions db)
       /\ sessions (snd (endPuzzleSession env context input db))
          = map (fun r =>
                   if text_eqb (EmojiPuzzleSessions.id r) (EmojiPuzzleSessions.id y)
                   then ended (now env)
                          (nullish (EndPuzzleSession.totalQuestions input)
                                   (EmojiPuzzleSessions.totalQuestions y))
                          (nullish (EndPuzzleSession.correctAnswers input)
                                   (EmojiPuzzleSessions.correctAnswers y)) r
                   else r) (sessions db).
Proof.
  unfold endPuzzleSession, bind, requireUser, select_sessions, update_sessions.
  destruct (locals context) as [l|]; [|left; reflexivity].
  destruct (user l) as [u|]; [|left; reflexivity].
  cbn [ret throw].
  destruct (filter _ (sessions db)) as [|y rest] eqn:E; [left; reflexivity|].
  destruct (exceeds _ _); [left; reflexivity|].
  destruct (@selected_session u _ _ y rest E) as (Hy & _).
  right. exists y. split; [exact Hy | reflexivity].
Qed.

(** X22. Through the schemas of the actions no count of a session ever
    becomes negative: if the counts of all stored sessions are not
    negative, they are not negative after any request. *)
Theorem server_keeps_counts_nonnegative :
  forall (U : UnicodeData) (env : Env) (context : ActionAPIContext) (req : Request)
         (db : Db),
    forallb counts_nonnegative (sessions db) = true ->
    forallb counts_nonnegative (sessions (snd (server env context req db))) = true.
Proof.
  intros U env context req db H. rewrite server_snd.
  destruct req as [i|i|i|i|i|i|i].
  - destruct (CreatePuzzle.schema i); [|exact H].
    rewrite createPuzzle_sessions. exact H.
  - destruct (UpdatePuzzle.schema i); [|exact H].
    rewrite updatePuzzle_sessions. exact H.
  - destruct (ArchivePuzzle.schema i); [|exact H].
    rewrite archivePuzzle_sessions. exact H.
  - destruct (ListMyPuzzles.schema i); [|exact H].
    rewrite listMyPuzzles_sessions. exact H.
  - destruct (StartPuzzleSession.schema i) eqn:Hschema; [|exact H].
    destruct (startPuzzleSession_any env context i db) as [-> | (u & ->)]; [exact H|].
    rewrite forallb_app, H. cbn [forallb andb].
    unfold counts_nonnegative, new_session. cbn.
    unfold StartPuzzleSession.schema in Hschema.
    destruct (StartPuzzleSession.totalQuestions i) as [t|]; [|reflexivity].
    apply Z.ltb_lt in Hschema. rewrite !andb_true_r. apply Z.leb_le. lia.
  - destruct (EndPuzzleSession.schema i) eqn:Hschema; [|exact H].
    destruct (endPuzzleSession_any env context i db) as [-> | (y & Hy & ->)]; [exact H|].
    rewrite forallb_forall in H. apply forallb_forall. intros x Hx.
    apply in_map_iff in Hx. destruct Hx as (r & <- & Hr).
    destruct (text_eqb _ _); [|apply H, Hr].
    specialize (H y Hy). unfold counts_nonnegative in H. apply andb_true_iff in H.
    destruct H as [Ht Hc].
    unfold EndPuzzleSession.schema in Hschema. apply andb_true_iff in Hschema.
    destruct Hschema as [St Sc].
    unfold counts_nonnegative, ended, nullish. cbn.
    apply andb_true_iff. split.
    + destruct (EndPuzzleSession.totalQuestions i); [exact St | exact Ht].
    + destruct (EndPuzzleSession.correctAnswers i); [exact Sc | exact Hc].
  - destruct (SubmitPuzzleAttempt.schema i); [|exact H].
    rewrite submitPuzzleAttempt_sessions. exact H.
Qed.

Lemma server_keeps_counts_nonnegative_witness :
  forallb counts_nonnegative
    (sessions (snd (@server LatinDeseret (env_at 900 "x") (signed_in alice)
                      (EndPuzzleSessionReq end_with_correct_only) sample_db))) = true.
Proof.
  apply (@server_keeps_counts_nonnegative LatinDeseret). reflexivity.
Defined.

(** X23. The identifiers stay unique along any run of the server: after
    any sequence of requests, by any callers, on a database whose tables
    have no two rows of the same id, no table has two rows of the same id;
    this holds in particular of every database reached from the empty
    one. *)
Theorem run_calls_primary_keys :
  forall (U : UnicodeData) (calls : list Call) (db : Db),
    primary_keys db -> primary_keys (run_calls calls db).
Proof.
  intros U calls. unfold run_calls.
  induction calls as [|c calls IH]; intros db H; [exact H|].
  cbn [fold_left]. apply IH. apply server_primary_keys. exact H.
Qed.

Lemma run_calls_primary_keys_witness :
  primary_keys
    (@run_calls LatinDeseret
       [ {| call_env := env_at 10 "p1"; call_context := signed_in alice;
            call_request := CreatePuzzleReq (create_input "cat" "Top Cat") |};
         {| call_env := env_at 20 "p1"; call_context := signed_in bob;
            call_request := CreatePuzzleReq (create_input "dog" "Top Dog") |};
         {| call_env := env_at 30 "s1"; call_context := signed_in bob;
            call_request := StartPuzzleSessionReq
                              {| StartPuzzleSession.mode := None;
                                 StartPuzzleSession.totalQuestions := Some 2 |} |} ]
       empty_db)
  /\ map EmojiPuzzles.id
       (puzzles
          (@run_calls LatinDeseret
             [ {| call_env := env_at 10 "p1"; call_context := signed_in alice;
                  call_request := CreatePuzzleReq (create_input "cat" "Top Cat") |};
               {| call_env := env_at 20 "p1"; call_context := signed_in bob;
                  call_request := CreatePuzzleReq (create_input "dog" "Top Dog") |} ]
             empty_db)) = [js "p1"].
Proof.
  split; [|reflexivity].
  apply (@run_calls_primary_keys LatinDeseret).
  constructor; constructor.
Defined.

(** X24. The answer is compared as it is stored at the time of the
    attempt: once the owner has replaced the answer of an active puzzle
    (without deactivating it) by a text that the database stores as it is
    (well-formed, without U+0000), a guess of the owner is correct exactly
    when its normal form is the normal form of the new answer. *)
Theorem updatePuzzle_answer_then_submit :
  forall (U : UnicodeData) (env env' : Env) (u : User) (db : Db)
         (p : EmojiPuzzles.row) (input : UpdatePuzzle.input)
         (answer' guess : jsstring),
    primary_keys db ->
    In p (puzzles db) ->
    EmojiPuzzles.userId p = Some (user_id u) ->
    EmojiPuzzles.isActive p = true ->
    UpdatePuzzle.id input = EmojiPuzzles.id p ->
    UpdatePuzzle.answer input = Some answer' ->
    storable_text answer' = true ->
    UpdatePuzzle.isActive input <> Some false ->
    ~ In (randomUUID env') (map EmojiPuzzleAttempts.id (attempts db)) ->
    exists r db1 a db2,
      updatePuzzle env (signed_in u) input db = (Returned r, db1)
      /\ EmojiPuzzles.id r = EmojiPuzzles.id p
      /\ EmojiPuzzles.answer r = answer'
      /\ submitPuzzleAttempt env' (signed_in u)
           {| SubmitPuzzleAttempt.puzzleId := EmojiPuzzles.id p;
              SubmitPuzzleAttempt.sessionId := None;
              SubmitPuzzleAttempt.guessText := guess |} db1 = (Returned a, db2)
      /\ (EmojiPuzzleAttempts.isCorrect a = true <->
          normalizeAnswer guess = normalizeAnswer answer').
Proof.
  intros U env env' u db p input answer' guess Hpk Hp Hown Hact Hid Hans _ Hkeep Hfresh.
  set (upd := with_updatedAt (updates_of input) (now env)).
  set (db1 := {| puzzles :=
                   map (fun r => if text_eqb (EmojiPuzzles.id r) (EmojiPuzzles.id p)
                                 then spread r upd else r) (puzzles db);
                 sessions := sessions db;
                 attempts := attempts db |}).
  assert (Hrun : updatePuzzle env (signed_in u) input db = (Returned (spread p upd), db1)).
  { rewrite updatePuzzle_signed_in, Hid.
    rewrite (select_by_key EmojiPuzzles.id
               (fun r => eq_nullable (EmojiPuzzles.userId r) (user_id u))
               (puzzles db) p (pk_puzzles Hpk) Hp).
    rewrite Hown. cbn [eq_nullable]. rewrite text_eqb_refl.
    destruct (Nat.eqb (keys_length (updates_of input)) 0) eqn:Ek; [|reflexivity].
    apply keys_length_updates_of in Ek. destruct Ek as (_ & Ek & _). congruence. }
  assert (Hpk1 : primary_keys db1).
  { destruct Hpk as [H1 H2 H3]. constructor; cbn [db1 puzzles sessions attempts]; auto.
    rewrite update_keeps_key; [exact H1 | intros; reflexivity]. }
  assert (Hin : In (spread p upd) (puzzles db1)).
  { cbn [db1 puzzles]. apply in_map_iff. exists p. rewrite text_eqb_refl. auto. }
  assert (Hactive : EmojiPuzzles.isActive (spread p upd) = true).
  { cbn. destruct (UpdatePuzzle.isActive input) as [[|]|];
      cbn; [reflexivity | contradiction | exact Hact]. }
  assert (Hanswer : EmojiPuzzles.answer (spread p upd) = answer')
    by (cbn; rewrite Hans; reflexivity).
  pose proof (@submit_without_session U env' u db1 (spread p upd) guess None Hpk1 Hin
                Hactive (owner_not_other (spread p upd) u Hown) (or_introl eq_refl)
                Hfresh) as Hsub.
  cbv zeta in Hsub.
  eexists (spread p upd), db1, _, _.
  split; [exact Hrun|]. split; [reflexivity|]. split; [exact Hanswer|].
  split; [exact Hsub|].
  cbn [EmojiPuzzleAttempts.isCorrect]. rewrite Hanswer. apply text_eqb_eq.
Qed.

Lemma updatePuzzle_answer_then_submit_witness :
  exists r db1 a db2,
    updatePuzzle (env_at 500 "x") (signed_in alice)
      {| UpdatePuzzle.id := js "p1";
         UpdatePuzzle.emojiSequence := None;
         UpdatePuzzle.answer := Some (js "The Fast and the Furious");
         UpdatePuzzle.hint := None;
         UpdatePuzzle.category := None;
         UpdatePuzzle.difficulty := None;
         UpdatePuzzle.language := None;
         UpdatePuzzle.isActive := None |} sample_db = (Returned r, db1)
    /\ @submitPuzzleAttempt LatinDeseret (env_at 600 "a1") (signed_in alice)
         {| SubmitPuzzleAttempt.puzzleId := js "p1";
            SubmitPuzzleAttempt.sessionId := None;
            SubmitPuzzleAttempt.guessText := js "fast and furious" |} db1
       = (Returned a, db2)
    /\ EmojiPuzzleAttempts.isCorrect a = false.
Proof.
  destruct (@updatePuzzle_answer_then_submit LatinDeseret (env_at 500 "x")
              (env_at 600 "a1") alice sample_db
              (sample_puzzle "p1" (Some (js "alice")) true)
              {| UpdatePuzzle.id := js "p1";
                 UpdatePuzzle.emojiSequence := None;
                 UpdatePuzzle.answer := Some (js "The Fast and the Furious");
                 UpdatePuzzle.hint := None;
                 UpdatePuzzle.category := None;
                 UpdatePuzzle.difficulty := None;
                 UpdatePuzzle.language := None;
                 UpdatePuzzle.isActive := None |}
              (js "The Fast and the Furious") (js "fast and furious")
              sample_db_primary_keys (or_introl eq_refl) eq_refl eq_refl eq_refl eq_refl)
    as (r & db1 & a & db2 & H1 & _ & _ & H2 & H3).
  - vm_compute. reflexivity.
  - discriminate.
  - simpl. tauto.
  - exists r, db1, a, db2. split; [exact H1|]. split; [exact H2|].
    destruct (EmojiPuzzleAttempts.isCorrect a) eqn:E; [|reflexivity].
    exfalso. assert (Hn := proj1 H3 eq_refl). vm_compute in Hn. discriminate Hn.
Defined.

Lemma submitPuzzleAttempt_only_appends_witness :
  exists a,
    @submitPuzzleAttempt LatinDeseret (env_at 500 "a1") (signed_in bob)
      (submit_input "p3" "fast and furious") sample_db
    = (Returned a, {| puzzles := puzzles sample_db;
                      sessions := sessions sample_db;
                      attempts := attempts sample_db ++ [a] |})
    /\ EmojiPuzzleAttempts.userId a = Some (js "bob").
Proof.
  destruct (@submitPuzzleAttempt_only_appends LatinDeseret (env_at 500 "a1")
              (signed_in bob) (submit_input "p3" "fast and furious") sample_db)
    as [(code & H) | (a & stored & u & p & H & _ & _ & _ & _ & _ & _ & Hsame & Hu & Ha & _)].
  - vm_compute in H. discriminate H.
  - exists a. rewrite (Hsame eq_refl) in H.
    split; [exact H|]. inversion Hu; subst u. exact Ha.
Defined.

Lemma listMyPuzzles_page_in_order_witness :
  exists d,
    listMyPuzzles (env_at 500 "x") (signed_in alice)
      (list_input None None None 1 2) timeline_db = (Returned d, timeline_db)
    /\ ListMyPuzzles.total d = 2%nat
    /\ StronglySorted created_before (ListMyPuzzles.items d).
Proof.
  destruct (listMyPuzzles_page_in_order (env_at 500 "x") alice
              (list_input None None None 1 2) timeline_db)
    as (d & Hrun & _ & Htotal & _ & _ & Hsorted).
  exists d. split; [exact Hrun|]. split; [|exact Hsorted].
  rewrite listMyPuzzles_signed_in in Hrun. inversion Hrun. reflexivity.
Defined.

Lemma server_keeps_rows_witness :
  exists q',
    nth_error (puzzles (snd (@server LatinDeseret (env_at 500 "x") (signed_in alice)
                               (ArchivePuzzleReq {| ArchivePuzzle.id := js "p1" |})
                               sample_db))) 0 = Some q'
    /\ EmojiPuzzles.id q' = js "p1"
    /\ EmojiPuzzles.userId q' = Some (js "alice").
Proof.
  destruct (proj1 (proj2 (@server_keeps_rows LatinDeseret (env_at 500 "x")
                            (signed_in alice)
                            (ArchivePuzzleReq {| ArchivePuzzle.id := js "p1" |})
                            sample_db))
              0%nat (sample_puzzle "p1" (Some (js "alice")) true) eq_refl)
    as (q' & Hn & Hid & Hown & _).
  exists q'. split; [exact Hn|]. split; [exact Hid | exact Hown].
Defined.
